(** * The chat assistant: a shallow embedding and its properties

    The repository is a browser chat client (React) with three Deno edge
    functions and one PostgreSQL trigger.  This file embeds

    - [streamChat] (utils/streamChat.ts): attachment processing, the request,
      and the incremental parser of the [text/event-stream] answer;
    - [useVoiceResponse] and the handlers of [Index] (the page), of
      [ChatInput] and of [CloudinaryUpload];
    - the [chat], [signup-notification] and [cloudinary] handlers;
    - the trigger [on_auth_user_created_notify].

    Text is a list of 8-bit code units ([list ascii]); the names of HTTP
    headers and of settings are [string] keys of a [gmap], as the source
    uses JS objects for them. *)

From Stdlib Require Import Ascii String List Arith NArith ZArith Lia Bool.
From Stdlib Require Import DecimalString DecimalN HexadecimalString HexadecimalN.
From stdpp Require Import base option list strings gmap.

Import ListNotations.
Local Open Scope list_scope.

(* ===================================================================== *)
(** ** JavaScript strings                                                 *)
(* ===================================================================== *)

Module Js.

Definition str := list ascii.

(** A string literal of the source. *)
Definition lit (s : string) : str := list_ascii_of_string s.

Definition LF : ascii := ascii_of_nat 10.
Definition CR : ascii := ascii_of_nat 13.

Definition DQ : ascii := ascii_of_nat 34.

(** A text of the examples, written with an apostrophe where it has a
    double quote. *)
Definition quoted (s : string) : str :=
  map (fun c => if Ascii.eqb c "'"%char then DQ else c) (lit s).

Definition str_eqb (a b : str) : bool :=
  bool_decide (a = b).

(** [s.startsWith(p)] *)
Fixpoint startsWith (p s : str) : bool :=
  match p, s with
  | [], _ => true
  | _ :: _, [] => false
  | a :: p', b :: s' => Ascii.eqb a b && startsWith p' s'
  end.

(** [s.endsWith(p)] *)
Definition endsWith (p s : str) : bool := startsWith (rev p) (rev s).

(** White space and line terminators of ECMAScript that fit in one 8-bit
    code unit: TAB, LF, VT, FF, CR, SP and NBSP. *)
Definition isWhite (c : ascii) : bool :=
  let n := nat_of_ascii c in
  (n =? 9) || (n =? 10) || (n =? 11) || (n =? 12) || (n =? 13)
  || (n =? 32) || (n =? 160).

Fixpoint trimStart (s : str) : str :=
  match s with
  | c :: s' => if isWhite c then trimStart s' else s
  | [] => []
  end.

Definition trimEnd (s : str) : str := rev (trimStart (rev s)).

(** [s.trim()] *)
Definition trim (s : str) : str := trimEnd (trimStart s).

(** [s.indexOf("\n")], [None] for -1. *)
Fixpoint indexOfLF (s : str) : option nat :=
  match s with
  | [] => None
  | c :: s' =>
      if Ascii.eqb c LF then Some 0
      else match indexOfLF s' with
           | Some i => Some (S i)
           | None => None
           end
  end.

(** [s.slice(0, -1)] *)
Definition dropLast (s : str) : str := firstn (List.length s - 1) s.

(** [if (line.endsWith("\r")) line = line.slice(0, -1);] *)
Definition stripCR (line : str) : str :=
  if endsWith [CR] line then dropLast line else line.

(** [s.split("\n")]: never empty, the pieces carry no line feed. *)
Fixpoint splitLF (s : str) : list str :=
  match s with
  | [] => [[]]
  | c :: s' =>
      if Ascii.eqb c LF then [] :: splitLF s'
      else match splitLF s' with
           | l :: ls => (c :: l) :: ls
           | [] => [[c]]
           end
  end.

(** [n.toString()] of a non-negative integer. *)
Definition toString (n : N) : str :=
  lit (DecimalString.NilEmpty.string_of_uint (N.to_uint n)).

(** A truthy string is a non-empty one. *)
Definition truthy (s : str) : bool :=
  match s with [] => false | _ :: _ => true end.

(** [xs.map((x, idx) => f(x, idx))] *)
Fixpoint mapi_from {A B : Type} (f : A -> nat -> B) (idx : nat) (xs : list A)
  : list B :=
  match xs with
  | [] => []
  | x :: xs' => f x idx :: mapi_from f (S idx) xs'
  end.

(** [s.padStart(n, c)] for a one-character [c]. *)
Definition padStart (n : nat) (c : ascii) (s : str) : str :=
  repeat c (n - List.length s) ++ s.

(** [n.toString(16)] of a non-negative integer. *)
Definition toString16 (n : N) : str :=
  lit (HexadecimalString.NilEmpty.string_of_uint (N.to_hex_uint n)).

(** A thrown value: an [Error] with its message, or anything else. *)
Inductive thrown :=
| ErrorObject (message : str)
| OtherValue.

(** [error instanceof Error ? error.message : other] *)
Definition messageOr (other : str) (e : thrown) : str :=
  match e with
  | ErrorObject m => m
  | OtherValue => other
  end.

(** A string that may be [undefined], in a template literal or passed to
    [FormData.append]. *)
Definition template_ (v : option str) : str :=
  match v with
  | Some s => s
  | None => lit "undefined"
  end.

(** [a || b] on strings that may be [undefined]. *)
Definition orElse (a : option str) (b : str) : str :=
  match a with
  | Some s => if truthy s then s else b
  | None => b
  end.

(** A JSON value where the code expects a string ([as string] is erased
    when the code runs).  Of a value that is not a string the code uses
    whether it is truthy and, where it is appended to a string, its text
    [String(v)].  A number is given by that text, ["0"] for zero and for
    minus zero, the only numbers of JSON that are falsy; an array or an
    object, always truthy, by its text as well. *)
Inductive value :=
| VString (s : str)
| VNull
| VBool (b : bool)
| VNumber (text : str)
| VCompound (text : str).

(** [if (v)] *)
Definition truthyV (v : value) : bool :=
  match v with
  | VString s => truthy s
  | VNull => false
  | VBool b => b
  | VNumber text => negb (str_eqb text (lit "0"))
  | VCompound _ => true
  end.

(** [text + v]: the text a string concatenation appends for [v]. *)
Definition toText (v : value) : str :=
  match v with
  | VString s => s
  | VNull => lit "null"
  | VBool true => lit "true"
  | VBool false => lit "false"
  | VNumber text => text
  | VCompound text => text
  end.

(** [a || b] on values that may be [undefined]. *)
Definition orElseV (a : option value) (b : value) : value :=
  match a with
  | Some v => if truthyV v then v else b
  | None => b
  end.

Definition isText (v : value) : bool :=
  match v with VString _ => true | _ => false end.

End Js.

Import Js.

(* ===================================================================== *)
(** ** utils/streamChat.ts: the event-stream parser                       *)
(* ===================================================================== *)

Module Stream.

(** The shape the code reads off a parsed payload,
    [parsed.choices?.[0]?.delta?.content as string | undefined]:
    every level may be absent, and [content] is whatever JSON value the
    payload holds there. *)
Record Delta := { content : option value }.
Record Choice := { delta : option Delta }.
Record Chunk := { choices : option (list Choice) }.

(** What a caller observes of [streamChat]: the calls of its callbacks, in
    order. *)
Inductive event :=
| OnDelta (deltaText : value)
| OnDone
| OnError (error : value).

(** The callbacks of a caller: what a call throws, [None] when it returns.
    Those of this repository (Index.handleSendMessage) are React state
    updates and return: they are [quiet]. *)
Definition callbacks := event -> option thrown.
Definition quiet : callbacks := fun _ => None.

(** The body of the answer as [reader.read()] hands it over, decoded:
    the chunks, then either [done] or a rejected read. *)
Record Body := { chunks : list str; failure : option thrown }.

(** What [resp.json()] settles with, as the code reads it: a rejection,
    which the code turns into [{ error: "Network error" }]; [null], of
    which reading [.error] throws a TypeError with the engine's message;
    or another value, with its [error] if it has one. *)
Inductive ErrorData :=
| JsonRejected
| JsonNull (typeError : str)
| JsonValue (error : option value).

(** The answer of [fetch]. *)
Record Response := {
  ok : bool;
  status : N;
  errorJson : ErrorData;
  body : option Body
}.

Section Parser.

(** [JSON.parse] of a payload, read at the shape above: [None] when the
    [try] throws before it reaches [onDelta], on a text that is not JSON
    and on the text [null], whose [choices] cannot be read. *)
Variable JSON_parse : str -> option Chunk.

(** The callbacks [streamChat] is given. *)
Variable raises : callbacks.

Definition deltaContent (parsed : Chunk) : option value :=
  match choices parsed with
  | Some (c :: _) =>
      match delta c with
      | Some d => content d
      | None => None
      end
  | _ => None
  end.

(** [if (content) onDelta(content);] *)
Definition emit (c : option value) (out : list event) : list event :=
  match c with
  | Some v => if truthyV v then out ++ [OnDelta v] else out
  | None => out
  end.

(** The body of the [try] that both loops run on a payload: the calls
    made, and whether it threw ([JSON.parse] or [onDelta]). *)
Definition parseAndEmit (jsonStr : str) (out : list event)
  : list event * bool :=
  match JSON_parse jsonStr with
  | None => (out, true)
  | Some parsed =>
      let content := deltaContent parsed in
      (emit content out,
       match content with
       | Some v =>
           if truthyV v
           then match raises (OnDelta v) with Some _ => true | None => false end
           else false
       | None => false
       end)
  end.

(** The inner [while] of the read loop: one iteration per unit of
    [fuel].  When the loop is left, the result is the buffer,
    [streamDone] and the callbacks made so far; it is [None] when the
    fuel is used up before the loop is left. *)
Fixpoint innerLoop (fuel : nat) (textBuffer : str) (out : list event)
  : option (str * bool * list event) :=
  match fuel with
  | O => None
  | S fuel' =>
      match indexOfLF textBuffer with
      | None => Some (textBuffer, false, out)
      | Some newlineIndex =>
          let line := firstn newlineIndex textBuffer in
          let textBuffer := skipn (newlineIndex + 1) textBuffer in
          let line := stripCR line in
          if startsWith (lit ":") line || str_eqb (trim line) []
          then innerLoop fuel' textBuffer out
          else if negb (startsWith (lit "data: ") line)
          then innerLoop fuel' textBuffer out
          else
            let jsonStr := trim (skipn 6 line) in
            if str_eqb jsonStr (lit "[DONE]")
            then Some (textBuffer, true, out)
            else
              let '(out, threw) := parseAndEmit jsonStr out in
              if threw then Some (line ++ [LF] ++ textBuffer, false, out)
              else innerLoop fuel' textBuffer out
      end
  end.

(** The inner loop as the read loop enters it.  Every iteration takes a
    line feed off the buffer, so the loop is left within as many
    iterations as the buffer has characters and one more: the fuel given
    here is never used up ([drainBuffer_Some]). *)
Definition drainBuffer (textBuffer : str) (out : list event)
  : str * bool * list event :=
  match innerLoop (S (List.length textBuffer)) textBuffer out with
  | Some result => result
  | None => (textBuffer, false, out)
  end.

(** The outer [while (!streamDone)]: the buffer left when the loop ends,
    or what a rejected [reader.read()] throws, and the callbacks made. *)
Fixpoint readLoop (cs : list str) (fail : option thrown)
         (textBuffer : str) (out : list event)
  : (thrown + str) * list event :=
  match cs with
  | [] =>
      match fail with
      | Some e => (inl e, out)
      | None => (inr textBuffer, out)
      end
  | value :: cs' =>
      let textBuffer := textBuffer ++ value in
      let '(textBuffer, streamDone, out) := drainBuffer textBuffer out in
      if streamDone then (inr textBuffer, out)
      else readLoop cs' fail textBuffer out
  end.

(** The body of the [for] of the final flush. *)
Fixpoint flushLines (raws : list str) (out : list event) : list event :=
  match raws with
  | [] => out
  | raw :: raws' =>
      if negb (truthy raw) || startsWith (lit ":") raw
      then flushLines raws' out
      else if negb (startsWith (lit "data: ") raw)
      then flushLines raws' out
      else
        let jsonStr := trim (skipn 6 raw) in
        if str_eqb jsonStr (lit "[DONE]") then flushLines raws' out
        else flushLines raws' (fst (parseAndEmit jsonStr out))
  end.

Definition finalFlush (textBuffer : str) (out : list event) : list event :=
  if truthy (trim textBuffer)
  then flushLines (splitLF textBuffer) out
  else out.

(** [error instanceof Error ? error.message : "Failed to connect..."] *)
Definition catchMessage (e : thrown) : value :=
  VString (messageOr (lit "Failed to connect to AI service") e).

(** A call of a callback: the call is recorded, and what it throws is
    what the statement throws. *)
Definition call (e : event) (out : list event) : list event * option thrown :=
  (out ++ [e], raises e).

(** From [resp.body.getReader()] to [onDone()], inside the [try]: the calls
    made and what the block throws. *)
Definition readBody (b : Body) : list event * option thrown :=
  match readLoop (chunks b) (failure b) [] [] with
  | (inr textBuffer, out) => call OnDone (finalFlush textBuffer out)
  | (inl e, out) => (out, Some e)
  end.

(** The [try] block of [streamChat], from the settled [fetch] on. *)
Definition tryBlock (r : thrown + Response) : list event * option thrown :=
  match r with
  | inl e => ([], Some e)
  | inr resp =>
      if negb (ok resp) then
        if (status resp =? 429)%N then
          call (OnError (VString (lit "Rate limit exceeded. Please wait a moment and try again."))) []
        else if (status resp =? 402)%N then
          call (OnError (VString (lit "AI credits exhausted. Please add credits to continue using this feature."))) []
        else
          let requestFailed :=
            VString (lit "Request failed with status "
                     ++ toString (status resp)) in
          match errorJson resp with
          | JsonRejected =>
              call (OnError (orElseV (Some (VString (lit "Network error")))
                                     requestFailed)) []
          | JsonNull typeError => ([], Some (ErrorObject typeError))
          | JsonValue error => call (OnError (orElseV error requestFailed)) []
          end
      else
        match body resp with
        | None => call (OnError (VString (lit "No response body received"))) []
        | Some b => readBody b
        end
  end.

(** [try { ... } catch (error) { onError(...) }]: the calls of one run of
    [streamChat] and the exception it ends with, if any. *)
Definition handleResponse (r : thrown + Response)
  : list event * option thrown :=
  match tryBlock r with
  | (out, None) => (out, None)
  | (out, Some e) => call (OnError (catchMessage e)) out
  end.

End Parser.

Section Lines.

Variable JSON_parse : str -> option Chunk.

(** The callbacks made for an answer whose body arrives whole or in
    pieces and ends normally, the callbacks returning. *)
Definition deltasOf (cs : list str) : list event :=
  fst (readBody JSON_parse quiet {| chunks := cs; failure := None |}).

(** The answer [resp] is accepted, its body arrives as the chunks [cs]
    and then ends, no read failing. *)
Definition streamedAs (cs : list str) (resp : Response) : Prop :=
  ok resp = true /\ body resp = Some {| chunks := cs; failure := None |}.

(** [onDelta] returns normally, whatever it is given. *)
Definition deltaReturns (raises : callbacks) : Prop :=
  forall v, raises (OnDelta v) = None.

(** Every callback returns normally. *)
Definition allReturn (raises : callbacks) : Prop :=
  forall e, raises e = None.

(** *** The lines of a body and what they carry *)

(** A ['data: '] line, and the text after that prefix. *)
Definition isData (l : str) : bool := startsWith (lit "data: ") l.
Definition payload (l : str) : str := trim (skipn 6 l).

(** The ['[DONE]'] sentinel. *)
Definition isSentinel (l : str) : bool :=
  isData l && str_eqb (payload l) (lit "[DONE]").

(** A ['data: '] line whose payload is not valid JSON. *)
Definition isMalformed (l : str) : bool :=
  isData l && negb (isSentinel l) &&
  match JSON_parse (payload l) with Some _ => false | None => true end.

(** The delta a line carries: the [content] of a well-formed ['data: ']
    line, when it is truthy (for a string: not empty). *)
Definition lineDelta (l : str) : list value :=
  if isData l && negb (isSentinel l) then
    match JSON_parse (payload l) with
    | Some parsed =>
        match deltaContent parsed with
        | Some v => if truthyV v then [v] else []
        | None => []
        end
    | None => []
    end
  else [].

(** The deltas of a sequence of lines, in their order. *)
Definition contents (ls : list str) : list value :=
  concat (map lineDelta ls).

(** The [content] of a well-formed ['data: '] line, if it has one. *)
Definition lineContent (l : str) : option value :=
  if isData l && negb (isSentinel l) then
    match JSON_parse (payload l) with
    | Some parsed => deltaContent parsed
    | None => None
    end
  else None.

(** Every [content] among [ls] is a string. *)
Definition textContents (ls : list str) : Prop :=
  Forall (fun l => match lineContent l with
                   | Some v => isText v = true
                   | None => True
                   end) ls.

(** The non-empty string a line carries as [content], if it does. *)
Definition lineText (l : str) : list str :=
  match lineContent l with
  | Some (VString s) => if truthy s then [s] else []
  | _ => []
  end.

Definition texts (ls : list str) : list str :=
  concat (map lineText ls).

(** The buffer between two reads: no complete line, or a first line that
    [JSON.parse] rejected and the loop put back. *)
Definition settled (b : str) : Prop :=
  indexOfLF b = None \/
  exists l r, b = l ++ LF :: r /\ indexOfLF l = None /\
              isSentinel l = false /\ isMalformed l = true.

(** No ['data: '] line among [ls]. *)
Definition noData (ls : list str) : Prop :=
  Forall (fun l => isData l = false) ls.

(** No sentinel among [ls]. *)
Definition noSentinel (ls : list str) : Prop :=
  Forall (fun l => isSentinel l = false) ls.

(** The lines [post] from the first sentinel of a body on: none when the
    body has no sentinel. *)
Definition fromSentinel (post : list str) : Prop :=
  post = [] \/ exists s0 post', post = s0 :: post' /\ isSentinel s0 = true.

(** The same, with no ['data: '] line after the sentinel. *)
Definition closingSentinel (post : list str) : Prop :=
  post = [] \/
  exists s0 post', post = s0 :: post' /\ isSentinel s0 = true /\ noData post'.

(** No ['data: '] line follows the first sentinel of [body]. *)
Definition quietAfterDone (body : str) : Prop :=
  forall pre s0 post,
    splitLF body = pre ++ s0 :: post -> noSentinel pre ->
    isSentinel s0 = true -> noData post.

(** The arguments of the [onDelta] calls of a trace. *)
Definition deltaTexts (tr : list event) : list value :=
  concat (map (fun e => match e with OnDelta v => [v] | _ => [] end) tr).

Definition errorsOf (tr : list event) : list value :=
  concat (map (fun e => match e with OnError m => [m] | _ => [] end) tr).

(** [onDone] or [onError]. *)
Definition terminal (e : event) : bool :=
  match e with OnDelta _ => false | _ => true end.

End Lines.

(** *** [JSON.parse] on the texts of the examples

    [sampleParse] agrees with [JSON.parse] on the shapes the examples
    use, a chunk whose first choice carries a plain text as
    [delta.content], a chunk whose content is the number 5, and a chunk
    whose delta is empty, and on texts cut short; it is not used outside
    the examples. *)
Definition withContent (s : str) : Chunk :=
  {| choices := Some [ {| delta := Some {| content := Some (VString s) |} |} ] |}.

Definition contentPrefix : str := quoted "{'choices':[{'delta':{'content':'".
Definition contentSuffix : str := quoted "'}}]}".

(** Characters a JSON string holds unescaped. *)
Definition plainChar (c : ascii) : bool :=
  (32 <=? nat_of_ascii c) && negb (Ascii.eqb c DQ) && negb (Ascii.eqb c "\"%char).

Definition sampleParse (s : str) : option Chunk :=
  if str_eqb s (quoted "{'choices':[{'delta':{}}]}")
  then Some {| choices := Some [ {| delta := Some {| content := None |} |} ] |}
  else if str_eqb s (quoted "{'choices':[{'delta':{'content':5}}]}")
  then Some {| choices :=
                 Some [ {| delta :=
                             Some {| content :=
                                       Some (VNumber (lit "5")) |} |} ] |}
  else if startsWith contentPrefix s && endsWith contentSuffix s
          && (List.length contentPrefix + List.length contentSuffix <=? List.length s)
  then
    let text :=
      firstn (List.length s - List.length contentPrefix - List.length contentSuffix)
             (skipn (List.length contentPrefix) s) in
    if forallb plainChar text then Some (withContent text) else None
  else None.

(** A ['data: '] line carrying [text], the sentinel, and a line cut short. *)
Definition dataLine (text : string) : str :=
  lit "data: " ++ contentPrefix ++ lit text ++ contentSuffix.
Definition doneLine : str := lit "data: [DONE]".
Definition cutLine (text : string) : str :=
  lit "data: " ++ contentPrefix ++ lit text.

End Stream.

(* ===================================================================== *)
(** ** utils/streamChat.ts: attachments and the request                   *)
(* ===================================================================== *)

Module Files.

(** A [File] of the browser, with what reading it gives: [dataURL] is the
    result of [FileReader.readAsDataURL] and [text] that of [file.text()],
    [None] when the read fails. *)
Record File := {
  name : str;
  type : str;
  dataURL : option str;
  text : option str
}.

(** A part of a multimodal content array. *)
Inductive part :=
| TextPart (text : str)           (* { type: "text", text } *)
| ImageUrlPart (url : str).       (* { type: "image_url", image_url: { url } } *)

Inductive role := User | Assistant.

(** A message as [streamChat] receives it: [msg.content as string]. *)
Record Message := { msgRole : role; msgContent : str }.

(** A message as it is sent: [content: string | any[]]. *)
Inductive content :=
| Plain (s : str)
| Parts (ps : list part).

Record Sent := { sentRole : role; sentContent : content }.

(** [s.split(",")], never empty. *)
Fixpoint splitComma (s : str) : list str :=
  match s with
  | [] => [[]]
  | c :: s' =>
      if Ascii.eqb c ","%char then [] :: splitComma s'
      else match splitComma s' with
           | l :: ls => (c :: l) :: ls
           | [] => [[c]]
           end
  end.

(** [fileToBase64]: the promise rejects ([None]) when the reader fails; it
    resolves to [base64.split(',')[1]], which is [undefined] ([Some None])
    when the data URL has no comma. *)
Definition fileToBase64 (file : File) : option (option str) :=
  match dataURL file with
  | None => None
  | Some base64 => Some (nth_error (splitComma base64) 1)
  end.

(** [file.type || 'application/octet-stream'] *)
Definition mimeTypeOf (file : File) : str :=
  orElse (Some (type file)) (lit "application/octet-stream").

Definition isImage (file : File) : bool :=
  startsWith (lit "image/") (mimeTypeOf file).

Definition isPdf (file : File) : bool :=
  str_eqb (mimeTypeOf file) (lit "application/pdf").

Definition isTextLike (file : File) : bool :=
  startsWith (lit "text/") (mimeTypeOf file)
  || str_eqb (mimeTypeOf file) (lit "application/json")
  || str_eqb (mimeTypeOf file) (lit "application/xml")
  || endsWith (lit ".md") (name file)
  || endsWith (lit ".txt") (name file)
  || endsWith (lit ".csv") (name file)
  || endsWith (lit ".log") (name file).

Definition dataUrlPart (mimeType : str) (base64 : option str) : part :=
  ImageUrlPart (lit "data:" ++ mimeType ++ lit ";base64," ++ template_ base64).

Definition pdfNote (file : File) : part :=
  TextPart (lit "[PDF Document: " ++ name file ++ lit "]" ++ [LF]
            ++ lit "Note: This is a PDF file. Please analyze its content.").

Definition inlined (file : File) (text : str) : part :=
  TextPart ([LF; LF] ++ lit "--- Document: " ++ name file ++ lit " ---" ++ [LF]
            ++ text ++ [LF] ++ lit "--- End of " ++ name file ++ lit " ---"
            ++ [LF]).

Definition placeholder (file : File) : part :=
  TextPart (lit "[Document: " ++ name file ++ lit " (" ++ mimeTypeOf file
            ++ lit ")]" ++ [LF]
            ++ lit "This document has been uploaded. Please analyze its content if possible.").

Definition readError (file : File) : part :=
  TextPart (lit "[Error reading file: " ++ name file ++ lit "]").

(** The body of the [for (const file of files)] loop: what one file pushes
    on [fileContents].  Every [push] of a branch follows its [await], so a
    failed read leaves only the part pushed by the [catch]. *)
Definition fileParts (file : File) : list part :=
  let mimeType := mimeTypeOf file in
  if startsWith (lit "image/") mimeType then
    match fileToBase64 file with
    | Some base64 => [dataUrlPart mimeType base64]
    | None => [readError file]
    end
  else if str_eqb mimeType (lit "application/pdf") then
    match fileToBase64 file with
    | Some base64 => [pdfNote file; dataUrlPart mimeType base64]
    | None => [readError file]
    end
  else if isTextLike file then
    match text file with
    | Some t => [inlined file t]
    | None => [readError file]
    end
  else
    match fileToBase64 file with
    | Some _ => [placeholder file]
    | None => [readError file]
    end.

(** Whether the read that the branch of [file] awaits succeeds. *)
Definition readOk (file : File) : bool :=
  if isImage file || isPdf file || negb (isTextLike file)
  then match dataURL file with Some _ => true | None => false end
  else match text file with Some _ => true | None => false end.

(** [fileContents] after the loop; [files] absent is the empty list. *)
Definition fileContents (files : list File) : list part :=
  concat (map fileParts files).

Definition unchanged (msg : Message) : Sent :=
  {| sentRole := msgRole msg; sentContent := Plain (msgContent msg) |}.

Definition isUser (r : role) : bool :=
  match r with User => true | Assistant => false end.

(** [processedMessages] *)
Definition processedMessages (messages : list Message) (files : list File)
  : list Sent :=
  let fileContents := fileContents files in
  if 0 <? List.length fileContents then
    mapi_from
      (fun msg idx =>
         if (idx =? List.length messages - 1) && isUser (msgRole msg)
         then {| sentRole := msgRole msg;
                 sentContent := Parts (TextPart (msgContent msg) :: fileContents) |}
         else unchanged msg)
      0 messages
  else map unchanged messages.

(** [streamChat]: the messages put in the request, the callbacks made and
    the exception the call ends with, for a [fetch] that settles as
    [answer] says. *)
Definition streamChat (JSON_parse : str -> option Stream.Chunk)
           (raises : Stream.callbacks)
           (answer : list Sent -> thrown + Stream.Response)
           (messages : list Message) (files : list File)
  : list Sent * (list Stream.event * option thrown) :=
  let processed := processedMessages messages files in
  (processed, Stream.handleResponse JSON_parse raises (answer processed)).

End Files.

(* ===================================================================== *)
(** ** hooks/useVoiceResponse.ts and pages/Index.tsx                      *)
(* ===================================================================== *)

Module Page.

(** What the page does to the world outside its state. *)
Inductive effect :=
| InvokeTTS (text : str)          (* supabase.functions.invoke('text-to-speech') *)
| PlayAudio (audioContent : str)  (* new Audio(url).play() *)
| Toast (title : str) (description : value).

(** The answer of the text-to-speech function: an error, or [data] with
    its [audioContent] if it has one. *)
Definition ttsAnswer := option (option str).

(** [speak], for the [isVoiceEnabled] its closure holds: the effects, and
    the last [setIsSpeaking] if there is one. *)
Definition speak (isVoiceEnabled : bool) (tts : ttsAnswer) (playFails : bool)
           (text : str) : list effect * option bool :=
  if negb isVoiceEnabled || negb (truthy (trim text)) then ([], None)
  else
    match tts with
    | None =>
        ([InvokeTTS text;
          Toast (lit "Voice Error")
                (VString (lit "Failed to play voice response"))],
         Some false)
    | Some data =>
        match data with
        | Some audioContent =>
            if truthy audioContent then
              if playFails then
                ([InvokeTTS text; PlayAudio audioContent;
                  Toast (lit "Voice Error")
                        (VString (lit "Failed to play voice response"))],
                 Some false)
              else ([InvokeTTS text; PlayAudio audioContent], Some true)
            else ([InvokeTTS text], Some true)
        | None => ([InvokeTTS text], Some true)
        end
    end.

Inductive role := User | Assistant.

Record Message := { id : str; role_ : role; content : str }.

Definition WELCOME_id : str := lit "welcome".

(** The state of [Index] that [handleSendMessage] touches. *)
Record State := {
  messages : list Message;
  isTyping : bool;
  effects : list effect;
  speakCalls : list str
}.

Definition isAssistant (r : role) : bool :=
  match r with Assistant => true | User => false end.

(** [userMessage], for [Date.now()] read as [now]. *)
Definition userMessage (now : N) (text : str) : Message :=
  {| id := toString now; role_ := User; content := text |}.

(** The start of [handleSendMessage]:
    [setMessages(prev => [...prev, userMessage]); setIsTyping(true)]. *)
Definition send (now : N) (text : str) (st : State) : State :=
  {| messages := messages st ++ [userMessage now text];
     isTyping := true;
     effects := effects st;
     speakCalls := speakCalls st |}.

(** [prev.map((m, i) => i === prev.length - 1 ? {...m, content} : m)] *)
Definition setLastContent (assistantContent : str) (prev : list Message)
  : list Message :=
  mapi_from
    (fun m i =>
       if i =? List.length prev - 1
       then {| id := id m; role_ := role_ m; content := assistantContent |}
       else m)
    0 prev.

(** The updater of [updateAssistantMessage], for [Date.now()] read as
    [now] when it runs. *)
Definition updateMessages (now : N) (assistantContent : str)
           (prev : list Message) : list Message :=
  match last (map role_ prev) with
  | Some Assistant => setLastContent assistantContent prev
  | _ => prev ++ [ {| id := toString (now + 1); role_ := Assistant;
                      content := assistantContent |} ]
  end.

(** The handlers given to [streamChat], on the page state and the
    [assistantContent] of the closure; [assistantContent += chunk] appends
    the text of [chunk]. *)
Definition onDelta (now : N) (chunk : value) (ac : str) (st : State)
  : str * State :=
  let ac := ac ++ toText chunk in
  (ac, {| messages := updateMessages now ac (messages st);
          isTyping := isTyping st;
          effects := effects st;
          speakCalls := speakCalls st |}).

Definition onDone (isVoiceEnabled : bool) (tts : ttsAnswer) (playFails : bool)
           (ac : str) (st : State) : State :=
  if isVoiceEnabled && truthy ac then
    {| messages := messages st;
       isTyping := false;
       effects := effects st ++ fst (speak isVoiceEnabled tts playFails ac);
       speakCalls := speakCalls st ++ [ac] |}
  else
    {| messages := messages st;
       isTyping := false;
       effects := effects st;
       speakCalls := speakCalls st |}.

Definition onError (user : Message) (error : value) (st : State) : State :=
  {| messages :=
       List.filter (fun m => negb (str_eqb (id m) (id user))) (messages st);
     isTyping := false;
     effects := effects st ++ [Toast (lit "Error") error];
     speakCalls := speakCalls st |}.

(** The callbacks of one answer, each [onDelta] with the clock it reads. *)
Fixpoint runCallbacks (isVoiceEnabled : bool) (tts : ttsAnswer)
         (playFails : bool) (user : Message)
         (tr : list (Stream.event * N)) (ac : str) (st : State) : State :=
  match tr with
  | [] => st
  | (Stream.OnDelta chunk, now) :: tr' =>
      let '(ac, st) := onDelta now chunk ac st in
      runCallbacks isVoiceEnabled tts playFails user tr' ac st
  | (Stream.OnDone, _) :: tr' =>
      runCallbacks isVoiceEnabled tts playFails user tr' ac
                   (onDone isVoiceEnabled tts playFails ac st)
  | (Stream.OnError error, _) :: tr' =>
      runCallbacks isVoiceEnabled tts playFails user tr' ac
                   (onError user error st)
  end.

(** [handleSendMessage] for an answer that makes the callbacks [tr]. *)
Definition handleSendMessage (isVoiceEnabled : bool) (tts : ttsAnswer)
           (playFails : bool) (now : N) (text : str)
           (tr : list (Stream.event * N)) (st : State) : State :=
  runCallbacks isVoiceEnabled tts playFails (userMessage now text) tr []
               (send now text st).

(** The text a run of deltas adds up to. *)
Definition textOf (ds : list (value * N)) : str :=
  concat (map (fun d => toText (fst d)) ds).

(** The assistant message a run of deltas leaves, if any. *)
Definition partialAnswer (ds : list (value * N)) : list Message :=
  match ds with
  | [] => []
  | (_, now) :: _ =>
      [ {| id := toString (now + 1); role_ := Assistant;
           content := textOf ds |} ]
  end.

(** The callbacks of an answer that streams [ds] and then fails. *)
Definition failingAnswer (ds : list (value * N)) (error : value) (now : N)
  : list (Stream.event * N) :=
  map (fun d => (Stream.OnDelta (fst d), snd d)) ds
  ++ [(Stream.OnError error, now)].

Definition hasId (i : str) (m : Message) : bool := str_eqb (id m) i.


End Page.

(* ===================================================================== *)
(** ** supabase/functions: the three request handlers                     *)
(* ===================================================================== *)

Module Edge.

Local Open Scope string_scope.
Local Open Scope list_scope.

(** [const corsHeaders = {...}], the same object in the three files. *)
Definition corsHeaders : gmap string string :=
  {[ "Access-Control-Allow-Origin" := "*";
     "Access-Control-Allow-Headers" :=
       "authorization, x-client-info, apikey, content-type" ]}.

(** [{ ...corsHeaders, 'Content-Type': t }] *)
Definition withContentType (t : string) : gmap string string :=
  <[ "Content-Type" := t ]> corsHeaders.

Inductive jsval :=
| JStr (s : str)
| JNum (n : N)
| JBool (b : bool).

(** The body of a [Response]: [null], [JSON.stringify] of an object, or
    the body of the gateway's answer handed on. *)
Inductive payload :=
| NoBody
| Json (fields : list (string * jsval))
| Forwarded (b : Stream.Body).

Record Response := {
  status : N;
  headers : gmap string string;
  body : payload
}.

(** Code that may throw. *)
Definition attempt (A : Type) : Type := thrown + A.

Definition bind {A B : Type} (m : attempt A) (k : A -> attempt B) : attempt B :=
  match m with
  | inl e => inl e
  | inr a => k a
  end.

Notation "'let!' x ':=' m 'in' k" := (bind m (fun x => k))
  (at level 10, x pattern, m at level 100, k at level 200).

Definition throwError {A : Type} (message : str) : attempt A :=
  inl (ErrorObject message).

(** [!v] for a string that may be [undefined]. *)
Definition missing (v : option str) : bool :=
  match v with
  | Some s => negb (truthy s)
  | None => true
  end.

(** The [catch] of the three handlers. *)
Definition caught (e : thrown) : Response :=
  {| status := 500;
     headers := withContentType "application/json";
     body := Json [("error", JStr (messageOr (lit "Unknown error") e))] |}.

Definition preflight : Response :=
  {| status := 200; headers := corsHeaders; body := NoBody |}.

(** *** chat/index.ts *)

(** The gateway's answer to the completion request; [completionText] is
    what [response.text()] gives. *)
Record Completion := {
  completionOk : bool;
  completionStatus : N;
  completionText : attempt str;
  completionBody : Stream.Body
}.

(** A request to [chat]: its method and what [req.json()] gives, with
    [messages] absent when the body has none. *)
Record ChatRequest := {
  chatMethod : string;
  chatJson : attempt (option (list Files.Sent))
}.

Definition chat (LOVABLE_API_KEY : option str)
           (gateway : list Files.Sent -> attempt Completion)
           (req : ChatRequest) : Response :=
  if String.eqb (chatMethod req) "OPTIONS" then preflight
  else
    match
      (let! messages := chatJson req in
       if missing LOVABLE_API_KEY
       then throwError (lit "LOVABLE_API_KEY is not configured")
       else
         match messages with
         | None =>
             throwError
               (lit "Cannot read properties of undefined (reading 'length')")
         | Some messages =>
             let! response := gateway messages in
             if negb (completionOk response) then
               let! errorText := completionText response in
               if (completionStatus response =? 429)%N then
                 inr {| status := 429;
                        headers := withContentType "application/json";
                        body := Json [("error", JStr (lit
                          "Rate limit exceeded. Please try again in a moment."))] |}
               else if (completionStatus response =? 402)%N then
                 inr {| status := 402;
                        headers := withContentType "application/json";
                        body := Json [("error", JStr (lit
                          "AI credits exhausted. Please add credits to continue."))] |}
               else
                 inr {| status := 500;
                        headers := withContentType "application/json";
                        body := Json [("error", JStr (lit "AI service error"))] |}
             else
               inr {| status := 200;
                      headers := withContentType "text/event-stream";
                      body := Forwarded (completionBody response) |}
         end)
    with
    | inr response => response
    | inl e => caught e
    end.

(** *** signup-notification/index.ts *)

(** The answer of the mail service: [ok], what [emailResponse.text()]
    gives, and whether [emailResponse.json()] resolves. *)
Record Mail := {
  mailOk : bool;
  mailText : attempt str;
  mailJson : attempt unit
}.

(** A request to [signup-notification]: [req.json()] gives the [email] and
    [created_at] of the new user. *)
Record SignupRequest := {
  signupMethod : string;
  signupJson : attempt (option str * option str)
}.

Definition signupNotification (RESEND_API_KEY : option str)
           (resend : option str * option str -> attempt Mail)
           (req : SignupRequest) : Response :=
  if String.eqb (signupMethod req) "OPTIONS" then preflight
  else
    match
      (let! user := signupJson req in
       if missing RESEND_API_KEY
       then throwError (lit "RESEND_API_KEY is not configured")
       else
         let! emailResponse := resend user in
         if negb (mailOk emailResponse)
         then
           let! error := mailText emailResponse in
           throwError (lit "Failed to send email: " ++ error)
         else
           let! _ := mailJson emailResponse in
           inr {| status := 200;
                  headers := withContentType "application/json";
                  body := Json [("success", JBool true)] |})
    with
    | inr response => response
    | inl e => caught e
    end.

(** *** The cloudinary function *)

(** [Math.round(Date.now() / 1000)] for [Date.now()] read as [now]: the
    quotient is at most half a second away from a multiple of 1/1000, far
    from where a double would round it to the other side. *)
Definition roundSeconds (now : N) : N := ((now + 500) / 1000)%N.

(** [new TextEncoder().encode(s)]: UTF-8 of 8-bit code units. *)
Definition encode (s : str) : list N :=
  concat (map (fun c =>
                 let n := N_of_ascii c in
                 if (n <? 128)%N then [n]
                 else [(192 + n / 64)%N; (128 + n mod 64)%N]) s).

(** [b.toString(16).padStart(2, '0')] *)
Definition hexByte (b : N) : str := padStart 2 "0"%char (toString16 b).

(** A [FormData] posted to the image service. *)
Record Post := { url : str; form : list (string * str) }.

Record UploadResponse := {
  secure_url : str;
  public_id : str;
  format : str;
  width : N;
  height : N;
  bytes : N
}.

(** The answer to an upload: [ok], its text and its JSON. *)
Record UploadAnswer := {
  uploadOk : bool;
  uploadText : attempt str;
  uploadJson : attempt UploadResponse
}.

(** A request to the function, [req.json()] read as strings that may be
    absent. *)
Record CloudinaryJson := {
  action : option str;
  file : option str;
  publicId : option str;
  transformations : option str
}.

Record CloudinaryRequest := {
  cloudinaryMethod : string;
  cloudinaryJson : attempt CloudinaryJson
}.

(** What [deleteResponse.json()] resolves to, as the code reads it:
    [null], of which reading [.result] throws a TypeError with the
    engine's message, or another value, with its [result] when that is a
    string. *)
Inductive DeleteJson :=
| DeleteNull (typeError : str)
| DeleteValue (result : option str).

Section Cloudinary.

(** [crypto.subtle.digest('SHA-1', data)] on bytes. *)
Variable digestSHA1 : list N -> list N.

(** The lines that both branches use to sign. *)
Definition sign (paramsToSign CLOUDINARY_API_SECRET : str) : str :=
  let data := encode (paramsToSign ++ CLOUDINARY_API_SECRET) in
  let hashArray := digestSHA1 data in
  concat (map hexByte hashArray).

Definition isAction (name : string) (a : option str) : bool :=
  match a with
  | Some s => str_eqb s (lit name)
  | None => false
  end.

(** The handler: the posts it makes to the image service and its answer. *)
Definition cloudinary
           (CLOUDINARY_CLOUD_NAME CLOUDINARY_API_KEY CLOUDINARY_API_SECRET
              : option str)
           (now : N)
           (upload : Post -> attempt UploadAnswer)
           (destroy : Post -> attempt (attempt DeleteJson))
           (req : CloudinaryRequest) : list Post * Response :=
  if String.eqb (cloudinaryMethod req) "OPTIONS" then ([], preflight)
  else
    match CLOUDINARY_CLOUD_NAME, CLOUDINARY_API_KEY, CLOUDINARY_API_SECRET with
    | Some cloudName, Some apiKey, Some apiSecret =>
        if negb (truthy cloudName) || negb (truthy apiKey)
           || negb (truthy apiSecret)
        then ([], caught (ErrorObject (lit "Cloudinary credentials are not configured")))
        else
          match cloudinaryJson req with
          | inl e => ([], caught e)
          | inr json =>
              if isAction "upload" (action json) then
                if missing (file json)
                then ([], caught (ErrorObject (lit "File data is required for upload")))
                else
                  let timestamp := roundSeconds now in
                  let paramsToSign := lit "timestamp=" ++ toString timestamp in
                  let signature := sign paramsToSign apiSecret in
                  let post :=
                    {| url := lit "https://api.cloudinary.com/v1_1/" ++ cloudName
                              ++ lit "/image/upload";
                       form := [("file", template_ (file json));
                                ("api_key", apiKey);
                                ("timestamp", toString timestamp);
                                ("signature", signature)] |} in
                  ([post],
                   match
                     (let! uploadResponse := upload post in
                      if negb (uploadOk uploadResponse)
                      then
                        let! errorText := uploadText uploadResponse in
                        throwError (lit "Upload failed: " ++ errorText)
                      else
                        let! result := uploadJson uploadResponse in
                        inr {| status := 200;
                               headers := withContentType "application/json";
                               body := Json
                                 [("url", JStr (secure_url result));
                                  ("publicId", JStr (public_id result));
                                  ("format", JStr (format result));
                                  ("width", JNum (width result));
                                  ("height", JNum (height result));
                                  ("bytes", JNum (bytes result))] |})
                   with
                   | inr response => response
                   | inl e => caught e
                   end)
              else if isAction "transform" (action json) then
                if missing (publicId json)
                then ([], caught (ErrorObject (lit "Public ID is required for transformation")))
                else
                  let transformStr :=
                    orElse (transformations json) (lit "w_500,h_500,c_fill") in
                  ([],
                   {| status := 200;
                      headers := withContentType "application/json";
                      body := Json
                        [("url", JStr (lit "https://res.cloudinary.com/"
                                       ++ cloudName ++ lit "/image/upload/"
                                       ++ transformStr ++ lit "/"
                                       ++ template_ (publicId json)))] |})
              else if isAction "delete" (action json) then
                if missing (publicId json)
                then ([], caught (ErrorObject (lit "Public ID is required for deletion")))
                else
                  let timestamp := roundSeconds now in
                  let paramsToSign :=
                    lit "public_id=" ++ template_ (publicId json)
                    ++ lit "&timestamp=" ++ toString timestamp in
                  let signature := sign paramsToSign apiSecret in
                  let post :=
                    {| url := lit "https://api.cloudinary.com/v1_1/" ++ cloudName
                              ++ lit "/image/destroy";
                       form := [("public_id", template_ (publicId json));
                                ("api_key", apiKey);
                                ("timestamp", toString timestamp);
                                ("signature", signature)] |} in
                  ([post],
                   match
                     (let! deleteResponse := destroy post in
                      let! result := deleteResponse in
                      match result with
                      | DeleteNull typeError => inl (ErrorObject typeError)
                      | DeleteValue result =>
                          inr {| status := 200;
                                 headers := withContentType "application/json";
                                 body := Json
                                   [("success",
                                     JBool (match result with
                                            | Some r => str_eqb r (lit "ok")
                                            | None => false
                                            end))] |}
                      end)
                   with
                   | inr response => response
                   | inl e => caught e
                   end)
              else
                ([], caught (ErrorObject (lit "Invalid action. Use: upload, transform, or delete")))
          end
    | _, _, _ =>
        ([], caught (ErrorObject (lit "Cloudinary credentials are not configured")))
    end.

(** The lowercase hexadecimal SHA-1 digest of a string. *)
Definition sha1Hex (s : str) : str :=
  concat (map hexByte (digestSHA1 (encode s))).

End Cloudinary.

(** [formData.get(name)] *)
Definition field (name : string) (form : list (string * str)) : option str :=
  match find (fun p => String.eqb (fst p) name) form with
  | Some p => Some (snd p)
  | None => None
  end.

(** A response with the header [Access-Control-Allow-Origin: *]. *)
Definition allowsAnyOrigin (r : Response) : Prop :=
  headers r !! "Access-Control-Allow-Origin" = Some "*".

(** The value of a lowercase hexadecimal digit. *)
Definition hexDigit (c : ascii) : option N :=
  let n := N_of_ascii c in
  if ((48 <=? n) && (n <=? 57))%N then Some (n - 48)%N
  else if ((97 <=? n) && (n <=? 102))%N then Some (n - 87)%N
  else None.

(** The byte two lowercase hexadecimal digits spell. *)
Definition unhexByte (s : str) : option N :=
  match s with
  | [h; l] =>
      match hexDigit h, hexDigit l with
      | Some a, Some b => Some (16 * a + b)%N
      | _, _ => None
      end
  | _ => None
  end.

(** A digest for the examples: it is not SHA-1. *)
Definition sampleDigest (data : list N) : list N :=
  [N.of_nat (List.length data); 0; 171; 255]%N.

End Edge.

(* ===================================================================== *)
(** ** The migration: notify_new_signup and its trigger                   *)
(* ===================================================================== *)

Module Trigger.

Local Open Scope string_scope.
Local Open Scope list_scope.

(** A row of [auth.users]: the two columns the function reads, and the
    others. *)
Record Row := {
  email : option str;               (* NULL is [None] *)
  created_at : str;
  others : list (string * str)
}.

(** A request queued by [net.http_post]; a JSON value of the body is a
    string or [null]. *)
Record HttpPost := {
  url : str;
  headers : gmap string str;
  body : gmap string (option str)
}.

(** [current_setting(name)]: an error, here [None], when the setting is
    not defined. *)
Definition current_setting (settings : gmap string str) (name : string)
  : option str :=
  settings !! name.

(** [public.notify_new_signup()], run for the row [NEW]: the request it
    queues and the row it returns, or [None] when it raises. *)
Definition notify_new_signup (settings : gmap string str) (NEW : Row)
  : option (HttpPost * Row) :=
  match current_setting settings "app.settings.supabase_url" with
  | None => None
  | Some supabase_url =>
      match current_setting settings "app.settings.service_role_key" with
      | None => None
      | Some service_role_key =>
          Some ({| url := supabase_url ++ lit "/functions/v1/signup-notification";
                   headers :=
                     {[ "Content-Type" := lit "application/json";
                        "Authorization" := lit "Bearer " ++ service_role_key ]};
                   body :=
                     {[ "email" := email NEW;
                        "created_at" := Some (created_at NEW) ]} |},
                NEW)
      end
  end.

(** The table and the queue of [pg_net]. *)
Record Db := {
  users : list Row;
  queue : list HttpPost
}.

(** [INSERT INTO auth.users] of one row, with
    [on_auth_user_created_notify AFTER INSERT ... FOR EACH ROW]: the row
    is stored, then the function runs on it; when it raises, the statement
    is rolled back ([None]). *)
Definition insertRow (settings : gmap string str) (db : Db) (row : Row)
  : option Db :=
  match notify_new_signup settings row with
  | None => None
  | Some (post, _) =>
      Some {| users := users db ++ [row]; queue := queue db ++ [post] |}
  end.

(** An [INSERT] of several rows: the trigger runs for each row. *)
Fixpoint insertRows (settings : gmap string str) (db : Db) (rows : list Row)
  : option Db :=
  match rows with
  | [] => Some db
  | row :: rows' =>
      match insertRow settings db row with
      | None => None
      | Some db' => insertRows settings db' rows'
      end
  end.

(** The endpoint the function posts to. *)
Definition endpoint (supabase_url : str) : str :=
  supabase_url ++ lit "/functions/v1/signup-notification".

End Trigger.

(* ===================================================================== *)
(** ** components/ChatInput.tsx                                           *)
(* ===================================================================== *)

Module Composer.

(** The state of [ChatInput]. *)
Record State := {
  message : str;
  selectedFiles : list Files.File
}.

(** [handleFileSelect]: [setSelectedFiles(prev => [...prev, ...files])]. *)
Definition handleFileSelect (files : list Files.File) (st : State) : State :=
  {| message := message st; selectedFiles := selectedFiles st ++ files |}.

(** [xs.filter((x, i) => p(x, i))] *)
Fixpoint filteri_from {A : Type} (p : A -> nat -> bool) (i : nat) (xs : list A)
  : list A :=
  match xs with
  | [] => []
  | x :: xs' =>
      if p x i then x :: filteri_from p (S i) xs' else filteri_from p (S i) xs'
  end.

(** [removeFile]: [setSelectedFiles(prev => prev.filter((_, i) => i !== index))]. *)
Definition removeFile (index : nat) (st : State) : State :=
  {| message := message st;
     selectedFiles :=
       filteri_from (fun _ i => negb (i =? index)) 0 (selectedFiles st) |}.

(** A call [onSendMessage(message, files)], [files] being [undefined] when
    [None]. *)
Definition sending := (str * option (list Files.File))%type.

(** [handleSubmit], for the [disabled] of the props: the call of
    [onSendMessage] if there is one, and the state after. *)
Definition handleSubmit (disabled : bool) (st : State) : option sending * State :=
  if truthy (trim (message st)) && negb disabled then
    (Some (message st,
           if 0 <? List.length (selectedFiles st)
           then Some (selectedFiles st) else None),
     {| message := []; selectedFiles := [] |})
  else (None, st).

(** [handleKeyDown] for the key of the event and its [shiftKey]. *)
Definition handleKeyDown (key : str) (shiftKey : bool) (disabled : bool)
           (st : State) : option sending * State :=
  if str_eqb key (lit "Enter") && negb shiftKey
  then handleSubmit disabled st
  else (None, st).

End Composer.

(* ===================================================================== *)
(** ** pages/Index.tsx: the other handlers                                *)
(* ===================================================================== *)

Module PageActions.

Import Page.

(** [WELCOME_MESSAGE], for the text of its [content]. *)
Definition WELCOME_MESSAGE (welcome : str) : Message :=
  {| id := WELCOME_id; role_ := Assistant; content := welcome |}.

(** [handleClearChat] *)
Definition handleClearChat (welcome : str) (st : State) : State :=
  {| messages := [WELCOME_MESSAGE welcome];
     isTyping := isTyping st;
     effects := effects st
                ++ [Toast (lit "Chat cleared")
                          (VString (lit "Conversation history has been reset."))];
     speakCalls := speakCalls st |}.

(** The callbacks of an answer that streams [ds] and then completes. *)
Definition completedAnswer (ds : list (value * N)) (now : N)
  : list (Stream.event * N) :=
  map (fun d => (Stream.OnDelta (fst d), snd d)) ds ++ [(Stream.OnDone, now)].

(** [{...m, content}] *)
Definition withText (c : str) (m : Message) : Message :=
  {| id := id m; role_ := role_ m; content := c |}.

(** What happens on the page while a send is under way: a callback of its
    [streamChat], with the clock its updater reads, or a click on Clear
    Chat.  The input is disabled while the typing flag is set, so no other
    send starts, and the voice switch does not touch this state. *)
Inductive action :=
| Callback (e : Stream.event) (now : N)
| ClearChat.

Definition isClearChat (a : action) : bool :=
  match a with ClearChat => true | Callback _ _ => false end.

(** The page under the actions [acts], from the state and the
    [assistantContent] of the send. *)
Fixpoint runActions (isVoiceEnabled : bool) (tts : ttsAnswer)
         (playFails : bool) (welcome : str) (user : Message)
         (acts : list action) (ac : str) (st : State) : State :=
  match acts with
  | [] => st
  | Callback (Stream.OnDelta chunk) now :: acts' =>
      let '(ac, st) := onDelta now chunk ac st in
      runActions isVoiceEnabled tts playFails welcome user acts' ac st
  | Callback Stream.OnDone _ :: acts' =>
      runActions isVoiceEnabled tts playFails welcome user acts' ac
                 (onDone isVoiceEnabled tts playFails ac st)
  | Callback (Stream.OnError error) _ :: acts' =>
      runActions isVoiceEnabled tts playFails welcome user acts' ac
                 (onError user error st)
  | ClearChat :: acts' =>
      runActions isVoiceEnabled tts playFails welcome user acts' ac
                 (handleClearChat welcome st)
  end.

(** [handleSendMessage] and what happens on the page until its answer
    ends. *)
Definition sendAmong (isVoiceEnabled : bool) (tts : ttsAnswer)
           (playFails : bool) (welcome : str) (now : N) (text : str)
           (acts : list action) (st : State) : State :=
  runActions isVoiceEnabled tts playFails welcome (userMessage now text)
             acts [] (send now text st).

(** The callbacks [tr] with nothing else happening on the page. *)
Definition undisturbed (tr : list (Stream.event * N)) : list action :=
  map (fun c => Callback (fst c) (snd c)) tr.

(** The callbacks among [acts]. *)
Definition callbacksOf (acts : list action) : list (Stream.event * N) :=
  concat (map (fun a => match a with
                        | Callback e now => [(e, now)]
                        | ClearChat => []
                        end) acts).

End PageActions.

(* ===================================================================== *)
(** ** The CloudinaryUpload component                                     *)
(* ===================================================================== *)

Module Upload.

(** A [File] as the component reads it: [read] is what [fileToBase64]
    settles with, the data URL of [FileReader.readAsDataURL] or the error
    of the reader. *)
Record File := {
  type : str;
  size : N;
  read : thrown + str
}.

(** The state of the component that [handleUpload] touches; [A] is the type
    of the data the function answers with. *)
Record State (A : Type) := {
  preview : option str;
  isUploading : bool;
  uploadedResult : option A;
  toasts : list (str * str);
  completed : list A               (* calls of [onUploadComplete] *)
}.

Arguments preview {A}.
Arguments isUploading {A}.
Arguments uploadedResult {A}.
Arguments toasts {A}.
Arguments completed {A}.

(** [xs.includes(x)] *)
Definition includes (xs : list str) (x : str) : bool :=
  existsb (str_eqb x) xs.

(** [xs.join(", ")] *)
Fixpoint joinComma (xs : list str) : str :=
  match xs with
  | [] => []
  | [x] => x
  | x :: xs' => x ++ lit ", " ++ joinComma xs'
  end.

(** [validateFile]: its result and the toast it shows, if any. *)
Definition validateFile (acceptedTypes : list str) (maxSizeMB : N)
           (file : File) : bool * list (str * str) :=
  if negb (includes acceptedTypes (type file)) then
    (false, [(lit "Invalid file type",
              lit "Please upload: " ++ joinComma acceptedTypes)])
  else if (maxSizeMB * 1024 * 1024 <? size file)%N then
    (false, [(lit "File too large",
              lit "Maximum size is " ++ toString maxSizeMB ++ lit "MB")])
  else (true, []).

Section Handle.

Context {A : Type}.

(** [handleUpload], for the answer of
    [supabase.functions.invoke("cloudinary", ...)] to the data URL: [inl]
    is its [error] or a rejection, [inr] its [data].  The result also
    lists the data URLs sent to the function. *)
Definition handleUpload (acceptedTypes : list str) (maxSizeMB : N)
           (file : File) (invoke : str -> thrown + A) (st : State A)
  : list str * State A :=
  let '(valid, shown) := validateFile acceptedTypes maxSizeMB file in
  if negb valid then
    ([], {| preview := preview st; isUploading := isUploading st;
            uploadedResult := uploadedResult st;
            toasts := toasts st ++ shown; completed := completed st |})
  else
    match read file with
    | inl e =>
        ([], {| preview := preview st; isUploading := false;
                uploadedResult := uploadedResult st;
                toasts := toasts st
                          ++ [(lit "Upload failed",
                               messageOr (lit "Unknown error") e)];
                completed := completed st |})
    | inr base64 =>
        match invoke base64 with
        | inl e =>
            ([base64],
             {| preview := Some base64; isUploading := false;
                uploadedResult := None;
                toasts := toasts st
                          ++ [(lit "Upload failed",
                               messageOr (lit "Unknown error") e)];
                completed := completed st |})
        | inr data =>
            ([base64],
             {| preview := Some base64; isUploading := false;
                uploadedResult := Some data;
                toasts := toasts st
                          ++ [(lit "Upload successful",
                               lit "Your image has been uploaded to Cloudinary")];
                completed := completed st ++ [data] |})
        end
    end.

End Handle.

End Upload.

(* ===================================================================== *)
(** ** Reading a signature back, and bodies line by line                  *)
(* ===================================================================== *)

Module Texts.

(** The bytes that pairs of lowercase hexadecimal digits spell. *)
Fixpoint unhex (s : str) : option (list N) :=
  match s with
  | [] => Some []
  | h :: l :: s' =>
      match Edge.unhexByte [h; l], unhex s' with
      | Some b, Some bs => Some (b :: bs)
      | _, _ => None
      end
  | [_] => None
  end.

(** The text of lines that each end with [eol]. *)
Definition linesWith (eol : str) (ls : list str) : str :=
  concat (map (fun l => l ++ eol) ls).

Definition COMMA : ascii := ","%char.

End Texts.

(* ===================================================================== *)
(** ** hooks/useVoiceResponse.ts: the switch                              *)
(* ===================================================================== *)

Module Voice.

(** The state of the hook: [audioRef.current] is the audio element, named
    by its URL; [paused] lists the elements [pause()] was called on. *)
Record State := {
  isVoiceEnabled : bool;
  isSpeaking : bool;
  audioRef : option str;
  paused : list str
}.

(** [stopSpeaking] *)
Definition stopSpeaking (st : State) : State :=
  {| isVoiceEnabled := isVoiceEnabled st;
     isSpeaking := false;
     audioRef := None;
     paused := paused st ++ match audioRef st with
                            | Some audio => [audio]
                            | None => []
                            end |}.

(** [toggleVoice], its closure holding the [isVoiceEnabled] of the state:
    [setIsVoiceEnabled(prev => !prev); if (isVoiceEnabled) stopSpeaking();] *)
Definition toggleVoice (st : State) : State :=
  let st' := {| isVoiceEnabled := negb (isVoiceEnabled st);
                isSpeaking := isSpeaking st;
                audioRef := audioRef st;
                paused := paused st |} in
  if isVoiceEnabled st then stopSpeaking st' else st'.

End Voice.

(* ===================================================================== *)
(** ** The client and the chat function                                   *)
(* ===================================================================== *)

Module Wire.


End Wire.

(* ===================================================================== *)
(** * Properties                                                          *)
(* ===================================================================== *)

(** ** Strings *)

Section JsFacts.

Lemma startsWith_app (p s t : str) :
  startsWith p s = true -> startsWith p (s ++ t) = true.
Proof.
  revert s; induction p as [|a p IH]; intros [|b s]; simpl; try done.
  intros H; apply andb_true_iff in H as [-> H]; simpl; auto.
Qed.

Lemma startsWith_spec (p s : str) :
  startsWith p s = true <-> exists t, s = p ++ t.
Proof.
  revert s; induction p as [|a p IH]; intros s; simpl.
  - split; [eauto | done].
  - destruct s as [|b s].
    + split; [done | intros [t Ht]; discriminate].
    + rewrite andb_true_iff, IH, Ascii.eqb_eq. split.
      * intros [-> [t ->]]; eauto.
      * intros [t Ht]; injection Ht as -> ->; eauto.
Qed.

Lemma indexOfLF_None (s : str) : indexOfLF s = None <-> LF ∉ s.
Proof.
  induction s as [|c s IH]; simpl.
  - split; [intros _; apply not_elem_of_nil | done].
  - destruct (Ascii.eqb c LF) eqn:E.
    + apply Ascii.eqb_eq in E as ->. split; [done|].
      intros H; exfalso; apply H; left.
    + apply Ascii.eqb_neq in E. rewrite not_elem_of_cons.
      destruct (indexOfLF s); split; try done.
      * intros [_ H]; apply IH in H; done.
      * intros _; split; [congruence | by apply IH].
Qed.

Lemma indexOfLF_Some (s : str) (i : nat) :
  indexOfLF s = Some i ->
  s = firstn i s ++ LF :: skipn (i + 1) s /\ indexOfLF (firstn i s) = None.
Proof.
  revert i; induction s as [|c s IH]; intros i; simpl; [done|].
  destruct (Ascii.eqb c LF) eqn:E.
  - intros [= <-]; simpl. apply Ascii.eqb_eq in E as ->. done.
  - destruct (indexOfLF s) as [j|]; [|done].
    intros [= <-]; simpl. rewrite E.
    destruct (IH j eq_refl) as [H1 H2]. rewrite H2. split; [|done].
    f_equal. exact H1.
Qed.

Lemma indexOfLF_line (l r : str) :
  indexOfLF l = None -> indexOfLF (l ++ LF :: r) = Some (List.length l).
Proof.
  induction l as [|c l IH]; simpl.
  - intros _. reflexivity.
  - destruct (Ascii.eqb c LF); [done|].
    destruct (indexOfLF l); [done|]. intros _. by rewrite IH.
Qed.

Lemma indexOfLF_app_None (s t : str) :
  indexOfLF s = None -> indexOfLF t = None -> indexOfLF (s ++ t) = None.
Proof.
  rewrite !indexOfLF_None. intros H1 H2 H; apply elem_of_app in H as [|]; done.
Qed.

Lemma dropLast_snoc (s : str) (c : ascii) : dropLast (s ++ [c]) = s.
Proof.
  unfold dropLast. rewrite length_app; simpl.
  replace (List.length s + 1 - 1) with (List.length s) by lia.
  apply take_app_length.
Qed.

Lemma endsWith_CR (s : str) :
  endsWith [CR] s = true <-> exists s0, s = s0 ++ [CR].
Proof.
  unfold endsWith. destruct s as [|c s] using rev_ind.
  - split; [done | intros [[|? ?] H]; discriminate].
  - clear IHs. rewrite rev_app_distr. cbn [rev app startsWith].
    rewrite andb_true_r, Ascii.eqb_eq.
    split.
    + intros <-. eauto.
    + intros [s0 H]. apply app_inj_tail in H as [_ H]. done.
Qed.

Lemma stripCR_snoc (s : str) : stripCR (s ++ [CR]) = s.
Proof.
  unfold stripCR.
  rewrite (proj2 (endsWith_CR (s ++ [CR]))) by eauto.
  apply dropLast_snoc.
Qed.

Lemma stripCR_cases (s : str) :
  stripCR s = s \/ s = stripCR s ++ [CR].
Proof.
  unfold stripCR. destruct (endsWith [CR] s) eqn:E; [|by left].
  apply endsWith_CR in E as [s0 ->]. right. by rewrite dropLast_snoc.
Qed.

Lemma trimStart_white (s t : str) :
  forallb isWhite s = true -> trimStart (s ++ t) = trimStart t.
Proof.
  induction s as [|c s IH]; simpl; [done|].
  intros H; apply andb_true_iff in H as [-> H]. auto.
Qed.

Lemma trimStart_nonwhite (s t : str) :
  forallb isWhite s = false -> trimStart (s ++ t) = trimStart s ++ t.
Proof.
  induction s as [|c s IH]; simpl; [done|].
  destruct (isWhite c); simpl; auto.
Qed.

Lemma trimStart_nil (s : str) :
  trimStart s = [] <-> forallb isWhite s = true.
Proof.
  induction s as [|c s IH]; simpl; [done|].
  destruct (isWhite c); simpl; [done|]. split; done.
Qed.

Lemma trimEnd_snoc (s : str) (w : ascii) :
  isWhite w = true -> trimEnd (s ++ [w]) = trimEnd s.
Proof.
  intros Hw. unfold trimEnd. rewrite rev_app_distr; simpl. by rewrite Hw.
Qed.

Lemma trim_snoc (s : str) (w : ascii) :
  isWhite w = true -> trim (s ++ [w]) = trim s.
Proof.
  intros Hw. unfold trim. destruct (forallb isWhite s) eqn:E.
  - rewrite trimStart_white by done. simpl. rewrite Hw.
    apply trimStart_nil in E. by rewrite E.
  - rewrite trimStart_nonwhite by done. by apply trimEnd_snoc.
Qed.

Lemma forallb_rev (f : ascii -> bool) (s : str) :
  forallb f (rev s) = forallb f s.
Proof.
  induction s as [|c s IH]; simpl; [done|].
  rewrite forallb_app, IH; simpl. rewrite andb_true_r. apply andb_comm.
Qed.

Lemma trim_nil (s : str) : trim s = [] <-> forallb isWhite s = true.
Proof.
  unfold trim, trimEnd. split.
  - intros H. apply (f_equal (@rev ascii)) in H.
    rewrite rev_involutive in H; simpl in H.
    apply trimStart_nil in H.
    destruct (forallb isWhite s) eqn:E; [done|]. exfalso.
    assert (forallb isWhite (trimStart s) = false) as E'.
    { clear H. induction s as [|c s IH]; simpl in *; [done|].
      destruct (isWhite c) eqn:Ec; simpl in *; [auto|]. by rewrite Ec. }
    rewrite forallb_rev in H. congruence.
  - intros H. apply trimStart_nil in H. by rewrite H.
Qed.

End JsFacts.

(** ** The event-stream parser *)

(** *** The inner loop ends *)

Section LoopFacts.

Import Stream.

Variable JSON_parse : str -> option Chunk.
Variable raises : callbacks.

(** An iteration takes a line off the buffer, so with fuel above the
    length of the buffer the loop is left, and with the same result
    whatever the fuel. *)
Lemma innerLoop_enough (n : nat) :
  forall (s : str) (f1 f2 : nat) (out : list event),
    List.length s < n -> List.length s < f1 -> List.length s < f2 ->
    exists result,
      innerLoop JSON_parse raises f1 s out = Some result /\
      innerLoop JSON_parse raises f2 s out = Some result.
Proof.
  induction n as [|n IH]; intros s f1 f2 out Hn H1 H2; [lia|].
  destruct f1 as [|f1]; [lia|]. destruct f2 as [|f2]; [lia|].
  cbn [innerLoop]. destruct (indexOfLF s) as [i|] eqn:E; [|eauto].
  apply indexOfLF_Some in E as [Hs _].
  assert (List.length (skipn (i + 1) s) < List.length s) as Hlen.
  { rewrite Hs at 2. rewrite length_app. simpl. lia. }
  cbv zeta. repeat case_match; eauto; apply IH; lia.
Qed.

Lemma drainBuffer_Some (fuel : nat) (s : str) (out : list event) :
  List.length s < fuel ->
  innerLoop JSON_parse raises fuel s out
  = Some (drainBuffer JSON_parse raises s out).
Proof.
  intros Hf. unfold drainBuffer.
  destruct (innerLoop_enough (S (List.length s)) s fuel (S (List.length s))
              out) as (result & -> & ->); [lia | done | lia | done].
Qed.

End LoopFacts.

Section ParserFacts.

Import Stream.

Variable JSON_parse : str -> option Chunk.

Local Abbreviation isMalformed := (isMalformed JSON_parse).
Local Abbreviation lineDelta := (lineDelta JSON_parse).
Local Abbreviation contents := (contents JSON_parse).
Local Abbreviation innerLoop := (innerLoop JSON_parse quiet).
Local Abbreviation drainBuffer := (drainBuffer JSON_parse quiet).
Local Abbreviation readLoop := (readLoop JSON_parse quiet).
Local Abbreviation flushLines := (flushLines JSON_parse quiet).
Local Abbreviation finalFlush := (finalFlush JSON_parse quiet).
Local Abbreviation readBody := (readBody JSON_parse quiet).
Local Abbreviation settled := (settled JSON_parse).
Local Abbreviation deltasOf := (deltasOf JSON_parse).

Lemma data_snoc (t l0 : str) :
  lit "data: " ++ t = l0 ++ [CR] ->
  exists t0, t = t0 ++ [CR] /\ l0 = lit "data: " ++ t0.
Proof.
  destruct t as [|x t _] using rev_ind.
  - rewrite app_nil_r. intros H. apply (f_equal (@rev ascii)) in H.
    rewrite rev_app_distr in H. discriminate.
  - rewrite app_assoc. intros H. apply app_inj_tail in H as [<- ->]. eauto.
Qed.

Lemma isData_stripCR (l : str) : isData (stripCR l) = isData l.
Proof.
  destruct (stripCR_cases l) as [-> | H]; [done|].
  revert H. generalize (stripCR l). intros l0 ->.
  destruct (isData l0) eqn:E1.
  - symmetry. apply startsWith_app, E1.
  - destruct (isData (l0 ++ [CR])) eqn:E2; [|done].
    apply startsWith_spec in E2 as [t Ht]. symmetry in Ht.
    apply data_snoc in Ht as (t0 & _ & H).
    assert (isData l0 = true) by (apply startsWith_spec; exists t0; exact H).
    congruence.
Qed.

Lemma payload_data (t : str) : payload (lit "data: " ++ t) = trim t.
Proof. reflexivity. Qed.

Lemma payload_stripCR (l : str) :
  isData l = true -> payload (stripCR l) = payload l.
Proof.
  destruct (stripCR_cases l) as [-> | H]; [done|].
  revert H. generalize (stripCR l). intros l0 -> Hd.
  apply startsWith_spec in Hd as [t Ht]. symmetry in Ht.
  apply data_snoc in Ht as (t0 & -> & ->).
  rewrite <- app_assoc, !payload_data. symmetry. by apply trim_snoc.
Qed.

Lemma isSentinel_stripCR (l : str) : isSentinel (stripCR l) = isSentinel l.
Proof.
  unfold isSentinel. rewrite isData_stripCR.
  destruct (isData l) eqn:E; [|done]. by rewrite payload_stripCR.
Qed.

(** A ['data: '] line is neither a comment nor blank. *)
Lemma isData_kept (l : str) :
  isData l = true ->
  startsWith (lit ":") l || str_eqb (trim l) [] = false.
Proof.
  intros Hd. apply startsWith_spec in Hd as [t ->].
  apply orb_false_iff; split; [reflexivity|].
  unfold str_eqb. apply bool_decide_eq_false. intros H.
  apply trim_nil in H. discriminate.
Qed.

(** *** The inner loop, one line at a time *)

Lemma parseAndEmit_quiet (jsonStr : str) (out : list event) :
  parseAndEmit JSON_parse quiet jsonStr out =
    match JSON_parse jsonStr with
    | Some parsed => (emit (deltaContent parsed) out, false)
    | None => (out, true)
    end.
Proof.
  unfold parseAndEmit. destruct (JSON_parse jsonStr) as [parsed|]; [|done].
  f_equal. destruct (deltaContent parsed) as [c|]; [|done].
  by destruct (truthyV c).
Qed.

Lemma innerLoop_nocut (fuel : nat) (s : str) (out : list event) :
  indexOfLF s = None -> innerLoop (S fuel) s out = Some (s, false, out).
Proof. intros H. simpl. by rewrite H. Qed.

Lemma innerLoop_line (fuel : nat) (l r : str) (out : list event) :
  indexOfLF l = None ->
  innerLoop (S fuel) (l ++ LF :: r) out =
    if isSentinel l then Some (r, true, out)
    else if isMalformed l then Some (stripCR l ++ LF :: r, false, out)
    else innerLoop fuel r (out ++ map OnDelta (lineDelta l)).
Proof.
  intros Hl. cbn [Stream.innerLoop]. rewrite indexOfLF_line by done.
  rewrite take_app_length.
  replace (skipn (List.length l + 1) (l ++ LF :: r)) with r.
  2:{ change (LF :: r) with ([LF] ++ r). rewrite app_assoc.
      rewrite drop_app_length'; [done | rewrite length_app; simpl; lia]. }
  cbv zeta. fold (isData (stripCR l)). fold (payload (stripCR l)).
  unfold Stream.isMalformed, Stream.lineDelta, isSentinel.
  rewrite isData_stripCR.
  destruct (isData l) eqn:Hd; cbn [andb negb].
  - rewrite <- (isData_stripCR l) in Hd. rewrite (isData_kept _ Hd).
    rewrite isData_stripCR in Hd. rewrite payload_stripCR by done.
    destruct (str_eqb (payload l) (lit "[DONE]")); [done|]. cbn [negb andb].
    rewrite parseAndEmit_quiet.
    destruct (JSON_parse (payload l)) as [parsed|]; [|done].
    unfold emit. destruct (deltaContent parsed) as [c|].
    + destruct (truthyV c); [done|]. by rewrite app_nil_r.
    + by rewrite app_nil_r.
  - rewrite app_nil_r. by destruct (_ || _).
Qed.

Lemma drainBuffer_nocut (s : str) (out : list event) :
  indexOfLF s = None -> drainBuffer s out = (s, false, out).
Proof. intros H. unfold Stream.drainBuffer. by rewrite innerLoop_nocut. Qed.

Lemma drainBuffer_line (l r : str) (out : list event) :
  indexOfLF l = None ->
  drainBuffer (l ++ LF :: r) out =
    if isSentinel l then (r, true, out)
    else if isMalformed l then (stripCR l ++ LF :: r, false, out)
    else drainBuffer r (out ++ map OnDelta (lineDelta l)).
Proof.
  intros Hl.
  pose proof (drainBuffer_Some JSON_parse quiet
                (S (List.length (l ++ LF :: r))) (l ++ LF :: r) out
                ltac:(lia)) as H.
  rewrite innerLoop_line in H by done.
  destruct (isSentinel l); [congruence|].
  destruct (isMalformed l); [congruence|].
  rewrite drainBuffer_Some in H; [congruence|].
  rewrite length_app. simpl. lia.
Qed.

(** A buffer is either without a line feed or a first line and a rest. *)
Lemma str_lines (s : str) :
  indexOfLF s = None \/
  exists l r, s = l ++ LF :: r /\ indexOfLF l = None.
Proof.
  destruct (indexOfLF s) as [i|] eqn:E; [right | by left].
  apply indexOfLF_Some in E as [Hs Hl]. eauto.
Qed.

(** Induction over the lines of a text. *)
Lemma lines_ind (P : str -> Prop) :
  (forall s, indexOfLF s = None -> P s) ->
  (forall l r, indexOfLF l = None -> P r -> P (l ++ LF :: r)) ->
  forall s, P s.
Proof.
  intros Hnil Hcons s.
  remember (List.length s) as n eqn:Hn. revert s Hn.
  induction n as [n IH] using lt_wf_ind. intros s ->.
  destruct (str_lines s) as [H | (l & r & -> & Hl)]; [auto|].
  apply Hcons; [done|]. apply (IH (List.length r)); [|done].
  rewrite length_app; simpl; lia.
Qed.

Lemma splitLF_nocut (s : str) : indexOfLF s = None -> splitLF s = [s].
Proof.
  induction s as [|c s IH]; simpl; [done|].
  destruct (Ascii.eqb c LF); [done|].
  destruct (indexOfLF s); [done|]. intros _. by rewrite IH.
Qed.

Lemma splitLF_line (l r : str) :
  indexOfLF l = None -> splitLF (l ++ LF :: r) = l :: splitLF r.
Proof.
  induction l as [|c l IH]; simpl; [done|].
  destruct (Ascii.eqb c LF); [done|].
  destruct (indexOfLF l); [done|]. intros _. by rewrite IH.
Qed.

Lemma splitLF_cons_inv (s l : str) (rest : list str) :
  splitLF s = l :: rest -> rest <> [] ->
  exists r, s = l ++ LF :: r /\ indexOfLF l = None /\ splitLF r = rest.
Proof.
  destruct (str_lines s) as [H | (l' & r & -> & Hl)].
  - rewrite splitLF_nocut by done. intros [= <- <-]. done.
  - rewrite splitLF_line by done. intros [= <- <-] _. eauto.
Qed.

Lemma splitLF_single_inv (s t : str) :
  splitLF s = [t] -> s = t /\ indexOfLF t = None.
Proof.
  destruct (str_lines s) as [H | (l' & r & -> & Hl)].
  - rewrite splitLF_nocut by done. by intros [= <-].
  - rewrite splitLF_line by done. intros [= <- H].
    destruct r; simpl in H; [done|]. by repeat case_match.
Qed.

Lemma stripCR_nocut (l : str) :
  indexOfLF l = None -> indexOfLF (stripCR l) = None.
Proof.
  destruct (stripCR_cases l) as [-> | H]; [done|].
  rewrite !indexOfLF_None. intros Hl Hin. apply Hl.
  rewrite H. apply elem_of_app. by left.
Qed.

Lemma lineDelta_stripCR (l : str) : lineDelta (stripCR l) = lineDelta l.
Proof.
  unfold Stream.lineDelta. rewrite isData_stripCR, isSentinel_stripCR.
  destruct (isData l) eqn:E; [|done]. by rewrite payload_stripCR.
Qed.

Lemma isMalformed_stripCR (l : str) : isMalformed (stripCR l) = isMalformed l.
Proof.
  unfold Stream.isMalformed. rewrite isData_stripCR, isSentinel_stripCR.
  destruct (isData l) eqn:E; [|done]. by rewrite payload_stripCR.
Qed.

Lemma lineDelta_sentinel (l : str) : isSentinel l = true -> lineDelta l = [].
Proof. unfold Stream.lineDelta. intros ->. by rewrite andb_false_r. Qed.

Lemma lineDelta_malformed (l : str) : isMalformed l = true -> lineDelta l = [].
Proof.
  unfold Stream.isMalformed, Stream.lineDelta.
  destruct (isData l && negb (isSentinel l)); [|done]. simpl.
  by destruct (JSON_parse (payload l)).
Qed.

Lemma lineDelta_noData (l : str) : isData l = false -> lineDelta l = [].
Proof. unfold Stream.lineDelta. by intros ->. Qed.

Lemma contents_cons (l : str) (ls : list str) :
  contents (l :: ls) = lineDelta l ++ contents ls.
Proof. reflexivity. Qed.

Lemma contents_app (ls ls' : list str) :
  contents (ls ++ ls') = contents ls ++ contents ls'.
Proof. unfold Stream.contents. by rewrite map_app, concat_app. Qed.

Lemma contents_noData (ls : list str) : noData ls -> contents ls = [].
Proof.
  induction 1 as [|l ls Hl _ IH]; [done|].
  by rewrite contents_cons, IH, lineDelta_noData.
Qed.

(** *** The final flush *)

Lemma flushLines_contents (raws : list str) (out : list event) :
  flushLines raws out = out ++ map OnDelta (contents raws).
Proof.
  revert out; induction raws as [|raw raws IH]; intros out.
  - simpl. by rewrite app_nil_r.
  - cbn [Stream.flushLines]. rewrite contents_cons, map_app, app_assoc.
    fold (isData raw). fold (payload raw).
    destruct (isData raw) eqn:Hd.
    + replace (negb (truthy raw) || startsWith (lit ":") raw) with false.
      2:{ apply startsWith_spec in Hd as [t ->]. reflexivity. }
      cbn [negb]. unfold Stream.lineDelta, isSentinel. rewrite Hd. cbn [andb].
      destruct (str_eqb (payload raw) (lit "[DONE]")); cbn [negb].
      { by rewrite IH, app_nil_r. }
      rewrite parseAndEmit_quiet.
      destruct (JSON_parse (payload raw)) as [parsed|]; cbn [fst].
      2:{ by rewrite IH, app_nil_r. }
      rewrite IH. f_equal. unfold emit.
      destruct (deltaContent parsed) as [c|]; [|by rewrite app_nil_r].
      destruct (truthyV c); [done | by rewrite app_nil_r].
    + rewrite lineDelta_noData, app_nil_r by done.
      destruct (_ || _); apply IH.
Qed.

Lemma white_noData (s : str) :
  forallb isWhite s = true -> noData (splitLF s).
Proof.
  induction s as [s Hs | l r Hl IH] using lines_ind; intros Hw.
  - rewrite splitLF_nocut by done. apply Forall_cons; split; [|done].
    destruct (isData s) eqn:E; [|done].
    apply startsWith_spec in E as [t ->]. discriminate.
  - rewrite splitLF_line by done. rewrite forallb_app in Hw.
    apply andb_true_iff in Hw as [Hw1 Hw2]. simpl in Hw2.
    apply Forall_cons; split; [|by apply IH].
    destruct (isData l) eqn:E; [|done].
    apply startsWith_spec in E as [t ->]. discriminate.
Qed.

Lemma finalFlush_contents (textBuffer : str) (out : list event) :
  finalFlush textBuffer out = out ++ map OnDelta (contents (splitLF textBuffer)).
Proof.
  unfold Stream.finalFlush. destruct (trim textBuffer) eqn:E; simpl.
  - apply trim_nil in E. rewrite contents_noData by (by apply white_noData).
    by rewrite app_nil_r.
  - apply flushLines_contents.
Qed.

(** *** Draining a whole text *)

(** Whatever stops the inner loop, the callbacks made and those the flush
    would still make from the buffer are the deltas of all lines. *)
Lemma drainBuffer_total (s : str) :
  forall (out : list event) b d o,
    drainBuffer s out = (b, d, o) ->
    o ++ map OnDelta (contents (splitLF b))
    = out ++ map OnDelta (contents (splitLF s)).
Proof.
  induction s as [s Hs | l r Hl IH] using lines_ind; intros out b d o.
  - rewrite drainBuffer_nocut by done. by intros [= <- <- <-].
  - rewrite drainBuffer_line, splitLF_line, contents_cons by done.
    destruct (isSentinel l) eqn:Es.
    { intros [= <- <- <-]. by rewrite lineDelta_sentinel. }
    destruct (isMalformed l) eqn:Em.
    { intros [= <- <- <-].
      rewrite splitLF_line, contents_cons by (by apply stripCR_nocut).
      by rewrite lineDelta_stripCR. }
    intros H. apply IH in H. rewrite H, map_app, app_assoc. done.
Qed.

(** When the inner loop stops at the sentinel, it is the first one. *)
Lemma drainBuffer_done (s : str) :
  forall (out : list event) b o,
    drainBuffer s out = (b, true, o) ->
    exists pre s0,
      splitLF s = pre ++ s0 :: splitLF b /\ isSentinel s0 = true /\
      Forall (fun l => isSentinel l = false) pre /\
      Forall (fun l => isMalformed l = false) pre.
Proof.
  induction s as [s Hs | l r Hl IH] using lines_ind; intros out b o.
  - by rewrite drainBuffer_nocut.
  - rewrite drainBuffer_line, splitLF_line by done.
    destruct (isSentinel l) eqn:Es.
    { intros [= <- <-]. exists [], l. done. }
    destruct (isMalformed l) eqn:Em; [done|].
    intros H. apply IH in H as (pre & s0 & -> & H1 & H2 & H3).
    exists (l :: pre), s0. split_and!; [done | done | |];
      apply Forall_cons; done.
Qed.

(** *** Reading in chunks *)

Lemma drainBuffer_settled (s : str) :
  forall (out : list event) b o,
    drainBuffer s out = (b, false, o) -> settled b.
Proof.
  induction s as [s Hs | l r Hl IH] using lines_ind; intros out b o.
  - rewrite drainBuffer_nocut by done. intros [= <- <-]. by left.
  - rewrite drainBuffer_line by done.
    destruct (isSentinel l) eqn:Es; [done|].
    destruct (isMalformed l) eqn:Em; [|apply IH].
    intros [= <- <-]. right. exists (stripCR l), r.
    rewrite isSentinel_stripCR, isMalformed_stripCR.
    split_and!; try done. by apply stripCR_nocut.
Qed.

Lemma drainBuffer_app (s c : str) :
  forall (out : list event) b d o,
    drainBuffer s out = (b, d, o) ->
    drainBuffer (s ++ c) out =
      if d then (b ++ c, true, o)
      else match indexOfLF b with
           | None => drainBuffer (b ++ c) o
           | Some _ => (b ++ c, false, o)
           end.
Proof.
  induction s as [s Hs | l r Hl IH] using lines_ind; intros out b d o.
  - rewrite drainBuffer_nocut by done. intros [= <- <- <-]. by rewrite Hs.
  - rewrite <- app_assoc, <- app_comm_cons, !drainBuffer_line by done.
    destruct (isSentinel l) eqn:Es. { by intros [= <- <- <-]. }
    destruct (isMalformed l) eqn:Em; [|apply IH].
    intros [= <- <- <-].
    rewrite indexOfLF_line by (by apply stripCR_nocut).
    by rewrite <- app_assoc.
Qed.

Lemma drainBuffer_blocked (l r : str) (out : list event) :
  indexOfLF l = None -> isSentinel l = false -> isMalformed l = true ->
  drainBuffer (l ++ LF :: r) out = (stripCR l ++ LF :: r, false, out).
Proof. intros Hl Hs Hm. by rewrite drainBuffer_line, Hs, Hm. Qed.

Lemma readLoop_chunks (cs : list str) :
  forall (buf : str) (out : list event) b d o,
    settled buf ->
    drainBuffer (buf ++ concat cs) out = (b, d, o) ->
    exists tb,
      readLoop cs None buf out = (inr tb, o) /\
      if d then exists x, b = tb ++ x
      else contents (splitLF tb) = contents (splitLF b).
Proof.
  induction cs as [|c cs IH]; intros buf out b d o Hbuf.
  - simpl. rewrite app_nil_r.
    destruct Hbuf as [Hn | (l & r & -> & Hl & Hs & Hm)].
    + rewrite drainBuffer_nocut by done. intros [= <- <- <-]. eauto.
    + rewrite drainBuffer_blocked by done. intros [= <- <- <-].
      eexists; split; [done|].
      rewrite !splitLF_line, !contents_cons by (by try apply stripCR_nocut).
      by rewrite lineDelta_stripCR.
  - cbn [concat Stream.readLoop]. rewrite app_assoc.
    destruct (drainBuffer (buf ++ c) out) as [[b1 d1] o1] eqn:E1.
    rewrite (drainBuffer_app _ _ _ _ _ _ E1).
    destruct d1. { intros [= <- <- <-]. eauto. }
    pose proof (drainBuffer_settled _ _ _ _ E1) as Hb1.
    destruct (indexOfLF b1) eqn:Ei.
    + intros [= <- <- <-].
      destruct Hb1 as [Hn | (l & r & -> & Hl & Hs & Hm)]; [congruence|].
      assert (drainBuffer ((l ++ LF :: r) ++ concat cs) o1
              = (stripCR l ++ LF :: r ++ concat cs, false, o1)) as E2.
      { rewrite <- app_assoc, <- app_comm_cons. by apply drainBuffer_blocked. }
      destruct (IH (l ++ LF :: r) o1 _ _ _ ltac:(right; eauto 10) E2)
        as (tb & Hr & Hc).
      exists tb. split; [done|]. rewrite Hc.
      rewrite <- app_assoc, <- app_comm_cons.
      rewrite !splitLF_line, !contents_cons by (by try apply stripCR_nocut).
      by rewrite lineDelta_stripCR.
    + intros H. by apply IH.
Qed.

(** The callbacks of a body read in chunks, from the one pass of the
    inner loop over the whole text. *)
Lemma deltasOf_chunks (cs : list str) b d o :
  drainBuffer (concat cs) [] = (b, d, o) ->
  if d then
    exists tail x,
      b = tail ++ x /\
      deltasOf cs = o ++ map OnDelta (contents (splitLF tail)) ++ [OnDone]
  else
    deltasOf cs = map OnDelta (contents (splitLF (concat cs))) ++ [OnDone].
Proof.
  intros E.
  destruct (readLoop_chunks cs [] [] b d o (or_introl eq_refl) E)
    as (tb & Hr & Hd).
  unfold Stream.deltasOf, Stream.readBody, call. cbn [chunks failure].
  rewrite Hr. cbn [fst]. rewrite finalFlush_contents. destruct d.
  - destruct Hd as [x ->]. exists tb, x. by rewrite <- app_assoc.
  - apply drainBuffer_total in E. simpl in E. by rewrite Hd, E.
Qed.

(** *** The first sentinel *)

Lemma first_sentinel_unique (pre pre' : list str) (a a' : str) (r r' : list str) :
  pre ++ a :: r = pre' ++ a' :: r' ->
  noSentinel pre -> isSentinel a = true ->
  noSentinel pre' -> isSentinel a' = true ->
  pre = pre' /\ a = a' /\ r = r'.
Proof.
  revert pre'. induction pre as [|x pre IH]; intros [|x' pre'] E Hp Ha Hp' Ha'.
  - by injection E as -> ->.
  - injection E as -> _. apply Forall_cons in Hp' as [Hx _]. congruence.
  - injection E as -> _. apply Forall_cons in Hp as [Hx _]. congruence.
  - injection E as -> E. apply Forall_cons in Hp as [_ Hp].
    apply Forall_cons in Hp' as [_ Hp'].
    destruct (IH pre' E Hp Ha Hp' Ha') as (-> & -> & ->). done.
Qed.

Lemma sentinel_among (pre : list str) (a : str) (r ls : list str) :
  pre ++ a :: r = ls -> isSentinel a = true -> noSentinel ls -> False.
Proof.
  intros <- Ha H. apply Forall_app in H as [_ H].
  apply Forall_cons in H as [H _]. congruence.
Qed.

Lemma noData_prefix (a x : str) :
  noData (splitLF (a ++ x)) -> noData (splitLF a).
Proof.
  induction a as [a Ha | l r Hl IH] using lines_ind.
  - rewrite (splitLF_nocut a) by done. intros H.
    apply Forall_cons; split; [|done].
    destruct (isData a) eqn:E; [|done]. exfalso.
    destruct (str_lines x) as [Hx | (xl & xr & -> & Hxl)].
    + rewrite splitLF_nocut in H by (by apply indexOfLF_app_None).
      apply Forall_cons in H as [H _].
      pose proof (startsWith_app _ _ x E) as E'. unfold isData in H. congruence.
    + rewrite app_assoc, splitLF_line in H by (by apply indexOfLF_app_None).
      apply Forall_cons in H as [H _].
      pose proof (startsWith_app _ _ xl E) as E'. unfold isData in H. congruence.
  - rewrite <- app_assoc, <- app_comm_cons, !splitLF_line by done.
    intros H. apply Forall_cons in H as [H1 H2].
    apply Forall_cons; split; [done | by apply IH].
Qed.

(** The callbacks for a body whose lines are [pre], then from the first
    sentinel on [post]: the deltas of [pre], then those of what the flush
    finds behind the sentinel. *)
Lemma deltasOf_lines (cs : list str) (pre post : list str) :
  splitLF (concat cs) = pre ++ post ->
  noSentinel pre -> fromSentinel post ->
  exists tail,
    deltasOf cs = map OnDelta (contents pre) ++ map OnDelta (contents tail)
                  ++ [OnDone] /\
    ((exists s0 post' t x,
        post = s0 :: post' /\ tail = splitLF t /\ splitLF (t ++ x) = post'
        /\ Forall (fun l => isMalformed l = false) pre)
     \/ tail = post).
Proof.
  intros E Hpre Hpost.
  destruct (drainBuffer (concat cs) []) as [[b d] o] eqn:Ed.
  pose proof (deltasOf_chunks cs b d o Ed) as H. destruct d.
  - destruct H as (t & x & -> & H).
    pose proof (drainBuffer_done _ _ _ _ Ed) as (pre' & s0' & E' & Hs' & Hp' & Hm').
    rewrite E in E'.
    destruct Hpost as [-> | (s0 & post' & -> & Hs)].
    { rewrite app_nil_r in E'. exfalso.
      by eapply sentinel_among. }
    destruct (first_sentinel_unique _ _ _ _ _ _ E' Hpre Hs Hp' Hs')
      as (<- & <- & ->).
    apply drainBuffer_total in Ed. rewrite E in Ed. simpl in Ed.
    rewrite contents_app, contents_cons, lineDelta_sentinel in Ed by done.
    simpl in Ed. rewrite map_app in Ed. apply app_inv_tail in Ed as ->.
    exists (splitLF t). split; [done|]. left. exists s0, (splitLF (t ++ x)), t, x.
    split_and!; done.
  - exists post. split; [|by right]. rewrite H, E, contents_app, map_app.
    by rewrite <- app_assoc.
Qed.

Lemma split_at_sentinel (ls : list str) :
  exists pre post, ls = pre ++ post /\ noSentinel pre /\ fromSentinel post.
Proof.
  induction ls as [|l ls (pre & post & -> & Hp & Hq)].
  - exists [], []. split_and!; [done | constructor | by left].
  - destruct (isSentinel l) eqn:E.
    + exists [], (l :: pre ++ post). split_and!; [done | constructor |].
      right. eauto.
    + exists (l :: pre), post. split_and!; [done | by constructor | done].
Qed.

Lemma deltaTexts_deltas (ds : list value) (tr : list event) :
  deltaTexts (map OnDelta ds ++ tr) = ds ++ deltaTexts tr.
Proof.
  unfold deltaTexts. rewrite map_app, concat_app. f_equal.
  induction ds as [|d ds IH]; simpl; [done | by rewrite IH].
Qed.

Lemma errorsOf_deltas (ds : list value) (tr : list event) :
  errorsOf (map OnDelta ds ++ tr) = errorsOf tr.
Proof.
  unfold errorsOf. rewrite map_app, concat_app.
  replace (concat (map _ (map OnDelta ds))) with (@nil value); [done|].
  induction ds as [|d ds IH]; simpl; done.
Qed.

(** When no ['data: '] line follows the first sentinel, the callbacks are
    the deltas of the lines before it, however the body is cut. *)
Lemma deltasOf_closing (cs : list str) (pre post : list str) :
  splitLF (concat cs) = pre ++ post ->
  noSentinel pre -> closingSentinel post ->
  deltasOf cs = map OnDelta (contents pre) ++ [OnDone].
Proof.
  intros E Hpre Hpost.
  assert (fromSentinel post) as Hfrom.
  { destruct Hpost as [-> | (s0 & post' & -> & Hs & _)]; [by left | right; eauto]. }
  destruct (deltasOf_lines cs pre post E Hpre Hfrom) as (tail & -> & Ht).
  replace (contents tail) with (@nil value); [done|]. symmetry.
  destruct Hpost as [-> | (s0 & post' & -> & Hs & Hq)].
  - destruct Ht as [(? & ? & ? & ? & ? & _) | ->]; done.
  - destruct Ht as [(s1 & post1 & t & x & [= <- <-] & -> & Hx & _) | ->].
    + apply contents_noData. apply (noData_prefix t x). by rewrite Hx.
    + by rewrite contents_cons, lineDelta_sentinel, contents_noData.
Qed.

Lemma contents_closing (post : list str) :
  closingSentinel post -> contents post = [].
Proof.
  intros [-> | (s0 & post' & -> & Hs & Hq)]; [done|].
  by rewrite contents_cons, lineDelta_sentinel, contents_noData.
Qed.

(** With no ['data: '] line behind the first sentinel, the callbacks are
    the deltas of all lines. *)
Lemma deltasOf_quietAfterDone (cs : list str) :
  quietAfterDone (concat cs) ->
  deltasOf cs = map OnDelta (contents (splitLF (concat cs))) ++ [OnDone].
Proof.
  intros Hq.
  destruct (split_at_sentinel (splitLF (concat cs)))
    as (pre & post & Hs & Hpre & Hpost).
  assert (closingSentinel post) as Hc.
  { destruct Hpost as [-> | (s0 & post' & -> & H0)]; [by left|].
    right. exists s0, post'. split_and!; try done. by eapply Hq. }
  rewrite (deltasOf_closing cs pre post Hs Hpre Hc).
  by rewrite Hs, contents_app, (contents_closing post Hc), app_nil_r.
Qed.

(** Lines whose contents are strings: their deltas are their texts. *)
Lemma contents_texts (ls : list str) :
  textContents JSON_parse ls ->
  contents ls = map VString (texts JSON_parse ls).
Proof.
  induction 1 as [|l ls Hl _ IH]; [done|].
  rewrite contents_cons, IH. unfold texts. cbn [map concat].
  rewrite map_app. f_equal.
  unfold Stream.lineDelta, lineText, lineContent in *.
  destruct (isData l && negb (isSentinel l)); [|done].
  destruct (JSON_parse (payload l)) as [parsed|]; [|done].
  destruct (deltaContent parsed) as [[s| | | |]|]; try done.
  simpl. by destruct (truthy s).
Qed.

Lemma toText_strings (ss : list str) :
  concat (map toText (map VString ss)) = concat ss.
Proof. induction ss as [|s ss IH]; simpl; [done | by rewrite IH]. Qed.

End ParserFacts.

(** *** Callbacks that return *)

Section ReturningFacts.

Import Stream.

Variable JSON_parse : str -> option Chunk.
Variable raises : callbacks.

Hypothesis onDelta_returns : deltaReturns raises.

Lemma parseAndEmit_returns (jsonStr : str) (out : list event) :
  parseAndEmit JSON_parse raises jsonStr out
  = parseAndEmit JSON_parse quiet jsonStr out.
Proof.
  unfold parseAndEmit. destruct (JSON_parse jsonStr) as [parsed|]; [|done].
  destruct (deltaContent parsed) as [v|]; [|done].
  destruct (truthyV v); [|done]. by rewrite onDelta_returns.
Qed.

Lemma innerLoop_returns (fuel : nat) :
  forall (textBuffer : str) (out : list event),
    innerLoop JSON_parse raises fuel textBuffer out
    = innerLoop JSON_parse quiet fuel textBuffer out.
Proof.
  induction fuel as [|fuel IH]; intros textBuffer out; [done|].
  cbn [innerLoop]. destruct (indexOfLF textBuffer) as [i|]; [|done].
  cbv zeta. rewrite parseAndEmit_returns, !IH.
  destruct (parseAndEmit JSON_parse quiet _ out) as [out' threw].
  by rewrite IH.
Qed.

Lemma drainBuffer_returns (textBuffer : str) (out : list event) :
  drainBuffer JSON_parse raises textBuffer out
  = drainBuffer JSON_parse quiet textBuffer out.
Proof. unfold drainBuffer. by rewrite innerLoop_returns. Qed.

Lemma readLoop_returns (cs : list str) (fail : option thrown) :
  forall (textBuffer : str) (out : list event),
    readLoop JSON_parse raises cs fail textBuffer out
    = readLoop JSON_parse quiet cs fail textBuffer out.
Proof.
  induction cs as [|c cs IH]; intros textBuffer out; [done|].
  cbn [readLoop]. rewrite drainBuffer_returns.
  destruct (drainBuffer JSON_parse quiet _ out) as [[b d] o].
  destruct d; [done | apply IH].
Qed.

Lemma flushLines_returns (raws : list str) :
  forall out : list event,
    flushLines JSON_parse raises raws out
    = flushLines JSON_parse quiet raws out.
Proof.
  induction raws as [|raw raws IH]; intros out; [done|].
  cbn [flushLines]. by rewrite parseAndEmit_returns, !IH.
Qed.

Lemma finalFlush_returns (textBuffer : str) (out : list event) :
  finalFlush JSON_parse raises textBuffer out
  = finalFlush JSON_parse quiet textBuffer out.
Proof. unfold finalFlush. by rewrite flushLines_returns. Qed.

(** A run on an accepted answer whose body ends: the callbacks of the
    body, then [onError] when [onDone] throws. *)
Lemma handleResponse_streamed (cs : list str) (resp : Response) :
  streamedAs cs resp ->
  handleResponse JSON_parse raises (inr resp)
  = match raises OnDone with
    | None => (deltasOf JSON_parse cs, None)
    | Some e =>
        (deltasOf JSON_parse cs ++ [OnError (catchMessage e)],
         raises (OnError (catchMessage e)))
    end.
Proof.
  intros [Hok Hbody]. unfold handleResponse, tryBlock, readBody, deltasOf.
  rewrite Hok, Hbody. cbn [negb chunks failure readBody].
  unfold readBody. cbn [chunks failure]. rewrite readLoop_returns.
  destruct (readLoop JSON_parse quiet cs None [] []) as [[e | tb] out] eqn:E.
  - exfalso. clear Hbody. revert E. generalize (@nil ascii) (@nil event).
    induction cs as [|c cs IH]; intros buf o; [done|].
    cbn [readLoop].
    destruct (drainBuffer JSON_parse quiet (buf ++ c) o) as [[b d] o'].
    destruct d; [done | apply IH].
  - unfold call. rewrite finalFlush_returns. cbn [fst].
    by destruct (raises OnDone).
Qed.

Lemma deltasOf_streamed (cs : list str) (resp : Response) :
  streamedAs cs resp ->
  deltaTexts (fst (handleResponse JSON_parse raises (inr resp)))
  = deltaTexts (deltasOf JSON_parse cs).
Proof.
  intros H. rewrite (handleResponse_streamed cs resp H).
  destruct (raises OnDone); [|done]. cbn [fst].
  unfold deltaTexts. rewrite map_app, concat_app. simpl.
  by rewrite app_nil_r.
Qed.

End ReturningFacts.

(** *** The claims on the parser *)

Section ParserClaims.

Import Stream.

Variable JSON_parse : str -> option Chunk.

Local Abbreviation isMalformed := (isMalformed JSON_parse).
Local Abbreviation contents := (contents JSON_parse).
Local Abbreviation texts := (texts JSON_parse).
Local Abbreviation textContents := (textContents JSON_parse).
Local Abbreviation handleResponse := (handleResponse JSON_parse).

(** C1 (amended): for every body that ends, cut into chunks in any way, in
    which no ['data: '] line follows the ['[DONE]'] sentinel, every
    ['data: '] line before the sentinel carries well-formed JSON and every
    content is a string, and for an [onDelta] that returns,
    [streamChat] calls [onDelta] once for each such line whose content is
    a non-empty string, with that string and in the order of the lines;
    the concatenation of all [onDelta] arguments is that of those
    contents.  When [onDone] returns too, [onDone] follows and nothing
    else is called. *)
Theorem streamChat_delivers_contents (raises : callbacks) (resp : Response)
        (cs : list str) (pre post : list str) :
  deltaReturns raises ->
  streamedAs cs resp ->
  splitLF (concat cs) = pre ++ post ->
  noSentinel pre ->
  Forall (fun l => isMalformed l = false) pre ->
  textContents pre ->
  closingSentinel post ->
  deltaTexts (fst (handleResponse raises (inr resp)))
  = map VString (texts pre) /\
  concat (map toText (deltaTexts (fst (handleResponse raises (inr resp)))))
  = concat (texts pre) /\
  (raises OnDone = None ->
   handleResponse raises (inr resp)
   = (map OnDelta (map VString (texts pre)) ++ [OnDone], None)).
Proof.
  intros Hret Hresp E Hpre _ Htext Hpost.
  assert (deltasOf JSON_parse cs
          = map OnDelta (map VString (texts pre)) ++ [OnDone]) as Hd.
  { rewrite (deltasOf_closing JSON_parse cs pre post E Hpre Hpost).
    by rewrite (contents_texts JSON_parse pre Htext). }
  assert (deltaTexts (fst (handleResponse raises (inr resp)))
          = map VString (texts pre)) as Hcalls.
  { rewrite (deltasOf_streamed JSON_parse raises Hret cs resp Hresp), Hd.
    rewrite deltaTexts_deltas. simpl. by rewrite app_nil_r. }
  split_and!.
  - exact Hcalls.
  - rewrite Hcalls. apply toText_strings.
  - intros Hdone.
    rewrite (handleResponse_streamed JSON_parse raises Hret cs resp Hresp).
    by rewrite Hdone, Hd.
Qed.

(** C2 (amended): for every body that ends and in which no ['data: ']
    line follows the first ['[DONE]'] line, and for an [onDelta] that
    returns, every way of cutting the body into chunks yields the
    callbacks, the [onDelta] calls among them, of the body arriving as
    one chunk; a buffer without a line feed is kept as it is, with no
    callback, whatever the callbacks are. *)
Theorem chunking_irrelevant (raises : callbacks) (body : str) (cs : list str)
        (resp resp1 : Response) :
  deltaReturns raises ->
  quietAfterDone body ->
  concat cs = body ->
  streamedAs cs resp -> streamedAs [body] resp1 ->
  handleResponse raises (inr resp) = handleResponse raises (inr resp1) /\
  deltaTexts (fst (handleResponse raises (inr resp)))
  = deltaTexts (fst (handleResponse raises (inr resp1))) /\
  (forall raises' buf out,
     indexOfLF buf = None ->
     drainBuffer JSON_parse raises' buf out = (buf, false, out)).
Proof.
  intros Hret Hq E Hresp Hresp1.
  assert (handleResponse raises (inr resp) = handleResponse raises (inr resp1))
    as H.
  { rewrite (handleResponse_streamed JSON_parse raises Hret cs resp Hresp).
    rewrite (handleResponse_streamed JSON_parse raises Hret [body] resp1 Hresp1).
    rewrite (deltasOf_quietAfterDone JSON_parse cs) by (by rewrite E).
    rewrite (deltasOf_quietAfterDone JSON_parse [body])
      by (simpl; by rewrite app_nil_r).
    simpl. by rewrite app_nil_r, E. }
  split_and!; [done | by rewrite H |].
  intros raises' buf out Hbuf. unfold drainBuffer. simpl. by rewrite Hbuf.
Qed.

(** C3 (amended): for a body that ends, no read failing, in which no
    ['data: '] line follows the first ['[DONE]'] line, and for an
    [onDelta] and an [onDone] that return: a ['data: '] line that
    [JSON.parse] rejects makes [streamChat] report no error and call
    nothing for it; the deltas of all well-formed lines are delivered, in
    the order of the lines, and [onDone] is called last. *)
Theorem malformed_lines_dropped (raises : callbacks) (resp : Response)
        (cs : list str) :
  deltaReturns raises -> raises OnDone = None ->
  streamedAs cs resp ->
  quietAfterDone (concat cs) ->
  handleResponse raises (inr resp)
  = (map OnDelta (contents (splitLF (concat cs))) ++ [OnDone], None) /\
  errorsOf (fst (handleResponse raises (inr resp))) = [] /\
  (forall ls1 bad ls2,
     splitLF (concat cs) = ls1 ++ bad :: ls2 -> isMalformed bad = true ->
     fst (handleResponse raises (inr resp))
     = map OnDelta (contents ls1) ++ map OnDelta (contents ls2) ++ [OnDone]).
Proof.
  intros Hret Hdone Hresp Hq.
  assert (handleResponse raises (inr resp)
          = (map OnDelta (contents (splitLF (concat cs))) ++ [OnDone], None))
    as H.
  { rewrite (handleResponse_streamed JSON_parse raises Hret cs resp Hresp).
    by rewrite Hdone, (deltasOf_quietAfterDone JSON_parse cs Hq). }
  rewrite H. cbn [fst]. split_and!.
  - done.
  - by rewrite errorsOf_deltas.
  - intros ls1 bad ls2 -> Hbad.
    rewrite (contents_app JSON_parse), (contents_cons JSON_parse).
    rewrite (lineDelta_malformed JSON_parse bad Hbad). simpl.
    by rewrite map_app, <- app_assoc.
Qed.

End ParserClaims.

(** *** The parser on sample bodies *)

Import Stream.

(** An answer accepted with status 200 whose body arrives as [cs]. *)
Lemma sample_streamedAs (cs : list str) :
  streamedAs cs {| ok := true; status := 200; errorJson := JsonRejected;
                   body := Some {| chunks := cs; failure := None |} |}.
Proof. split; reflexivity. Defined.

(** C1 fails as stated: a ['data: '] line behind the sentinel, received in
    the chunk that carries the sentinel, is flushed to [onDelta]. *)
Lemma streamChat_delivers_contents_counterexample :
  splitLF (dataLine "ab" ++ [LF] ++ doneLine ++ [LF] ++ dataLine "zz" ++ [LF])
  = [dataLine "ab"] ++ [doneLine; dataLine "zz"; []] /\
  isSentinel (dataLine "ab") = false /\
  isMalformed sampleParse (dataLine "ab") = false /\
  isSentinel doneLine = true /\
  handleResponse sampleParse quiet
    (inr {| ok := true; status := 200; errorJson := JsonRejected;
            body := Some {| chunks := [dataLine "ab" ++ [LF] ++ doneLine
                                       ++ [LF] ++ dataLine "zz" ++ [LF]];
                            failure := None |} |})
  = ([OnDelta (VString (lit "ab")); OnDelta (VString (lit "zz")); OnDone],
     None) /\
  texts sampleParse [dataLine "ab"] = [lit "ab"] /\
  concat (map toText
            (deltaTexts
               (fst (handleResponse sampleParse quiet
                       (inr {| ok := true; status := 200;
                               errorJson := JsonRejected;
                               body := Some {| chunks :=
                                                 [dataLine "ab" ++ [LF]
                                                  ++ doneLine ++ [LF]
                                                  ++ dataLine "zz" ++ [LF]];
                                               failure := None |} |})))))
  = lit "abzz" /\
  concat (texts sampleParse [dataLine "ab"]) = lit "ab".
Proof. vm_compute. repeat split. Qed.

Lemma streamChat_delivers_contents_witness :
  deltaTexts
    (fst (handleResponse sampleParse quiet
            (inr {| ok := true; status := 200; errorJson := JsonRejected;
                    body := Some {| chunks :=
                                      [lit "data: " ++ contentPrefix;
                                       lit "ab" ++ contentSuffix ++ [LF]
                                       ++ doneLine ++ [LF; LF]];
                                    failure := None |} |})))
  = map VString (texts sampleParse [dataLine "ab"]).
Proof.
  refine (proj1 (streamChat_delivers_contents sampleParse quiet _
                   [lit "data: " ++ contentPrefix;
                    lit "ab" ++ contentSuffix ++ [LF] ++ doneLine ++ [LF; LF]]
                   [dataLine "ab"] [doneLine; []; []] _ _ _ _ _ _ _)).
  - intros v. reflexivity.
  - apply sample_streamedAs.
  - vm_compute; reflexivity.
  - repeat constructor.
  - repeat constructor.
  - repeat constructor.
  - right. exists doneLine, [[]; []]. split; [reflexivity|].
    split; [vm_compute; reflexivity | repeat constructor].
Defined.

(** C2 fails as stated: the line behind the sentinel is delivered when it
    comes in the sentinel's chunk and is never read when it comes later. *)
Lemma chunking_irrelevant_counterexample :
  concat [dataLine "ab" ++ [LF] ++ doneLine ++ [LF]; dataLine "zz" ++ [LF]]
  = dataLine "ab" ++ [LF] ++ doneLine ++ [LF] ++ dataLine "zz" ++ [LF] /\
  deltaTexts
    (fst (handleResponse sampleParse quiet
            (inr {| ok := true; status := 200; errorJson := JsonRejected;
                    body := Some {| chunks :=
                                      [dataLine "ab" ++ [LF] ++ doneLine ++ [LF];
                                       dataLine "zz" ++ [LF]];
                                    failure := None |} |})))
  = [VString (lit "ab")] /\
  deltaTexts
    (fst (handleResponse sampleParse quiet
            (inr {| ok := true; status := 200; errorJson := JsonRejected;
                    body := Some {| chunks :=
                                      [dataLine "ab" ++ [LF] ++ doneLine ++ [LF]
                                       ++ dataLine "zz" ++ [LF]];
                                    failure := None |} |})))
  = [VString (lit "ab"); VString (lit "zz")].
Proof. vm_compute. repeat split. Qed.

Lemma sample_quiet :
  quietAfterDone (dataLine "ab" ++ [LF] ++ doneLine ++ [LF; LF]).
Proof.
  intros pre s0 post E Hpre Hs0.
  change (splitLF _) with ([dataLine "ab"] ++ doneLine :: [[]; []]) in E.
  symmetry in E.
  destruct (first_sentinel_unique _ _ _ _ _ _ E Hpre Hs0
              ltac:(repeat constructor) eq_refl) as (_ & _ & ->).
  repeat constructor.
Defined.

Lemma chunking_irrelevant_witness :
  handleResponse sampleParse quiet
    (inr {| ok := true; status := 200; errorJson := JsonRejected;
            body := Some {| chunks :=
                              [lit "data: " ++ contentPrefix;
                               lit "ab" ++ contentSuffix ++ [LF]
                               ++ doneLine ++ [LF; LF]];
                            failure := None |} |})
  = handleResponse sampleParse quiet
      (inr {| ok := true; status := 200; errorJson := JsonRejected;
              body := Some {| chunks := [dataLine "ab" ++ [LF] ++ doneLine
                                         ++ [LF; LF]];
                              failure := None |} |}).
Proof.
  refine (proj1 (chunking_irrelevant sampleParse quiet
                   (dataLine "ab" ++ [LF] ++ doneLine ++ [LF; LF])
                   [lit "data: " ++ contentPrefix;
                    lit "ab" ++ contentSuffix ++ [LF] ++ doneLine ++ [LF; LF]]
                   _ _ _ _ _ _ _)).
  - intros v. reflexivity.
  - exact sample_quiet.
  - vm_compute; reflexivity.
  - apply sample_streamedAs.
  - apply sample_streamedAs.
Defined.

(** C3 fails as stated.  The lines behind a malformed line wait in the
    buffer for the final flush, so when a read fails after them their
    deltas are never delivered, [zz] here, while without the malformed
    line [zz] is delivered before the failure is reported.  And, as for
    C1, a well-formed line that arrives in a chunk after the one of the
    sentinel is never read, malformed neighbour or not. *)
Lemma malformed_lines_dropped_counterexample :
  isMalformed sampleParse (cutLine "b") = true /\
  lineDelta sampleParse (dataLine "zz") = [VString (lit "zz")] /\
  handleResponse sampleParse quiet
    (inr {| ok := true; status := 200; errorJson := JsonRejected;
            body := Some {| chunks := [cutLine "b" ++ [LF];
                                       dataLine "zz" ++ [LF]];
                            failure := Some (ErrorObject (lit "reset")) |} |})
  = ([OnError (VString (lit "reset"))], None) /\
  handleResponse sampleParse quiet
    (inr {| ok := true; status := 200; errorJson := JsonRejected;
            body := Some {| chunks := [dataLine "zz" ++ [LF]];
                            failure := Some (ErrorObject (lit "reset")) |} |})
  = ([OnDelta (VString (lit "zz")); OnError (VString (lit "reset"))], None) /\
  handleResponse sampleParse quiet
    (inr {| ok := true; status := 200; errorJson := JsonRejected;
            body := Some {| chunks := [doneLine ++ [LF];
                                       cutLine "b" ++ [LF]
                                       ++ dataLine "zz" ++ [LF]];
                            failure := None |} |})
  = ([OnDone], None).
Proof. vm_compute. repeat split. Qed.

Lemma sample_quiet_cut :
  quietAfterDone
    (concat [dataLine "ab" ++ [LF] ++ cutLine "b";
             [LF] ++ dataLine "zz" ++ [LF] ++ doneLine ++ [LF]]).
Proof.
  intros pre s0 post E Hpre Hs0.
  change (splitLF _)
    with ([dataLine "ab"; cutLine "b"; dataLine "zz"] ++ doneLine :: [[]]) in E.
  symmetry in E.
  destruct (first_sentinel_unique _ _ _ _ _ _ E Hpre Hs0
              ltac:(repeat constructor) eq_refl) as (_ & _ & ->).
  repeat constructor.
Defined.

Lemma malformed_lines_dropped_witness :
  handleResponse sampleParse quiet
    (inr {| ok := true; status := 200; errorJson := JsonRejected;
            body := Some {| chunks :=
                              [dataLine "ab" ++ [LF] ++ cutLine "b";
                               [LF] ++ dataLine "zz" ++ [LF] ++ doneLine ++ [LF]];
                            failure := None |} |})
  = ([OnDelta (VString (lit "ab")); OnDelta (VString (lit "zz")); OnDone],
     None).
Proof.
  refine (proj1 (malformed_lines_dropped sampleParse quiet _
                   [dataLine "ab" ++ [LF] ++ cutLine "b";
                    [LF] ++ dataLine "zz" ++ [LF] ++ doneLine ++ [LF]]
                   _ _ _ _)).
  - intros v. reflexivity.
  - reflexivity.
  - apply sample_streamedAs.
  - exact sample_quiet_cut.
Defined.

(** ** The terminal callback *)

Section Terminal.

Import Stream.

Variable JSON_parse : str -> option Chunk.
Variable raises : callbacks.

Local Abbreviation onlyDeltas := (Forall (fun e => terminal e = false)).

Lemma emit_onlyDeltas (c : option value) (out : list event) :
  onlyDeltas out -> onlyDeltas (emit c out).
Proof.
  intros H. destruct c as [s|]; simpl; [|done].
  destruct (truthyV s); [|done]. apply Forall_app; split; [done|].
  by repeat constructor.
Qed.

Lemma parseAndEmit_onlyDeltas (jsonStr : str) (out : list event) :
  onlyDeltas out -> onlyDeltas (fst (parseAndEmit JSON_parse raises jsonStr out)).
Proof.
  intros H. unfold parseAndEmit.
  destruct (JSON_parse jsonStr); [|done]. by apply emit_onlyDeltas.
Qed.

Lemma innerLoop_onlyDeltas (fuel : nat) :
  forall (textBuffer : str) (out : list event) result,
    onlyDeltas out ->
    innerLoop JSON_parse raises fuel textBuffer out = Some result ->
    onlyDeltas (snd result).
Proof.
  induction fuel as [|fuel IH]; intros textBuffer out result H; [done|].
  cbn [innerLoop]. destruct (indexOfLF textBuffer) as [i|].
  2:{ by intros [= <-]. }
  cbv zeta.
  pose proof (parseAndEmit_onlyDeltas
                (trim (skipn 6 (stripCR (firstn i textBuffer)))) out H) as H'.
  destruct (parseAndEmit _ _ _ out) as [out' threw]. simpl in H'.
  repeat case_match; try (by apply IH); by intros [= <-].
Qed.

Lemma drainBuffer_onlyDeltas (textBuffer : str) (out : list event) :
  onlyDeltas out ->
  onlyDeltas (snd (drainBuffer JSON_parse raises textBuffer out)).
Proof.
  intros H. unfold drainBuffer.
  destruct (innerLoop _ _ _ _ _) as [result|] eqn:E; [|done].
  by eapply innerLoop_onlyDeltas.
Qed.

Lemma readLoop_onlyDeltas (cs : list str) (fail : option thrown) :
  forall (textBuffer : str) (out : list event),
    onlyDeltas out ->
    onlyDeltas (snd (readLoop JSON_parse raises cs fail textBuffer out)).
Proof.
  induction cs as [|c cs IH]; intros textBuffer out H.
  - simpl. by destruct fail.
  - cbn [readLoop].
    pose proof (drainBuffer_onlyDeltas (textBuffer ++ c) out H) as H'.
    destruct (drainBuffer _ _ _ _) as [[tb sd] out']. simpl in H'.
    destruct sd; [done | by apply IH].
Qed.

Lemma flushLines_onlyDeltas (raws : list str) :
  forall out : list event,
    onlyDeltas out -> onlyDeltas (flushLines JSON_parse raises raws out).
Proof.
  induction raws as [|raw raws IH]; intros out H; [done|].
  cbn [flushLines]. repeat (case_match; try by apply IH).
  apply IH. by apply parseAndEmit_onlyDeltas.
Qed.

Lemma onlyDeltas_map (out : list event) :
  onlyDeltas out -> exists ds, out = map OnDelta ds.
Proof.
  induction 1 as [|e out He _ (ds & ->)]; [by exists []|].
  destruct e as [d| |]; try done. by exists (d :: ds).
Qed.

(** C9 (amended): when [onDone] and [onError] return, every run of
    [streamChat] calls exactly one of them, once and as its last callback,
    and returns; only [onDelta] calls come before it. *)
Theorem one_terminal_callback (r : thrown + Response) :
  raises OnDone = None ->
  (forall m, raises (OnError m) = None) ->
  exists ds t,
    handleResponse JSON_parse raises r = (map OnDelta ds ++ [t], None) /\
    terminal t = true.
Proof.
  intros Hdone Herr. unfold handleResponse.
  assert (forall m out, call raises (OnError m) out = (out ++ [OnError m], None))
    as Hcall by (intros; unfold call; by rewrite Herr).
  destruct r as [e | resp]; simpl.
  { rewrite Hcall. by exists [], (OnError (catchMessage e)). }
  destruct (negb (ok resp)).
  { destruct (status resp =? 429)%N.
    { rewrite Hcall. by eexists [], (OnError _). }
    destruct (status resp =? 402)%N.
    { rewrite Hcall. by eexists [], (OnError _). }
    destruct (errorJson resp) as [|typeError|error]; rewrite ?Hcall;
      by eexists [], (OnError _). }
  destruct (body resp) as [b|].
  2:{ rewrite Hcall. by eexists [], (OnError _). }
  unfold readBody.
  pose proof (readLoop_onlyDeltas (chunks b) (failure b) [] [] ltac:(constructor)) as H.
  destruct (readLoop _ _ _ _ _ _) as [[e | tb] out]; simpl in H.
  - rewrite Hcall. apply onlyDeltas_map in H as [ds ->].
    by exists ds, (OnError (catchMessage e)).
  - unfold call. rewrite Hdone. unfold finalFlush.
    destruct (truthy (trim tb)).
    + apply (flushLines_onlyDeltas (splitLF tb)) in H.
      apply onlyDeltas_map in H as [ds ->]. by exists ds, OnDone.
    + apply onlyDeltas_map in H as [ds ->]. by exists ds, OnDone.
Qed.

End Terminal.

(** C9 fails as stated: [onDone] is called inside the [try], so when it
    throws the [catch] calls [onError] as well. *)
Lemma one_terminal_callback_counterexample :
  Stream.handleResponse Stream.sampleParse
    (fun e => match e with
              | Stream.OnDone => Some (ErrorObject (lit "boom"))
              | _ => None
              end)
    (inr {| Stream.ok := true; Stream.status := 200%N;
            Stream.errorJson := Stream.JsonRejected;
            Stream.body := Some {| Stream.chunks := [Stream.dataLine "ab" ++ [LF]];
                                   Stream.failure := None |} |})
  = ([Stream.OnDelta (VString (lit "ab")); Stream.OnDone;
      Stream.OnError (VString (lit "boom"))],
     None).
Proof. vm_compute. reflexivity. Qed.

Lemma one_terminal_callback_witness :
  exists ds t,
    Stream.handleResponse Stream.sampleParse Stream.quiet
      (inr {| Stream.ok := false; Stream.status := 503%N;
              Stream.errorJson := Stream.JsonValue None;
              Stream.body := None |})
    = (map Stream.OnDelta ds ++ [t], None) /\
    Stream.terminal t = true.
Proof.
  apply (one_terminal_callback Stream.sampleParse Stream.quiet); reflexivity.
Defined.

(** ** Attachments *)

Section FilesFacts.

Import Files.

Lemma mapi_from_last {A B : Type} (c : A -> bool) (g h : A -> B) (n : nat) :
  forall (i : nat) (init : list A) (x : A),
    i + List.length init + 1 = n ->
    mapi_from (fun a idx => if (idx =? n - 1) && c a then g a else h a)
              i (init ++ [x])
    = map h init ++ [if c x then g x else h x].
Proof.
  intros i init; revert i. induction init as [|a init IH]; intros i x Hn.
  - simpl in *. replace (i =? n - 1) with true; [done|].
    symmetry. apply Nat.eqb_eq. lia.
  - simpl in *. replace (i =? n - 1) with false.
    2:{ symmetry. apply Nat.eqb_neq. lia. }
    simpl. f_equal. apply IH. lia.
Qed.

Lemma fileParts_length (file : File) : 1 <= List.length (fileParts file).
Proof.
  unfold fileParts. repeat case_match; simpl; lia.
Qed.

Lemma fileContents_nonempty (files : list File) :
  files <> [] -> 0 < List.length (fileContents files).
Proof.
  destruct files as [|f files]; [done|]. intros _.
  unfold fileContents. simpl. rewrite length_app.
  pose proof (fileParts_length f). lia.
Qed.

(** C5 (amended): a file whose read succeeds becomes the parts of its kind
    (an image one data-URL [image_url] part, a PDF a text part and an
    [image_url] part, a text-like file one inlined text part, any other
    file one placeholder text part) and a file whose read fails one error
    text part; with files and a last message of role user, all parts are
    appended, in order, to the content of that last message and every
    other message is forwarded unchanged; without files all messages are
    forwarded unchanged. *)
Theorem attachments_on_last_message (messages : list Message) (files : list File) :
  (forall f, readOk f = false -> fileParts f = [readError f]) /\
  (forall f, readOk f = true ->
     (isImage f = true ->
        exists b, fileToBase64 f = Some b /\
                  fileParts f = [dataUrlPart (mimeTypeOf f) b]) /\
     (isImage f = false -> isPdf f = true ->
        exists b, fileToBase64 f = Some b /\
                  fileParts f = [pdfNote f; dataUrlPart (mimeTypeOf f) b]) /\
     (isImage f = false -> isPdf f = false -> isTextLike f = true ->
        exists t, text f = Some t /\ fileParts f = [inlined f t]) /\
     (isImage f = false -> isPdf f = false -> isTextLike f = false ->
        fileParts f = [placeholder f])) /\
  (files <> [] ->
   forall init last,
     messages = init ++ [last] -> msgRole last = User ->
     processedMessages messages files
     = map unchanged init
       ++ [ {| sentRole := User;
               sentContent :=
                 Parts (TextPart (msgContent last)
                        :: concat (map fileParts files)) |} ]) /\
  (files = [] -> processedMessages messages files = map unchanged messages).
Proof.
  split_and!.
  - intros f. unfold readOk, fileParts, fileToBase64, isImage, isPdf.
    repeat case_match; simpl in *; try done.
  - intros f. unfold readOk, fileParts, fileToBase64, isImage, isPdf.
    intros H. split_and!; intros; repeat case_match; simpl in *;
      simplify_eq; try done; eauto.
  - intros Hf init last -> Hlast. unfold processedMessages.
    pose proof (fileContents_nonempty files Hf) as Hlen.
    apply Nat.ltb_lt in Hlen. rewrite Hlen.
    rewrite (mapi_from_last (fun m => isUser (msgRole m))
               (fun m => {| sentRole := msgRole m;
                            sentContent :=
                              Parts (TextPart (msgContent m) :: fileContents files) |})
               unchanged (List.length (init ++ [last])) 0 init last).
    + by rewrite Hlast.
    + rewrite length_app. simpl. lia.
  - intros ->. reflexivity.
Qed.

End FilesFacts.

(** C5 fails as stated: an image whose read fails becomes a text part. *)
Lemma attachments_on_last_message_counterexample :
  Files.isImage {| Files.name := lit "a.png"; Files.type := lit "image/png";
                   Files.dataURL := None; Files.text := None |} = true /\
  Files.processedMessages
    [ {| Files.msgRole := Files.User; Files.msgContent := lit "look" |} ]
    [ {| Files.name := lit "a.png"; Files.type := lit "image/png";
         Files.dataURL := None; Files.text := None |} ]
  = [ {| Files.sentRole := Files.User;
         Files.sentContent :=
           Files.Parts [Files.TextPart (lit "look");
                        Files.TextPart (lit "[Error reading file: a.png]")] |} ].
Proof. vm_compute. split; reflexivity. Qed.

Lemma attachments_on_last_message_witness :
  Files.processedMessages
    [ {| Files.msgRole := Files.Assistant; Files.msgContent := lit "hello" |};
      {| Files.msgRole := Files.User; Files.msgContent := lit "look" |} ]
    [ {| Files.name := lit "a.png"; Files.type := lit "image/png";
         Files.dataURL := Some (lit "data:image/png;base64,QUJD");
         Files.text := None |};
      {| Files.name := lit "n.txt"; Files.type := lit "";
         Files.dataURL := None; Files.text := Some (lit "note") |} ]
  = [ {| Files.sentRole := Files.Assistant;
         Files.sentContent := Files.Plain (lit "hello") |};
      {| Files.sentRole := Files.User;
         Files.sentContent :=
           Files.Parts
             [Files.TextPart (lit "look");
              Files.ImageUrlPart (lit "data:image/png;base64,QUJD");
              Files.inlined
                {| Files.name := lit "n.txt"; Files.type := lit "";
                   Files.dataURL := None; Files.text := Some (lit "note") |}
                (lit "note")] |} ].
Proof.
  refine (proj1 (proj2 (proj2 (attachments_on_last_message _ _))) _
            [ {| Files.msgRole := Files.Assistant;
                 Files.msgContent := lit "hello" |} ]
            {| Files.msgRole := Files.User; Files.msgContent := lit "look" |}
            eq_refl eq_refl).
  discriminate.
Defined.

(** ** The page: voice and the failed send *)

Section PageFacts.

Import Page.




(** *** A send that fails *)

Lemma toString_inj (a b : N) : toString a = toString b -> a = b.
Proof.
  unfold toString, lit. intros H.
  apply (f_equal string_of_list_ascii) in H.
  rewrite !string_of_list_ascii_of_string in H.
  apply (f_equal DecimalString.NilEmpty.uint_of_string) in H.
  rewrite !DecimalString.NilEmpty.usu in H. injection H as H.
  apply (f_equal N.of_uint) in H. by rewrite !DecimalN.Unsigned.of_to in H.
Qed.

Lemma mapi_from_ext {A B : Type} (f g : A -> nat -> B) (l : list A) :
  (forall a i, f a i = g a i) ->
  forall i, mapi_from f i l = mapi_from g i l.
Proof.
  intros H. induction l as [|a l IH]; intros i; simpl; [done|].
  by rewrite H, IH.
Qed.

Lemma setLastContent_snoc (c : str) (ms : list Message) (a : Message) :
  setLastContent c (ms ++ [a])
  = ms ++ [ {| id := id a; role_ := role_ a; content := c |} ].
Proof.
  unfold setLastContent.
  pose proof (mapi_from_last (fun _ : Message => true)
                (fun m => {| id := id m; role_ := role_ m; content := c |})
                (fun m => m) (List.length (ms ++ [a])) 0 ms a) as H.
  rewrite map_id in H. simpl in H. rewrite <- H.
  - apply mapi_from_ext. intros m i. by rewrite andb_true_r.
  - rewrite length_app; simpl; lia.
Qed.

Lemma last_role_snoc (ms : list Message) (a : Message) :
  last (map role_ (ms ++ [a])) = Some (role_ a).
Proof. rewrite map_app. simpl. apply last_snoc. Qed.

(** Deltas after the first one rewrite the assistant message they find
    at the end of the list. *)
Lemma runCallbacks_more (v : bool) (tts : ttsAnswer) (pf : bool)
      (user : Message) (tr : list (Stream.event * N)) (ds : list (value * N)) :
  forall (ac : str) (st : State) (ms : list Message) (i : str),
    messages st = ms ++ [ {| id := i; role_ := Assistant; content := ac |} ] ->
    exists st',
      runCallbacks v tts pf user
        (map (fun d => (Stream.OnDelta (fst d), snd d)) ds ++ tr) ac st
      = runCallbacks v tts pf user tr (ac ++ textOf ds) st' /\
      messages st'
      = ms ++ [ {| id := i; role_ := Assistant;
                   content := ac ++ textOf ds |} ] /\
      isTyping st' = isTyping st /\ effects st' = effects st /\
      speakCalls st' = speakCalls st.
Proof.
  induction ds as [|[d t] ds IH]; intros ac st ms i Hst.
  - exists st. unfold textOf. simpl. rewrite app_nil_r. done.
  - cbn [map app runCallbacks fst snd onDelta].
    edestruct (IH (ac ++ toText d)
                 {| messages := updateMessages t (ac ++ toText d) (messages st);
                    isTyping := isTyping st; effects := effects st;
                    speakCalls := speakCalls st |} ms i)
      as (st' & Hrun & Hm & Ht & He & Hs).
    + simpl. unfold updateMessages. rewrite Hst, last_role_snoc. simpl.
      apply setLastContent_snoc.
    + exists st'. rewrite Hrun. unfold textOf in *. simpl.
      rewrite <- !app_assoc in *. done.
Qed.

Lemma runCallbacks_deltas (v : bool) (tts : ttsAnswer) (pf : bool)
      (user : Message) (tr : list (Stream.event * N)) (ds : list (value * N))
      (st : State) (ms : list Message) (u : Message) :
  messages st = ms ++ [u] -> role_ u = User ->
  exists st',
    runCallbacks v tts pf user
      (map (fun d => (Stream.OnDelta (fst d), snd d)) ds ++ tr) [] st
    = runCallbacks v tts pf user tr (textOf ds) st' /\
    messages st' = ms ++ [u] ++ partialAnswer ds /\
    isTyping st' = isTyping st /\ effects st' = effects st /\
    speakCalls st' = speakCalls st.
Proof.
  intros Hst Hu. destruct ds as [|[d t] ds].
  - exists st. simpl. rewrite ?app_nil_r. done.
  - cbn [map app runCallbacks fst snd onDelta].
    edestruct (runCallbacks_more v tts pf user tr ds (toText d)
                 {| messages := updateMessages t (toText d) (messages st);
                    isTyping := isTyping st; effects := effects st;
                    speakCalls := speakCalls st |} (ms ++ [u]) (toString (t + 1)))
      as (st' & Hrun & Hm & Ht & He & Hs).
    + simpl. unfold updateMessages. rewrite Hst, last_role_snoc, Hu. done.
    + exists st'. rewrite Hrun. simpl. rewrite Hm. simpl.
      rewrite <- !app_assoc. done.
Qed.

Lemma filter_fresh (i : str) (ms : list Message) :
  Forall (fun m => id m <> i) ms ->
  List.filter (fun m => negb (str_eqb (id m) i)) ms = ms.
Proof.
  induction 1 as [|m ms Hm _ IH]; simpl; [done|].
  unfold str_eqb at 1. rewrite bool_decide_eq_false_2 by done. simpl.
  by rewrite IH.
Qed.

(** *** The page while a send is under way *)

Lemma runActions_undisturbed (v : bool) (tts : ttsAnswer) (pf : bool)
      (welcome : str) (user : Message) (tr : list (Stream.event * N)) :
  forall (ac : str) (st : State),
    PageActions.runActions v tts pf welcome user (PageActions.undisturbed tr)
                           ac st
    = runCallbacks v tts pf user tr ac st.
Proof.
  induction tr as [|[[d| |m] t] tr IH]; intros ac st; simpl; [done | | |];
    by rewrite IH.
Qed.

Lemma undisturbed_callbacksOf (acts : list PageActions.action) :
  existsb PageActions.isClearChat acts = false ->
  acts = PageActions.undisturbed (PageActions.callbacksOf acts).
Proof.
  induction acts as [|[e t|] acts IH]; simpl; [done | | done].
  intros H. unfold PageActions.undisturbed, PageActions.callbacksOf in *.
  simpl. f_equal. by apply IH.
Qed.

(** Without Clear Chat, the page runs the callbacks of the send. *)
Lemma sendAmong_callbacks (v : bool) (tts : ttsAnswer) (pf : bool)
      (welcome : str) (now : N) (text : str)
      (acts : list PageActions.action) (st : State) :
  existsb PageActions.isClearChat acts = false ->
  PageActions.sendAmong v tts pf welcome now text acts st
  = handleSendMessage v tts pf now text (PageActions.callbacksOf acts) st.
Proof.
  intros H. unfold PageActions.sendAmong, handleSendMessage.
  rewrite (undisturbed_callbacksOf acts H) at 1.
  apply runActions_undisturbed.
Qed.

(** C10 (amended): when the answer to a send fails, after any number of
    deltas, and no other message carries the id of the pending user
    message, neither an earlier one nor that of the answer, and Clear Chat
    is not used while the answer streams: [onError] clears the typing
    flag and removes exactly the pending user message; every earlier
    message is kept, unchanged and in place, followed by the partial
    answer. *)
Theorem failed_send_removes_pending (v : bool) (tts : ttsAnswer) (pf : bool)
        (welcome : str) (now : N) (text : str)
        (acts : list PageActions.action) (ds : list (value * N))
        (error : value) (later : N) (st : State) :
  PageActions.callbacksOf acts = failingAnswer ds error later ->
  existsb PageActions.isClearChat acts = false ->
  Forall (fun m => id m <> toString now) (messages st) ->
  Forall (fun m => id m <> toString now) (partialAnswer ds) ->
  let before :=
    handleSendMessage v tts pf now text
      (map (fun d => (Stream.OnDelta (fst d), snd d)) ds) st in
  let st' := PageActions.sendAmong v tts pf welcome now text acts st in
  messages before = messages st ++ [userMessage now text] ++ partialAnswer ds /\
  messages st' = messages st ++ partialAnswer ds /\
  isTyping st' = false /\
  ~ In (userMessage now text) (messages st') /\
  effects st' = effects st ++ [Toast (lit "Error") error].
Proof.
  intros Hacts Hclear Hfresh Hanswer before st'. subst before st'.
  rewrite (sendAmong_callbacks v tts pf welcome now text acts st Hclear), Hacts.
  unfold handleSendMessage, failingAnswer.
  destruct (runCallbacks_deltas v tts pf (userMessage now text)
              [] ds (send now text st)
              (messages st) (userMessage now text) eq_refl eq_refl)
    as (st0 & Hrun0 & Hm0 & _).
  rewrite app_nil_r in Hrun0. rewrite Hrun0. cbn [runCallbacks].
  destruct (runCallbacks_deltas v tts pf (userMessage now text)
              [(Stream.OnError error, later)] ds (send now text st)
              (messages st) (userMessage now text) eq_refl eq_refl)
    as (st1 & -> & Hm & Ht & He & Hs).
  cbn [runCallbacks onError messages isTyping effects]. rewrite Hm, He.
  assert (List.filter (fun m => negb (str_eqb (id m) (id (userMessage now text))))
            (messages st ++ [userMessage now text] ++ partialAnswer ds)
          = messages st ++ partialAnswer ds) as Hf.
  { rewrite !List.filter_app.
    rewrite (filter_fresh _ (messages st)) by done.
    rewrite (filter_fresh _ (partialAnswer ds)) by done.
    f_equal. simpl. unfold str_eqb at 1. by rewrite bool_decide_eq_true_2. }
  rewrite Hf. split_and!; try done.
  intros Hin. apply in_app_or in Hin as [Hin | Hin].
  - rewrite Forall_forall in Hfresh. rewrite <- list_elem_of_In in Hin.
    by apply (Hfresh _ Hin).
  - rewrite Forall_forall in Hanswer. rewrite <- list_elem_of_In in Hin.
    by apply (Hanswer _ Hin).
Qed.

End PageFacts.



Lemma failed_send_removes_pending_witness :
  Page.messages
    (PageActions.sendAmong false None false (lit "Welcome!")
       1700000000000%N (lit "hi")
       [PageActions.Callback (Stream.OnDelta (VString (lit "He")))
                             1700000000900%N;
        PageActions.Callback (Stream.OnDelta (VString (lit "llo")))
                             1700000000950%N;
        PageActions.Callback (Stream.OnError (VString (lit "Network error")))
                             1700000001000%N]
       {| Page.messages :=
            [ {| Page.id := Page.WELCOME_id; Page.role_ := Page.Assistant;
                 Page.content := lit "Welcome!" |} ];
          Page.isTyping := false; Page.effects := []; Page.speakCalls := [] |})
  = [ {| Page.id := Page.WELCOME_id; Page.role_ := Page.Assistant;
         Page.content := lit "Welcome!" |};
      {| Page.id := lit "1700000000901"; Page.role_ := Page.Assistant;
         Page.content := lit "Hello" |} ].
Proof.
  refine (proj1 (proj2
            (failed_send_removes_pending false None false (lit "Welcome!")
               1700000000000%N (lit "hi")
               [PageActions.Callback (Stream.OnDelta (VString (lit "He")))
                                     1700000000900%N;
                PageActions.Callback (Stream.OnDelta (VString (lit "llo")))
                                     1700000000950%N;
                PageActions.Callback
                  (Stream.OnError (VString (lit "Network error")))
                  1700000001000%N]
               [(VString (lit "He"), 1700000000900%N);
                (VString (lit "llo"), 1700000000950%N)]
               (VString (lit "Network error")) 1700000001000%N
               {| Page.messages :=
                    [ {| Page.id := Page.WELCOME_id; Page.role_ := Page.Assistant;
                         Page.content := lit "Welcome!" |} ];
                  Page.isTyping := false; Page.effects := [];
                  Page.speakCalls := [] |} eq_refl eq_refl _ _))).
  - repeat constructor. vm_compute. discriminate.
  - repeat constructor. vm_compute. discriminate.
Defined.

(** C10 fails as stated: Clear Chat can be used while the answer streams;
    the next delta of the send then writes the answer over the welcome
    message, and when the answer fails the message that was in the list
    before the send is there with the text of the answer. *)
Lemma failed_send_removes_pending_counterexample :
  Page.messages
    (PageActions.sendAmong false None false (lit "Welcome!")
       1700000000000%N (lit "hi")
       [PageActions.Callback (Stream.OnDelta (VString (lit "He")))
                             1700000000900%N;
        PageActions.ClearChat;
        PageActions.Callback (Stream.OnDelta (VString (lit "llo")))
                             1700000000950%N;
        PageActions.Callback (Stream.OnError (VString (lit "Network error")))
                             1700000001000%N]
       {| Page.messages :=
            [ {| Page.id := Page.WELCOME_id; Page.role_ := Page.Assistant;
                 Page.content := lit "Welcome!" |} ];
          Page.isTyping := false; Page.effects := []; Page.speakCalls := [] |})
  = [ {| Page.id := Page.WELCOME_id; Page.role_ := Page.Assistant;
         Page.content := lit "Hello" |} ] /\
  ~ In {| Page.id := Page.WELCOME_id; Page.role_ := Page.Assistant;
          Page.content := lit "Welcome!" |}
       [ {| Page.id := Page.WELCOME_id; Page.role_ := Page.Assistant;
            Page.content := lit "Hello" |} ].
Proof.
  split; [vm_compute; reflexivity|]. intros [H | []]. discriminate H.
Qed.

(** ** The request handlers *)

Section EdgeFacts.

Import Edge.

Lemma allowsAnyOrigin_cors (s : N) (b : payload) :
  allowsAnyOrigin {| status := s; headers := corsHeaders; body := b |}.
Proof. reflexivity. Qed.

Lemma allowsAnyOrigin_withContentType (s : N) (t : string) (b : payload) :
  allowsAnyOrigin {| status := s; headers := withContentType t; body := b |}.
Proof.
  unfold allowsAnyOrigin, withContentType. simpl.
  rewrite lookup_insert_ne by done. reflexivity.
Qed.

Lemma allowsAnyOrigin_caught (e : thrown) : allowsAnyOrigin (caught e).
Proof. apply allowsAnyOrigin_withContentType. Qed.

Local Ltac cors :=
  unfold bind, throwError, preflight in *;
  repeat (case_match; simplify_eq; simpl in *);
  first [ apply allowsAnyOrigin_cors
        | apply allowsAnyOrigin_withContentType
        | apply allowsAnyOrigin_caught ].

(** C7: every response of the chat, signup-notification and cloudinary
    handlers, whatever the request and whatever the services answer,
    carries [Access-Control-Allow-Origin: *]. *)
Theorem responses_allow_any_origin :
  (forall key gateway req, allowsAnyOrigin (chat key gateway req)) /\
  (forall key resend req, allowsAnyOrigin (signupNotification key resend req)) /\
  (forall digest name key secret now upload destroy req,
     allowsAnyOrigin
       (snd (cloudinary digest name key secret now upload destroy req))).
Proof.
  split_and!.
  - intros. unfold chat. cors.
  - intros. unfold signupNotification. cors.
  - intros. unfold cloudinary. cors.
Qed.

End EdgeFacts.

(** ** The signature of the image service *)

Section SignatureFacts.

Import Edge.

Variable digestSHA1 : list N -> list N.

Lemma hexByte_roundtrip (b : N) : (b < 256)%N -> unhexByte (hexByte b) = Some b.
Proof.
  intros Hb.
  assert (forallb (fun n => match unhexByte (hexByte (N.of_nat n)) with
                            | Some b' => (b' =? N.of_nat n)%N
                            | None => false
                            end) (seq 0 256) = true) as H
    by (vm_compute; reflexivity).
  rewrite forallb_forall in H.
  specialize (H (N.to_nat b)). rewrite N2Nat.id in H.
  assert (In (N.to_nat b) (seq 0 256)) as Hin.
  { apply in_seq. split; [apply Nat.le_0_l|].
    change (0 + 256) with (N.to_nat 256). apply Nat.compare_lt_iff.
    rewrite <- N2Nat.inj_compare. exact Hb. }
  destruct (unhexByte (hexByte b)) as [b'|].
  - f_equal. by apply N.eqb_eq, H.
  - exfalso. by apply Bool.diff_false_true, H.
Qed.

Lemma roundSeconds_nearest (now : N) :
  (1000 * roundSeconds now <= now + 500 < 1000 * roundSeconds now + 1000)%N.
Proof.
  unfold roundSeconds.
  pose proof (N.div_mod (now + 500) 1000 ltac:(lia)) as H1.
  pose proof (N.mod_lt (now + 500) 1000 ltac:(lia)) as H2.
  revert H1 H2. generalize ((now + 500) / 1000)%N ((now + 500) mod 1000)%N.
  intros q r H1 H2. lia.
Qed.

(** C8: for every upload the function handles, the [signature] field it
    posts is the lowercase hexadecimal SHA-1 digest of ["timestamp=<t>"]
    followed by the API secret, [<t>] being the [timestamp] field, the time
    of the request rounded to whole seconds; for every delete it is that
    digest of ["public_id=<id>&timestamp=<t>"] followed by the secret.  The
    digest is written with two lowercase hexadecimal digits a byte. *)
Theorem cloudinary_signature
        (name key secret : str) (now : N)
        (upload : Post -> attempt UploadAnswer)
        (destroy : Post -> attempt (attempt DeleteJson))
        (req : CloudinaryRequest) (json : CloudinaryJson) :
  cloudinaryMethod req <> "OPTIONS"%string ->
  truthy name = true -> truthy key = true -> truthy secret = true ->
  cloudinaryJson req = inr json ->
  (action json = Some (lit "upload") -> missing (file json) = false ->
   exists post,
     fst (cloudinary digestSHA1 (Some name) (Some key) (Some secret)
            now upload destroy req) = [post] /\
     field "timestamp" (form post) = Some (toString (roundSeconds now)) /\
     field "signature" (form post)
     = Some (sha1Hex digestSHA1
               (lit "timestamp=" ++ toString (roundSeconds now) ++ secret))) /\
  (forall id,
     action json = Some (lit "delete") -> publicId json = Some id ->
     truthy id = true ->
     exists post,
       fst (cloudinary digestSHA1 (Some name) (Some key) (Some secret)
              now upload destroy req) = [post] /\
       field "public_id" (form post) = Some id /\
       field "timestamp" (form post) = Some (toString (roundSeconds now)) /\
       field "signature" (form post)
       = Some (sha1Hex digestSHA1
                 (lit "public_id=" ++ id ++ lit "&timestamp="
                  ++ toString (roundSeconds now) ++ secret))) /\
  (1000 * roundSeconds now <= now + 500 < 1000 * roundSeconds now + 1000)%N /\
  (forall b, (b < 256)%N -> unhexByte (hexByte b) = Some b).
Proof.
  intros Hm Hn Hk Hs Hj. apply String.eqb_neq in Hm.
  split; [|split; [|split]].
  - intros Ha Hf. unfold cloudinary. rewrite Hm, Hn, Hk, Hs, Hj, Ha. simpl.
    rewrite Hf. simpl. eexists. split; [reflexivity|]. split; [reflexivity|].
    unfold field, sign, sha1Hex. simpl. by rewrite <- ?app_assoc.
  - intros i Ha Hp Hi. unfold cloudinary. rewrite Hm, Hn, Hk, Hs, Hj, Ha, Hp.
    simpl. rewrite Hi. simpl. eexists. split; [reflexivity|].
    split; [reflexivity|]. split; [reflexivity|].
    unfold field, sign, sha1Hex. simpl. by rewrite <- ?app_assoc.
  - apply roundSeconds_nearest.
  - apply hexByte_roundtrip.
Qed.

End SignatureFacts.

Lemma cloudinary_signature_witness :
  exists post,
    fst (Edge.cloudinary Edge.sampleDigest
           (Some (lit "demo")) (Some (lit "key")) (Some (lit "secret"))
           1700000000499%N (fun _ => inl OtherValue) (fun _ => inl OtherValue)
           {| Edge.cloudinaryMethod := "POST";
              Edge.cloudinaryJson :=
                inr {| Edge.action := Some (lit "upload");
                       Edge.file := Some (lit "data:image/png;base64,QUJD");
                       Edge.publicId := None;
                       Edge.transformations := None |} |}) = [post] /\
    Edge.field "timestamp" (Edge.form post) = Some (lit "1700000000") /\
    Edge.field "signature" (Edge.form post)
    = Some (Edge.sha1Hex Edge.sampleDigest (lit "timestamp=1700000000secret")).
Proof.
  refine (proj1 (cloudinary_signature Edge.sampleDigest
            (lit "demo") (lit "key") (lit "secret") 1700000000499%N
            (fun _ => inl OtherValue) (fun _ => inl OtherValue)
            {| Edge.cloudinaryMethod := "POST";
               Edge.cloudinaryJson :=
                 inr {| Edge.action := Some (lit "upload");
                        Edge.file := Some (lit "data:image/png;base64,QUJD");
                        Edge.publicId := None;
                        Edge.transformations := None |} |}
            _ _ eq_refl eq_refl eq_refl eq_refl) eq_refl eq_refl).
  discriminate.
Defined.

(** ** The signup trigger *)

Section TriggerFacts.

Import Trigger.

Variable settings : gmap string str.

Lemma notify_new_signup_Some (row : Row) (post : HttpPost) (row' : Row) :
  notify_new_signup settings row = Some (post, row') ->
  row' = row /\
  (exists supabase_url,
     settings !! "app.settings.supabase_url"%string = Some supabase_url /\
     url post = endpoint supabase_url) /\
  body post = {[ "email"%string := email row;
                 "created_at"%string := Some (created_at row) ]}.
Proof.
  unfold notify_new_signup, current_setting.
  destruct (settings !! "app.settings.supabase_url"%string) as [u|]; [|done].
  destruct (settings !! "app.settings.service_role_key"%string) as [k|]; [|done].
  intros [= <- <-]. simpl. eauto.
Qed.

Lemma insertRows_Some (rows : list Row) :
  forall db db',
    insertRows settings db rows = Some db' ->
    users db' = users db ++ rows /\
    exists posts,
      queue db' = queue db ++ posts /\
      Forall2 (fun row post => notify_new_signup settings row = Some (post, row))
              rows posts.
Proof.
  induction rows as [|row rows IH]; intros db db'; simpl.
  - intros [= <-]. rewrite app_nil_r. split; [done|]. exists [].
    by rewrite app_nil_r.
  - unfold insertRow.
    destruct (notify_new_signup settings row) as [[post row']|] eqn:E; [|done].
    intros H. apply IH in H as (Hu & posts & Hq & Hall). simpl in *.
    apply notify_new_signup_Some in E as E'. destruct E' as (-> & _).
    split; [by rewrite Hu, <- app_assoc|].
    exists (post :: posts). split; [by rewrite Hq, <- app_assoc|].
    by constructor.
Qed.

(** C4: an insertion of a row into [auth.users] that goes through has run
    [notify_new_signup] once for that row: the run queued one post, to the
    signup-notification endpoint, whose body holds exactly the [email] and
    the [created_at] of the row, and it returned the row as it was, which
    is stored unchanged.  An insertion of several rows does so for each,
    in order; with both settings defined every insertion goes through. *)
Theorem insertion_notifies_once :
  (forall db row db',
     insertRow settings db row = Some db' ->
     exists post,
       notify_new_signup settings row = Some (post, row) /\
       users db' = users db ++ [row] /\
       queue db' = queue db ++ [post] /\
       (exists supabase_url,
          settings !! "app.settings.supabase_url"%string = Some supabase_url /\
          url post = endpoint supabase_url) /\
       body post = {[ "email"%string := email row;
                      "created_at"%string := Some (created_at row) ]} /\
       dom (body post) = {[ "email"%string; "created_at"%string ]}) /\
  (forall rows db db',
     insertRows settings db rows = Some db' ->
     users db' = users db ++ rows /\
     exists posts,
       queue db' = queue db ++ posts /\
       Forall2 (fun row post => notify_new_signup settings row = Some (post, row))
               rows posts) /\
  (forall supabase_url service_role_key db row,
     settings !! "app.settings.supabase_url"%string = Some supabase_url ->
     settings !! "app.settings.service_role_key"%string = Some service_role_key ->
     is_Some (insertRow settings db row)).
Proof.
  split_and!.
  - intros db row db'. unfold insertRow.
    destruct (notify_new_signup settings row) as [[post row']|] eqn:E; [|done].
    intros [= <-]. apply notify_new_signup_Some in E as E'.
    destruct E' as (-> & Hurl & Hbody).
    exists post. split_and!; try done.
    rewrite Hbody. rewrite dom_insert_L, dom_singleton_L. done.
  - intros rows db db'. apply insertRows_Some.
  - intros u k db row Hu Hk. unfold insertRow, notify_new_signup, current_setting.
    rewrite Hu, Hk. eauto.
Qed.

End TriggerFacts.

Lemma insertion_notifies_once_witness :
  exists post,
    Trigger.notify_new_signup
      {[ "app.settings.supabase_url"%string := lit "https://demo.supabase.co";
         "app.settings.service_role_key"%string := lit "service-key" ]}
      {| Trigger.email := Some (lit "ada@example.org");
         Trigger.created_at := lit "2025-01-01T00:00:00Z";
         Trigger.others := [] |}
    = Some (post,
            {| Trigger.email := Some (lit "ada@example.org");
               Trigger.created_at := lit "2025-01-01T00:00:00Z";
               Trigger.others := [] |}) /\
    Trigger.body post
    = {[ "email"%string := Some (lit "ada@example.org");
         "created_at"%string := Some (lit "2025-01-01T00:00:00Z") ]}.
Proof.
  destruct (insertion_notifies_once
              {[ "app.settings.supabase_url"%string := lit "https://demo.supabase.co";
                 "app.settings.service_role_key"%string := lit "service-key" ]})
    as (Hone & _ & Htotal).
  destruct (Htotal (lit "https://demo.supabase.co") (lit "service-key")
              {| Trigger.users := []; Trigger.queue := [] |}
              {| Trigger.email := Some (lit "ada@example.org");
                 Trigger.created_at := lit "2025-01-01T00:00:00Z";
                 Trigger.others := [] |})
    as [db' Hdb]; [vm_compute; reflexivity | vm_compute; reflexivity |].
  destruct (Hone _ _ _ Hdb) as (post & Hn & _ & _ & _ & Hbody & _).
  exists post. split; [exact Hn | exact Hbody].
Defined.

(* ===================================================================== *)
(** * Further properties                                                  *)
(* ===================================================================== *)

(** ** The read loop *)

Section ReadLoopFacts.

Import Stream.

Variable JSON_parse : str -> option Chunk.

Local Abbreviation contents := (contents JSON_parse).
Local Abbreviation isMalformed := (isMalformed JSON_parse).
Local Abbreviation deltasOf := (deltasOf JSON_parse).
Local Abbreviation handleResponse := (handleResponse JSON_parse).

(** X1: the inner [while] ends: whatever the callbacks do, it is left
    before as many iterations as the buffer has characters, and one more,
    are over: with that much fuel [innerLoop] does not run out of fuel,
    and its result is that of [drainBuffer]. *)
Theorem innerLoop_terminates (raises : callbacks) (fuel : nat)
        (textBuffer : str) (out : list event) :
  List.length textBuffer < fuel ->
  innerLoop JSON_parse raises fuel textBuffer out <> None /\
  innerLoop JSON_parse raises fuel textBuffer out
  = Some (drainBuffer JSON_parse raises textBuffer out).
Proof.
  intros Hf.
  pose proof (drainBuffer_Some JSON_parse raises fuel textBuffer out Hf) as H.
  split; [congruence | exact H].
Qed.

(** The callbacks for a body that arrives as one chunk. *)
Lemma deltasOf_one_chunk (body : str) :
  deltasOf [body] = map OnDelta (contents (splitLF body)) ++ [OnDone].
Proof.
  unfold Stream.deltasOf, readBody, call. cbn [chunks failure readLoop app].
  destruct (drainBuffer JSON_parse quiet body []) as [[b d] o] eqn:E.
  assert (fst (finalFlush JSON_parse quiet b o ++ [OnDone], quiet OnDone)
          = map OnDelta (contents (splitLF body)) ++ [OnDone]) as H.
  { cbn [fst]. rewrite finalFlush_contents.
    apply drainBuffer_total in E. simpl in E. by rewrite E. }
  by destruct d.
Qed.

(** X2: a body that arrives as one chunk and ends, for an [onDelta] that
    returns: [onDelta] is called for every well-formed ['data: '] line of
    the body whose content is truthy (for a string: not empty), with that
    content and in the order of the lines, those behind a ['[DONE]'] line
    or a malformed line too; when [onDone] returns as well, [onDone]
    follows and nothing else is called. *)
Theorem one_chunk_delivers_all_lines (raises : callbacks) (resp : Response)
        (body : str) :
  deltaReturns raises ->
  streamedAs [body] resp ->
  deltaTexts (fst (handleResponse raises (inr resp)))
  = contents (splitLF body) /\
  (raises OnDone = None ->
   handleResponse raises (inr resp)
   = (map OnDelta (contents (splitLF body)) ++ [OnDone], None)).
Proof.
  intros Hret Hresp. split.
  - rewrite (deltasOf_streamed JSON_parse raises Hret [body] resp Hresp).
    rewrite deltasOf_one_chunk, deltaTexts_deltas. simpl.
    by rewrite app_nil_r.
  - intros Hdone.
    rewrite (handleResponse_streamed JSON_parse raises Hret [body] resp Hresp).
    by rewrite Hdone, deltasOf_one_chunk.
Qed.

(** Reading in chunks with a read that may fail at the end. *)
Lemma readLoop_chunks_fail (fail : option thrown) (cs : list str) :
  forall (buf : str) (out : list event) b d o,
    settled JSON_parse buf ->
    drainBuffer JSON_parse quiet (buf ++ concat cs) out = (b, d, o) ->
    exists tb,
      readLoop JSON_parse quiet cs fail buf out
      = ((if d then inr tb
          else match fail with Some e => inl e | None => inr tb end), o) /\
      if d then exists x, b = tb ++ x
      else contents (splitLF tb) = contents (splitLF b).
Proof.
  induction cs as [|c cs IH]; intros buf out b d o Hbuf.
  - simpl. rewrite app_nil_r.
    destruct Hbuf as [Hn | (l & r & -> & Hl & Hs & Hm)].
    + rewrite drainBuffer_nocut by done. intros [= <- <- <-].
      exists buf. by destruct fail.
    + rewrite drainBuffer_blocked by done. intros [= <- <- <-].
      exists (l ++ LF :: r). split; [by destruct fail|].
      rewrite !splitLF_line, !contents_cons by (by try apply stripCR_nocut).
      by rewrite lineDelta_stripCR.
  - cbn [concat Stream.readLoop]. rewrite app_assoc.
    destruct (drainBuffer JSON_parse quiet (buf ++ c) out)
      as [[b1 d1] o1] eqn:E1.
    rewrite (drainBuffer_app _ _ _ _ _ _ _ E1).
    destruct d1. { intros [= <- <- <-]. eauto. }
    pose proof (drainBuffer_settled _ _ _ _ _ E1) as Hb1.
    destruct (indexOfLF b1) eqn:Ei.
    + intros [= <- <- <-].
      destruct Hb1 as [Hn | (l & r & -> & Hl & Hs & Hm)]; [congruence|].
      assert (drainBuffer JSON_parse quiet ((l ++ LF :: r) ++ concat cs) o1
              = (stripCR l ++ LF :: r ++ concat cs, false, o1)) as E2.
      { rewrite <- app_assoc, <- app_comm_cons. by apply drainBuffer_blocked. }
      destruct (IH (l ++ LF :: r) o1 _ _ _ ltac:(right; eauto 10) E2)
        as (tb & Hr & Hc).
      exists tb. split; [done|]. rewrite Hc.
      rewrite <- app_assoc, <- app_comm_cons.
      rewrite !splitLF_line, !contents_cons by (by try apply stripCR_nocut).
      by rewrite lineDelta_stripCR.
    + intros H. by apply IH.
Qed.

Lemma readLoop_done_same (fail : option thrown) (cs : list str) :
  forall (buf : str) (out : list event) b o,
    settled JSON_parse buf ->
    drainBuffer JSON_parse quiet (buf ++ concat cs) out = (b, true, o) ->
    readLoop JSON_parse quiet cs fail buf out
    = readLoop JSON_parse quiet cs None buf out.
Proof.
  induction cs as [|c cs IH]; intros buf out b o Hbuf.
  - simpl. rewrite app_nil_r.
    destruct Hbuf as [Hn | (l & r & -> & Hl & Hs & Hm)].
    + by rewrite drainBuffer_nocut.
    + by rewrite drainBuffer_blocked.
  - cbn [concat Stream.readLoop]. rewrite app_assoc.
    destruct (drainBuffer JSON_parse quiet (buf ++ c) out)
      as [[b1 d1] o1] eqn:E1.
    rewrite (drainBuffer_app _ _ _ _ _ _ _ E1).
    destruct d1; [done|].
    pose proof (drainBuffer_settled _ _ _ _ _ E1) as Hb1.
    destruct (indexOfLF b1) eqn:Ei; [done|].
    intros H. by eapply IH.
Qed.

(** The inner loop over a text whose lines before the first sentinel are
    all well formed stops at that sentinel. *)
Lemma drainBuffer_reaches_sentinel (pre : list str) :
  forall (s : str) (out : list event) (s0 : str) (post : list str),
    splitLF s = pre ++ s0 :: post -> post <> [] ->
    noSentinel pre -> Forall (fun l => isMalformed l = false) pre ->
    isSentinel s0 = true ->
    exists b,
      drainBuffer JSON_parse quiet s out
      = (b, true, out ++ map OnDelta (contents pre)) /\
      splitLF b = post.
Proof.
  induction pre as [|l pre IH]; intros s out s0 post E Hpost Hs Hm Hs0.
  - simpl in E. apply splitLF_cons_inv in E as (r & -> & Hl & Hr); [|done].
    rewrite drainBuffer_line, Hs0 by done. exists r. simpl.
    by rewrite app_nil_r.
  - simpl in E. apply splitLF_cons_inv in E as (r & -> & Hl & Hr).
    2:{ by destruct pre. }
    apply Forall_cons in Hs as [Hs1 Hs]. apply Forall_cons in Hm as [Hm1 Hm].
    rewrite drainBuffer_line, Hs1, Hm1 by done.
    destruct (IH r (out ++ map OnDelta (lineDelta JSON_parse l)) s0 post
                Hr Hpost Hs Hm Hs0) as (b & -> & Hb).
    exists b. split; [|done]. f_equal.
    by rewrite contents_cons, map_app, app_assoc.
Qed.


(** X4: once the ['[DONE]'] line has been read, complete and after lines
    that are all well formed, nothing more is read: for an [onDelta] that
    returns, a later failure of the stream is not seen, and the callbacks
    are those of the stream ending normally, the deltas of the lines
    before the sentinel first. *)
Theorem failure_after_done_unseen (raises : callbacks) (resp resp' : Response)
        (cs : list str) (fail : option thrown)
        (pre : list str) (s0 : str) (post : list str) :
  deltaReturns raises ->
  ok resp = true -> body resp = Some {| chunks := cs; failure := fail |} ->
  streamedAs cs resp' ->
  splitLF (concat cs) = pre ++ s0 :: post -> post <> [] ->
  noSentinel pre -> Forall (fun l => isMalformed l = false) pre ->
  isSentinel s0 = true ->
  handleResponse raises (inr resp) = handleResponse raises (inr resp') /\
  exists extra,
    deltaTexts (fst (handleResponse raises (inr resp)))
    = contents pre ++ extra.
Proof.
  intros Hret Hok Hbody Hresp' E Hpost Hpre Hm Hs0.
  destruct (drainBuffer_reaches_sentinel pre (concat cs) [] s0 post
              E Hpost Hpre Hm Hs0) as (b & Hd & Hb).
  destruct (readLoop_chunks_fail None cs [] [] _ _ _ (or_introl eq_refl) Hd)
    as (tb & Hr & _).
  assert (handleResponse raises (inr resp) = handleResponse raises (inr resp'))
    as H.
  { destruct Hresp' as [Hok' Hbody'].
    unfold Stream.handleResponse, tryBlock, readBody.
    rewrite Hok, Hok', Hbody, Hbody'. cbn [negb chunks failure].
    rewrite !(readLoop_returns JSON_parse raises Hret).
    by rewrite (readLoop_done_same fail cs [] [] _ _ (or_introl eq_refl) Hd). }
  split; [exact H|]. rewrite H.
  rewrite (deltasOf_streamed JSON_parse raises Hret cs resp' Hresp').
  unfold Stream.deltasOf, readBody. cbn [chunks failure]. rewrite Hr.
  unfold call. cbn [fst]. rewrite finalFlush_contents. simpl.
  exists (contents (splitLF tb)).
  rewrite <- map_app, deltaTexts_deltas. simpl.
  by rewrite app_nil_r.
Qed.

(** X5: a body that ends without any ['data: '] line (comments, blank
    lines, other fields, [data:] without the space), for callbacks that
    return: no [onDelta] and one [onDone], nothing else, however the body
    is cut into chunks. *)
Theorem no_data_line_no_delta (raises : callbacks) (resp : Response)
        (cs : list str) :
  deltaReturns raises -> raises OnDone = None ->
  streamedAs cs resp ->
  noData (splitLF (concat cs)) ->
  handleResponse raises (inr resp) = ([OnDone], None).
Proof.
  intros Hret Hdone Hresp H.
  rewrite (handleResponse_streamed JSON_parse raises Hret cs resp Hresp), Hdone.
  rewrite (deltasOf_closing JSON_parse cs (splitLF (concat cs)) []).
  - by rewrite contents_noData.
  - by rewrite app_nil_r.
  - eapply Forall_impl; [exact H|]. intros l Hl. unfold isSentinel.
    by rewrite Hl.
  - by left.
Qed.

Lemma splitLF_linesWith (eol : str) (ls : list str) :
  Forall (fun l => indexOfLF (l ++ eol) = None) ls ->
  splitLF (Texts.linesWith (eol ++ [LF]) ls)
  = map (fun l => l ++ eol) ls ++ [[]].
Proof.
  unfold Texts.linesWith. induction 1 as [|l ls Hl _ IH]; [done|].
  cbn [map concat]. rewrite <- !app_assoc, (app_assoc l). cbn [app].
  rewrite splitLF_line by done. by rewrite IH.
Qed.

Lemma lineDelta_CR (l : str) :
  lineDelta JSON_parse (l ++ [CR]) = lineDelta JSON_parse l.
Proof. by rewrite <- (lineDelta_stripCR JSON_parse (l ++ [CR])), stripCR_snoc. Qed.

Lemma contents_CR (ls : list str) :
  contents (map (fun l => l ++ [CR]) ls) = contents ls.
Proof.
  induction ls as [|l ls IH]; [done|].
  cbn [map]. rewrite !contents_cons, IH. f_equal. apply lineDelta_CR.
Qed.

Lemma isData_CR (l : str) : isData (l ++ [CR]) = isData l.
Proof. by rewrite <- (isData_stripCR (l ++ [CR])), stripCR_snoc. Qed.

Lemma isSentinel_CR (l : str) : isSentinel (l ++ [CR]) = isSentinel l.
Proof. by rewrite <- (isSentinel_stripCR (l ++ [CR])), stripCR_snoc. Qed.

(** The callbacks for lines that end with [eol] and a line feed, when no
    ['data: '] line follows the first sentinel. *)
Lemma deltasOf_linesWith (eol : str) (pre post : list str) (cs : list str) :
  (forall l, isData (l ++ eol) = isData l) ->
  (forall l, isSentinel (l ++ eol) = isSentinel l) ->
  Forall (fun l => indexOfLF (l ++ eol) = None) (pre ++ post) ->
  noSentinel pre -> closingSentinel post ->
  concat cs = Texts.linesWith (eol ++ [LF]) (pre ++ post) ->
  deltasOf cs
  = map OnDelta (contents (map (fun l => l ++ eol) pre)) ++ [OnDone].
Proof.
  intros Hd Hs Hlf Hpre Hpost E.
  assert (noSentinel (map (fun l => l ++ eol) pre)) as Hpre'.
  { apply Forall_map. eapply Forall_impl; [exact Hpre|].
    intros l Hl. simpl. by rewrite Hs. }
  assert (splitLF (concat cs)
          = map (fun l => l ++ eol) pre
            ++ (map (fun l => l ++ eol) post ++ [[]])) as Hlines.
  { by rewrite E, splitLF_linesWith, map_app, <- app_assoc. }
  destruct Hpost as [-> | (s0 & post' & -> & Hs0 & Hq)].
  - rewrite (deltasOf_closing JSON_parse cs
               (map (fun l => l ++ eol) pre ++ [[]]) []).
    + by rewrite contents_app, app_nil_r.
    + by rewrite Hlines, app_nil_r.
    + apply Forall_app; split; [done | by repeat constructor].
    + by left.
  - apply (deltasOf_closing JSON_parse cs _
             (map (fun l => l ++ eol) (s0 :: post') ++ [[]]) Hlines Hpre').
    right. exists (s0 ++ eol), (map (fun l => l ++ eol) post' ++ [[]]).
    split_and!; [done | by rewrite Hs |].
    apply Forall_app; split; [|by repeat constructor].
    apply Forall_map. eapply Forall_impl; [exact Hq|].
    intros l Hl. simpl. by rewrite Hd.
Qed.

(** X6: line ends do not matter, for an [onDelta] that returns: a body
    whose lines end with CR LF gives the callbacks of the same lines
    ending with LF, when each arrives as one chunk, and however the two
    are cut into chunks when no ['data: '] line follows the first
    ['[DONE]'] line. *)
Theorem crlf_as_lf (raises : callbacks) (ls : list str) :
  deltaReturns raises ->
  Forall (fun l => indexOfLF l = None) ls ->
  (forall resp resp',
     streamedAs [Texts.linesWith [CR; LF] ls] resp ->
     streamedAs [Texts.linesWith [LF] ls] resp' ->
     handleResponse raises (inr resp) = handleResponse raises (inr resp')) /\
  (forall pre post cs cs' resp resp',
     ls = pre ++ post -> noSentinel pre -> closingSentinel post ->
     concat cs = Texts.linesWith [CR; LF] ls ->
     concat cs' = Texts.linesWith [LF] ls ->
     streamedAs cs resp -> streamedAs cs' resp' ->
     handleResponse raises (inr resp) = handleResponse raises (inr resp')).
Proof.
  intros Hret H.
  assert (Forall (fun l => indexOfLF (l ++ [CR]) = None) ls) as Hcr.
  { eapply Forall_impl; [exact H|]. intros l Hl.
    by apply indexOfLF_app_None. }
  assert (Forall (fun l => indexOfLF (l ++ []) = None) ls) as Hlf.
  { eapply Forall_impl; [exact H|]. intros l Hl. by rewrite app_nil_r. }
  split.
  - intros resp resp' Hresp Hresp'.
    rewrite (handleResponse_streamed JSON_parse raises Hret _ resp Hresp).
    rewrite (handleResponse_streamed JSON_parse raises Hret _ resp' Hresp').
    rewrite !deltasOf_one_chunk.
    change [CR; LF] with ([CR] ++ [LF]).
    change (Texts.linesWith [LF] ls) with (Texts.linesWith ([] ++ [LF]) ls).
    rewrite (splitLF_linesWith [CR] ls Hcr), (splitLF_linesWith [] ls Hlf).
    rewrite !contents_app, contents_CR.
    replace (map (fun l => l ++ []) ls) with ls; [done|].
    clear. induction ls as [|l ls IH]; [done|].
    simpl. by rewrite app_nil_r, <- IH.
  - intros pre post cs cs' resp resp' -> Hpre Hpost E E' Hresp Hresp'.
    rewrite (handleResponse_streamed JSON_parse raises Hret _ resp Hresp).
    rewrite (handleResponse_streamed JSON_parse raises Hret _ resp' Hresp').
    rewrite (deltasOf_linesWith [CR] pre post cs isData_CR isSentinel_CR
               Hcr Hpre Hpost E).
    rewrite (deltasOf_linesWith [] pre post cs'
               ltac:(intros; by rewrite app_nil_r)
               ltac:(intros; by rewrite app_nil_r) Hlf Hpre Hpost E').
    rewrite contents_CR.
    replace (map (fun l => l ++ []) pre) with pre; [done|].
    clear. induction pre as [|l pre IH]; [done|].
    simpl. by rewrite app_nil_r, <- IH.
Qed.

End ReadLoopFacts.

(** ** Every run of [streamChat] *)

Section RunFacts.

Import Stream.

Variable JSON_parse : str -> option Chunk.
Variable raises : callbacks.

(** What holds of every callback made on the way to the end of the body. *)
Variable P : event -> Prop.
Hypothesis P_delta : forall v, truthyV v = true -> P (OnDelta v).

Lemma emit_keeps (c : option value) (out : list event) :
  Forall P out -> Forall P (emit c out).
Proof.
  intros H. destruct c as [s|]; simpl; [|done].
  destruct (truthyV s) eqn:E; [|done]. apply Forall_app; split; [done|].
  repeat constructor. by apply P_delta.
Qed.

Lemma parseAndEmit_keeps (jsonStr : str) (out : list event) :
  Forall P out -> Forall P (fst (parseAndEmit JSON_parse raises jsonStr out)).
Proof.
  intros H. unfold parseAndEmit.
  destruct (JSON_parse jsonStr); [|done]. by apply emit_keeps.
Qed.

Lemma innerLoop_keeps (fuel : nat) :
  forall (textBuffer : str) (out : list event) result,
    Forall P out ->
    innerLoop JSON_parse raises fuel textBuffer out = Some result ->
    Forall P (snd result).
Proof.
  induction fuel as [|fuel IH]; intros textBuffer out result H; [done|].
  cbn [innerLoop]. destruct (indexOfLF textBuffer) as [i|].
  2:{ by intros [= <-]. }
  cbv zeta.
  pose proof (parseAndEmit_keeps
                (trim (skipn 6 (stripCR (firstn i textBuffer)))) out H) as H'.
  destruct (parseAndEmit _ _ _ out) as [out' threw]. simpl in H'.
  repeat case_match; try (by apply IH); by intros [= <-].
Qed.

Lemma readLoop_keeps (cs : list str) (fail : option thrown) :
  forall (textBuffer : str) (out : list event),
    Forall P out ->
    Forall P (snd (readLoop JSON_parse raises cs fail textBuffer out)).
Proof.
  induction cs as [|c cs IH]; intros textBuffer out H.
  - simpl. by destruct fail.
  - cbn [readLoop].
    assert (Forall P (snd (drainBuffer JSON_parse raises (textBuffer ++ c) out)))
      as H'.
    { unfold drainBuffer.
      destruct (innerLoop _ _ _ _ _) as [result|] eqn:E; [|done].
      by eapply innerLoop_keeps. }
    destruct (drainBuffer _ _ _ _) as [[tb sd] out']. simpl in H'.
    destruct sd; [done | by apply IH].
Qed.

Lemma flushLines_keeps (raws : list str) :
  forall out : list event,
    Forall P out -> Forall P (flushLines JSON_parse raises raws out).
Proof.
  induction raws as [|raw raws IH]; intros out H; [done|].
  cbn [flushLines]. repeat (case_match; try by apply IH).
  apply IH. by apply parseAndEmit_keeps.
Qed.

Lemma finalFlush_keeps (textBuffer : str) (out : list event) :
  Forall P out -> Forall P (finalFlush JSON_parse raises textBuffer out).
Proof.
  intros H. unfold finalFlush. case_match; [|done].
  by apply flushLines_keeps.
Qed.

Hypothesis P_done : P OnDone.
Hypothesis P_error : forall m, P (OnError m).

Lemma handleResponse_keeps (r : thrown + Response) :
  Forall P (fst (handleResponse JSON_parse raises r)).
Proof.
  assert (forall e out, Forall P out -> P e -> Forall P (fst (call raises e out)))
    as Hcall.
  { intros e out H He. unfold call. simpl. apply Forall_app; split; [done|].
    by repeat constructor. }
  assert (Forall P (fst (tryBlock JSON_parse raises r))) as Htry.
  { unfold tryBlock. destruct r as [e|resp]; [constructor|].
    destruct (negb (ok resp)).
    { destruct (status resp =? 429)%N; [|destruct (status resp =? 402)%N];
        try (apply Hcall; [constructor | apply P_error]).
      destruct (errorJson resp);
        [apply Hcall; [constructor | apply P_error]
        |simpl; constructor
        |apply Hcall; [constructor | apply P_error]]. }
    destruct (body resp) as [b|].
    2:{ apply Hcall; [constructor | apply P_error]. }
    unfold readBody.
    pose proof (readLoop_keeps (chunks b) (failure b) [] [] ltac:(constructor))
      as Hloop.
    destruct (readLoop _ _ _ _ _ _) as [[e | tb] out]; simpl in Hloop; [done|].
    apply Hcall; [by apply finalFlush_keeps | apply P_done]. }
  unfold handleResponse.
  destruct (tryBlock JSON_parse raises r) as [out [e|]]; simpl in *; [|done].
  by apply Hcall.
Qed.

End RunFacts.

Section RunTheorems.

Import Stream.

Variable JSON_parse : str -> option Chunk.
Variable raises : callbacks.

(** X7: [streamChat] never calls [onDelta] with an empty text, nor with
    any other falsy value, whatever the answer of the server and whatever
    the callbacks do. *)
Theorem onDelta_never_empty (r : thrown + Response) (v : value) :
  In (OnDelta v) (fst (handleResponse JSON_parse raises r)) ->
  v <> VString [] /\ truthyV v = true.
Proof.
  intros Hin.
  pose proof (handleResponse_keeps JSON_parse raises
                (fun e => match e with
                          | OnDelta t => t <> VString [] /\ truthyV t = true
                          | _ => True
                          end)
                ltac:(by intros [[|? ?]| | | |]) I (fun _ => I) r) as H.
  rewrite Forall_forall in H.
  apply (H (OnDelta v)). by apply list_elem_of_In.
Qed.

(** X8: an answer that is not [ok], for an [onError] that returns: the
    body is never read and [onError] is called once, nothing else.  It is
    called with the rate-limit text for status 429 and the credits text
    for 402, whatever the JSON of the answer says; otherwise with the
    [error] of that JSON when it is truthy, with ["Network error"] when
    the JSON cannot be read, with a text naming the status when [error]
    is absent or falsy, and, when the JSON is [null], with the message of
    the TypeError that reading [error] throws, through the [catch]. *)
Theorem rejected_answer_reports_once (resp : Response) :
  ok resp = false ->
  (forall m, raises (OnError m) = None) ->
  exists m,
    handleResponse JSON_parse raises (inr resp) = ([OnError m], None) /\
    (status resp = 429%N ->
     m = VString (lit "Rate limit exceeded. Please wait a moment and try again.")) /\
    (status resp = 402%N ->
     m = VString (lit "AI credits exhausted. Please add credits to continue using this feature.")) /\
    (status resp <> 429%N -> status resp <> 402%N ->
     (errorJson resp = JsonRejected -> m = VString (lit "Network error")) /\
     (forall typeError,
        errorJson resp = JsonNull typeError -> m = VString typeError) /\
     (forall e, errorJson resp = JsonValue (Some e) -> truthyV e = true ->
                m = e) /\
     ((errorJson resp = JsonValue None \/
       exists e, errorJson resp = JsonValue (Some e) /\ truthyV e = false) ->
      m = VString (lit "Request failed with status "
                   ++ toString (status resp))) /\
     ((forall typeError, errorJson resp <> JsonNull typeError) ->
      truthyV m = true)).
Proof.
  intros Hok Hret. unfold handleResponse, tryBlock, call. rewrite Hok. simpl.
  destruct (status resp =? 429)%N eqn:E1.
  { apply N.eqb_eq in E1. rewrite Hret. eexists. split; [done|].
    split_and!; try done. all: intros; congruence. }
  destruct (status resp =? 402)%N eqn:E2.
  { apply N.eqb_eq in E2. rewrite Hret. eexists. split; [done|].
    split_and!; try done. all: intros; congruence. }
  apply N.eqb_neq in E1, E2.
  destruct (errorJson resp) as [|typeError|[e|]] eqn:Ej; simpl;
    rewrite ?Hret; [| |destruct (truthyV e) eqn:He|];
    (eexists; split; [done|]); (split_and!; try done);
    try (intros _ _; split_and!; try done).
  all: try (intros [? | (? & ? & ?)]; simplify_eq; congruence).
  all: try (intros; simplify_eq; congruence).
  intros ? [= <-]. reflexivity.
Qed.

End RunTheorems.

Lemma innerLoop_terminates_witness :
  Stream.innerLoop Stream.sampleParse Stream.quiet 1000
    (Stream.dataLine "ab" ++ [LF] ++ Stream.doneLine ++ [LF]) []
  = Some (Stream.drainBuffer Stream.sampleParse Stream.quiet
            (Stream.dataLine "ab" ++ [LF] ++ Stream.doneLine ++ [LF]) []).
Proof.
  apply (innerLoop_terminates Stream.sampleParse Stream.quiet 1000).
  vm_compute. lia.
Defined.

Lemma one_chunk_delivers_all_lines_witness :
  Stream.deltaTexts
    (fst (Stream.handleResponse Stream.sampleParse Stream.quiet
            (inr {| Stream.ok := true; Stream.status := 200;
                    Stream.errorJson := Stream.JsonRejected;
                    Stream.body :=
                      Some {| Stream.chunks :=
                                [Stream.dataLine "ab" ++ [LF]
                                 ++ lit "data: "
                                 ++ quoted "{'choices':[{'delta':{'content':5}}]}"
                                 ++ [LF]];
                              Stream.failure := None |} |})))
  = [VString (lit "ab"); VNumber (lit "5")].
Proof.
  refine (proj1 (one_chunk_delivers_all_lines Stream.sampleParse Stream.quiet
                   _ (Stream.dataLine "ab" ++ [LF] ++ lit "data: "
                      ++ quoted "{'choices':[{'delta':{'content':5}}]}" ++ [LF])
                   _ _)).
  - intros v. reflexivity.
  - apply sample_streamedAs.
Defined.


Lemma failure_after_done_unseen_witness :
  Stream.handleResponse Stream.sampleParse Stream.quiet
    (inr {| Stream.ok := true; Stream.status := 200;
            Stream.errorJson := Stream.JsonRejected;
            Stream.body :=
              Some {| Stream.chunks := [Stream.dataLine "ab" ++ [LF]
                                        ++ Stream.doneLine ++ [LF]];
                      Stream.failure := Some OtherValue |} |})
  = Stream.handleResponse Stream.sampleParse Stream.quiet
      (inr {| Stream.ok := true; Stream.status := 200;
              Stream.errorJson := Stream.JsonRejected;
              Stream.body :=
                Some {| Stream.chunks := [Stream.dataLine "ab" ++ [LF]
                                          ++ Stream.doneLine ++ [LF]];
                        Stream.failure := None |} |}).
Proof.
  refine (proj1 (failure_after_done_unseen Stream.sampleParse Stream.quiet
                   {| Stream.ok := true; Stream.status := 200;
                      Stream.errorJson := Stream.JsonRejected;
                      Stream.body :=
                        Some {| Stream.chunks := [Stream.dataLine "ab" ++ [LF]
                                                  ++ Stream.doneLine ++ [LF]];
                                Stream.failure := Some OtherValue |} |}
                   {| Stream.ok := true; Stream.status := 200;
                      Stream.errorJson := Stream.JsonRejected;
                      Stream.body :=
                        Some {| Stream.chunks := [Stream.dataLine "ab" ++ [LF]
                                                  ++ Stream.doneLine ++ [LF]];
                                Stream.failure := None |} |}
                   [Stream.dataLine "ab" ++ [LF] ++ Stream.doneLine ++ [LF]]
                   (Some OtherValue)
                   [Stream.dataLine "ab"] Stream.doneLine [[]]
                   _ eq_refl eq_refl _ _ _ _ _ _)).
  - intros v. reflexivity.
  - apply sample_streamedAs.
  - vm_compute; reflexivity.
  - discriminate.
  - repeat constructor.
  - repeat constructor.
  - vm_compute; reflexivity.
Defined.

Lemma no_data_line_no_delta_witness :
  Stream.handleResponse Stream.sampleParse Stream.quiet
    (inr {| Stream.ok := true; Stream.status := 200;
            Stream.errorJson := Stream.JsonRejected;
            Stream.body :=
              Some {| Stream.chunks :=
                        [lit ": keep-alive" ++ [LF] ++ lit "event: pi";
                         lit "ng" ++ [LF; LF]];
                      Stream.failure := None |} |})
  = ([Stream.OnDone], None).
Proof.
  apply (no_data_line_no_delta Stream.sampleParse Stream.quiet _
           [lit ": keep-alive" ++ [LF] ++ lit "event: pi";
            lit "ng" ++ [LF; LF]]).
  - intros v. reflexivity.
  - reflexivity.
  - apply sample_streamedAs.
  - vm_compute. repeat constructor.
Defined.

Lemma crlf_as_lf_witness :
  Stream.handleResponse Stream.sampleParse Stream.quiet
    (inr {| Stream.ok := true; Stream.status := 200;
            Stream.errorJson := Stream.JsonRejected;
            Stream.body :=
              Some {| Stream.chunks :=
                        [Texts.linesWith [CR; LF]
                           [Stream.dataLine "ab"; []; Stream.doneLine]];
                      Stream.failure := None |} |})
  = Stream.handleResponse Stream.sampleParse Stream.quiet
      (inr {| Stream.ok := true; Stream.status := 200;
              Stream.errorJson := Stream.JsonRejected;
              Stream.body :=
                Some {| Stream.chunks :=
                          [Texts.linesWith [LF]
                             [Stream.dataLine "ab"; []; Stream.doneLine]];
                        Stream.failure := None |} |}).
Proof.
  refine (proj1 (crlf_as_lf Stream.sampleParse Stream.quiet
                   [Stream.dataLine "ab"; []; Stream.doneLine] _ _) _ _ _ _).
  - intros v. reflexivity.
  - repeat constructor.
  - apply sample_streamedAs.
  - apply sample_streamedAs.
Defined.

Lemma onDelta_never_empty_witness :
  VString (lit "ab") <> VString [] /\ truthyV (VString (lit "ab")) = true.
Proof.
  apply (onDelta_never_empty Stream.sampleParse Stream.quiet
           (inr {| Stream.ok := true; Stream.status := 200;
                   Stream.errorJson := Stream.JsonRejected;
                   Stream.body :=
                     Some {| Stream.chunks := [Stream.dataLine "ab" ++ [LF]];
                             Stream.failure := None |} |})).
  vm_compute. left. reflexivity.
Defined.

Lemma rejected_answer_reports_once_witness :
  exists m,
    Stream.handleResponse Stream.sampleParse Stream.quiet
      (inr {| Stream.ok := false; Stream.status := 503;
              Stream.errorJson :=
                Stream.JsonNull (lit "Cannot read properties of null (reading 'error')");
              Stream.body :=
                Some {| Stream.chunks := [Stream.dataLine "ab" ++ [LF]];
                        Stream.failure := None |} |})
    = ([Stream.OnError m], None) /\
    m = VString (lit "Cannot read properties of null (reading 'error')").
Proof.
  destruct (rejected_answer_reports_once Stream.sampleParse Stream.quiet
              {| Stream.ok := false; Stream.status := 503;
                 Stream.errorJson :=
                   Stream.JsonNull (lit "Cannot read properties of null (reading 'error')");
                 Stream.body :=
                   Some {| Stream.chunks := [Stream.dataLine "ab" ++ [LF]];
                           Stream.failure := None |} |}
              eq_refl (fun _ => eq_refl))
    as (m & Hm & _ & _ & Hother).
  exists m. split; [exact Hm|].
  destruct (Hother ltac:(discriminate) ltac:(discriminate)) as (_ & H & _).
  by apply H.
Defined.

(** ** Attachments and messages *)

Section MoreFilesFacts.

Import Files.

Lemma splitComma_plain (s : str) :
  Texts.COMMA ∉ s -> splitComma s = [s].
Proof.
  induction s as [|c s IH]; [done|]. rewrite not_elem_of_cons.
  intros [Hc Hs]. simpl. destruct (Ascii.eqb c ","%char) eqn:E.
  - apply Ascii.eqb_eq in E. done.
  - by rewrite IH.
Qed.

Lemma splitComma_first (a b : str) :
  Texts.COMMA ∉ a -> splitComma (a ++ Texts.COMMA :: b) = a :: splitComma b.
Proof.
  induction a as [|c a IH]; [done|]. rewrite not_elem_of_cons.
  intros [Hc Ha]. simpl. destruct (Ascii.eqb c ","%char) eqn:E.
  - apply Ascii.eqb_eq in E. done.
  - by rewrite IH.
Qed.

Lemma fileToBase64_dataURL (file : File) (mime base64 : str) :
  Texts.COMMA ∉ mime -> Texts.COMMA ∉ base64 ->
  dataURL file = Some (lit "data:" ++ mime ++ lit ";base64," ++ base64) ->
  fileToBase64 file = Some (Some base64).
Proof.
  intros Hm Hb Hu. unfold fileToBase64. rewrite Hu. f_equal.
  replace (lit "data:" ++ mime ++ lit ";base64," ++ base64)
    with ((lit "data:" ++ mime ++ lit ";base64") ++ Texts.COMMA :: base64).
  2:{ rewrite <- !app_assoc. reflexivity. }
  rewrite splitComma_first, splitComma_plain; [done | done |].
  intros Hin. apply elem_of_app in Hin as [Hin | Hin].
  { vm_compute in Hin. repeat (apply elem_of_cons in Hin as [Hin | Hin];
      [discriminate|]). by apply elem_of_nil in Hin. }
  apply elem_of_app in Hin as [Hin | Hin]; [done|].
  vm_compute in Hin. repeat (apply elem_of_cons in Hin as [Hin | Hin];
    [discriminate|]). by apply elem_of_nil in Hin.
Qed.

(** X9: the data URL of an image or a PDF is sent as the reader gave it:
    when the reader's URL is [data:<type>;base64,<data>] for the type of
    the file, and neither the type nor the data holds a comma, the
    [image_url] part carries that very URL. *)
Theorem data_url_sent_as_read (file : File) (base64 : str) :
  Texts.COMMA ∉ type file -> Texts.COMMA ∉ base64 ->
  dataURL file
  = Some (lit "data:" ++ type file ++ lit ";base64," ++ base64) ->
  (isImage file = true ->
   fileParts file
   = [ImageUrlPart (lit "data:" ++ type file ++ lit ";base64," ++ base64)]) /\
  (type file = lit "application/pdf" ->
   fileParts file
   = [pdfNote file;
      ImageUrlPart (lit "data:" ++ type file ++ lit ";base64," ++ base64)]).
Proof.
  intros Hm Hb Hu.
  assert (truthy (type file) = true -> mimeTypeOf file = type file) as Hmime.
  { unfold mimeTypeOf, orElse. by intros ->. }
  split.
  - intros Hi. unfold isImage in Hi.
    assert (truthy (type file) = true) as Ht.
    { destruct (type file) eqn:Et; [|done].
      unfold mimeTypeOf in Hi. rewrite Et in Hi. discriminate. }
    unfold fileParts. rewrite Hi, (Hmime Ht).
    by rewrite (fileToBase64_dataURL file (type file) base64).
  - intros Hp.
    assert (mimeTypeOf file = type file) as Ht by (apply Hmime; by rewrite Hp).
    unfold fileParts. rewrite Ht.
    rewrite (fileToBase64_dataURL file (type file) base64) by done.
    rewrite Hp. reflexivity.
Qed.

Lemma mapi_from_Forall2 {A B : Type} (R : A -> B -> Prop) (f : A -> nat -> B)
      (l : list A) :
  (forall a i, R a (f a i)) -> forall i, Forall2 R l (mapi_from f i l).
Proof.
  intros H. induction l as [|a l IH]; intros i; simpl; constructor; auto.
Qed.

(** X10: attaching files never adds, drops or reorders a message: the
    messages sent are as many as those given, each with the role of the
    one at its place and with its text, as the content or as the first
    text part of it. *)
Theorem messages_kept_in_place (messages : list Message) (files : list File) :
  Forall2 (fun msg sent =>
             sentRole sent = msgRole msg /\
             (sentContent sent = Plain (msgContent msg) \/
              exists parts,
                sentContent sent = Parts (TextPart (msgContent msg) :: parts)))
          messages (processedMessages messages files).
Proof.
  unfold processedMessages. case_match.
  - apply mapi_from_Forall2. intros msg i. case_match; simpl; eauto.
  - induction messages as [|msg messages IH]; simpl; constructor; eauto.
Qed.

(** X11: files go out only with a last message of role user: when the
    last message is of the assistant, or when there is no message, the
    files are left out and every message is sent unchanged. *)
Theorem files_need_a_user_message (messages : list Message) (files : list File) :
  (messages = [] \/
   exists init last, messages = init ++ [last] /\ msgRole last = Assistant) ->
  processedMessages messages files = map unchanged messages.
Proof.
  intros [-> | (init & last & -> & Hlast)].
  - unfold processedMessages. by case_match.
  - unfold processedMessages. case_match; [|done].
    rewrite (mapi_from_last (fun m => isUser (msgRole m))
               (fun m => {| sentRole := msgRole m;
                            sentContent :=
                              Parts (TextPart (msgContent m) :: fileContents files) |})
               unchanged (List.length (init ++ [last])) 0 init last).
    + rewrite Hlast. simpl. by rewrite map_app.
    + rewrite length_app. simpl. lia.
Qed.

(** X12: every file gives one part or two, two only for a PDF that is not
    typed as an image and whose read succeeds; so the parts are at least
    as many as the files and at most twice as many. *)
Theorem parts_per_file (files : list File) :
  (forall file,
     (List.length (fileParts file) = 1 \/ List.length (fileParts file) = 2) /\
     (List.length (fileParts file) = 2 <->
      isImage file = false /\ isPdf file = true /\ dataURL file <> None)) /\
  List.length files <= List.length (fileContents files)
                    <= 2 * List.length files.
Proof.
  assert (forall file,
     (List.length (fileParts file) = 1 \/ List.length (fileParts file) = 2) /\
     (List.length (fileParts file) = 2 <->
      isImage file = false /\ isPdf file = true /\ dataURL file <> None)) as H.
  { intros file. unfold fileParts, isImage, isPdf, fileToBase64.
    repeat case_match; simpl; split; try (by left); try (by right);
      split; try done; try lia; intros (? & ? & ?); congruence. }
  split; [exact H|].
  unfold fileContents. induction files as [|f files IH]; simpl; [lia|].
  rewrite length_app. destruct (H f) as [[Hf | Hf] _]; lia.
Qed.

End MoreFilesFacts.

Lemma data_url_sent_as_read_witness :
  Files.fileParts
    {| Files.name := lit "a.png"; Files.type := lit "image/png";
       Files.dataURL := Some (lit "data:image/png;base64,QUJD");
       Files.text := None |}
  = [Files.ImageUrlPart (lit "data:image/png;base64,QUJD")].
Proof.
  refine (proj1 (data_url_sent_as_read
            {| Files.name := lit "a.png"; Files.type := lit "image/png";
               Files.dataURL := Some (lit "data:image/png;base64,QUJD");
               Files.text := None |} (lit "QUJD") _ _ eq_refl) eq_refl).
  - vm_compute. intros H.
    repeat (apply elem_of_cons in H as [H | H]; [discriminate|]).
    by apply elem_of_nil in H.
  - vm_compute. intros H.
    repeat (apply elem_of_cons in H as [H | H]; [discriminate|]).
    by apply elem_of_nil in H.
Defined.

Lemma files_need_a_user_message_witness :
  Files.processedMessages
    [ {| Files.msgRole := Files.User; Files.msgContent := lit "look" |};
      {| Files.msgRole := Files.Assistant; Files.msgContent := lit "at what?" |} ]
    [ {| Files.name := lit "a.png"; Files.type := lit "image/png";
         Files.dataURL := Some (lit "data:image/png;base64,QUJD");
         Files.text := None |} ]
  = [ {| Files.sentRole := Files.User;
         Files.sentContent := Files.Plain (lit "look") |};
      {| Files.sentRole := Files.Assistant;
         Files.sentContent := Files.Plain (lit "at what?") |} ].
Proof.
  apply (files_need_a_user_message
           [ {| Files.msgRole := Files.User; Files.msgContent := lit "look" |};
             {| Files.msgRole := Files.Assistant;
                Files.msgContent := lit "at what?" |} ]).
  right.
  exists [ {| Files.msgRole := Files.User; Files.msgContent := lit "look" |} ],
         {| Files.msgRole := Files.Assistant; Files.msgContent := lit "at what?" |}.
  split; reflexivity.
Defined.

(** ** The page and the composer *)

Section BlankFacts.

Lemma trimStart_head (s : str) (c : ascii) (t : str) :
  trimStart s = c :: t -> isWhite c = false /\ forallb isWhite s = false.
Proof.
  induction s as [|a s IH]; simpl; [done|].
  destruct (isWhite a) eqn:E; simpl.
  - exact IH.
  - intros [= <- <-]. done.
Qed.

Lemma forallb_rev_white (s : str) :
  forallb isWhite (rev s) = forallb isWhite s.
Proof.
  induction s as [|c s IH]; simpl; [done|].
  rewrite forallb_app, IH. simpl. rewrite andb_true_r. apply andb_comm.
Qed.

(** A text trims to nothing exactly when it is made of white space. *)
Lemma trim_blank (s : str) : truthy (trim s) = negb (forallb isWhite s).
Proof.
  unfold trim, trimEnd.
  destruct (trimStart s) as [|c t] eqn:E.
  - apply trimStart_nil in E. by rewrite E.
  - apply trimStart_head in E as [Hc ->]. simpl.
    destruct (trimStart (rev t ++ [c])) as [|d u] eqn:E'.
    + apply trimStart_nil in E'. rewrite forallb_app in E'. simpl in E'.
      rewrite Hc, andb_false_r in E'. done.
    + simpl. by destruct (rev u).
Qed.

End BlankFacts.

Section MorePageFacts.

Import Page PageActions.

(** X13: a send whose answer completes, Clear Chat not being used while
    the answer streams, leaves the earlier messages as they were, followed
    by the user's message and, when the answer had a delta, by one
    assistant message whose text is the deltas put together, in order;
    the typing flag is cleared, and [speak] is called, once and with that
    text, exactly when voice was enabled when the message was sent (the
    handler holds the [isVoiceEnabled] of that render) and the text is
    not empty. *)
Theorem completed_send_shows_answer (v : bool) (tts : ttsAnswer) (pf : bool)
        (welcome : str) (now : N) (text : str) (acts : list action)
        (ds : list (value * N)) (later : N) (st : State) :
  callbacksOf acts = completedAnswer ds later ->
  existsb isClearChat acts = false ->
  let st' := sendAmong v tts pf welcome now text acts st in
  messages st' = messages st ++ [userMessage now text] ++ partialAnswer ds /\
  isTyping st' = false /\
  speakCalls st'
  = speakCalls st
    ++ (if v && truthy (textOf ds) then [textOf ds] else []).
Proof.
  intros Hacts Hclear.
  rewrite (sendAmong_callbacks v tts pf welcome now text acts st Hclear), Hacts.
  unfold handleSendMessage, completedAnswer.
  destruct (runCallbacks_deltas v tts pf (userMessage now text)
              [(Stream.OnDone, later)] ds (send now text st)
              (messages st) (userMessage now text) eq_refl eq_refl)
    as (st' & -> & Hm & _ & _ & Hs).
  cbn [runCallbacks]. unfold onDone.
  destruct (v && truthy (textOf ds)); simpl;
    rewrite Hm, Hs; simpl; by rewrite ?app_nil_r.
Qed.

(** X14: a delta changes the text of the last message when that message
    is of the assistant, and adds an assistant message otherwise; it never
    removes a message and never touches another one. *)
Theorem delta_touches_last_only (now : N) (c : str) (prev : list Message) :
  (forall ms a, prev = ms ++ [a] -> role_ a = Assistant ->
                updateMessages now c prev = ms ++ [withText c a]) /\
  ((prev = [] \/ exists ms a, prev = ms ++ [a] /\ role_ a = User) ->
   updateMessages now c prev
   = prev ++ [ {| id := toString (now + 1); role_ := Assistant;
                  content := c |} ]) /\
  exists m, updateMessages now c prev = removelast prev ++ [m] \/
            updateMessages now c prev = prev ++ [m].
Proof.
  assert (forall ms a, prev = ms ++ [a] -> role_ a = Assistant ->
                updateMessages now c prev = ms ++ [withText c a]) as H1.
  { intros ms a -> Ha. unfold updateMessages.
    rewrite last_role_snoc, Ha. apply setLastContent_snoc. }
  assert ((prev = [] \/ exists ms a, prev = ms ++ [a] /\ role_ a = User) ->
   updateMessages now c prev
   = prev ++ [ {| id := toString (now + 1); role_ := Assistant;
                  content := c |} ]) as H2.
  { intros [-> | (ms & a & -> & Ha)]; [done|].
    unfold updateMessages. by rewrite last_role_snoc, Ha. }
  split; [exact H1|]. split; [exact H2|].
  destruct prev as [|m0 prev0] using rev_ind.
  - eexists. right. apply H2. by left.
  - destruct (role_ m0) eqn:E.
    + eexists. right. apply H2. right. eauto.
    + eexists. left. rewrite removelast_last. by apply H1.
Qed.

(** X15: Clear Chat while an answer streams does not stop the answer: the
    deltas that follow write the text of the answer so far over the
    welcome message, which keeps its id, and no other message appears. *)
Theorem clear_chat_while_streaming (v : bool) (tts : ttsAnswer) (pf : bool)
        (user : Message) (welcome : str) (ac : str) (ds : list (value * N))
        (st : State) :
  ds <> [] ->
  messages
    (runCallbacks v tts pf user
       (map (fun d => (Stream.OnDelta (fst d), snd d)) ds) ac
       (handleClearChat welcome st))
  = [ {| id := WELCOME_id; role_ := Assistant;
         content := ac ++ textOf ds |} ].
Proof.
  destruct ds as [|[d t] ds]; [done|]. intros _.
  cbn [map runCallbacks fst snd onDelta].
  destruct (runCallbacks_more v tts pf user [] ds (ac ++ toText d)
              {| messages := updateMessages t (ac ++ toText d)
                               (messages (handleClearChat welcome st));
                 isTyping := isTyping (handleClearChat welcome st);
                 effects := effects (handleClearChat welcome st);
                 speakCalls := speakCalls (handleClearChat welcome st) |}
              [] WELCOME_id eq_refl)
    as (st' & Hrun & Hm & _).
  rewrite app_nil_r in Hrun. rewrite Hrun. simpl. rewrite Hm.
  unfold textOf. simpl. by rewrite <- app_assoc.
Qed.

End MorePageFacts.

Section ComposerFacts.

Import Composer.

Lemma filteri_from_shift {A : Type} (index i : nat) (xs : list A) :
  filteri_from (fun _ j => negb (j =? i + index)) i xs
  = take index xs ++ drop (S index) xs.
Proof.
  revert i index. induction xs as [|x xs IH]; intros i index; simpl.
  - by destruct index.
  - destruct index as [|index]; simpl.
    + rewrite Nat.add_0_r, Nat.eqb_refl. simpl.
      clear IH. rewrite drop_0.
      assert (forall k, i < k ->
                filteri_from (fun (_ : A) j => negb (j =? i)) k xs = xs) as H.
      { induction xs as [|y ys IHy]; intros k Hk; simpl; [done|].
        destruct (Nat.eqb_spec k i); [lia|]. simpl. f_equal. apply IHy. lia. }
      apply H. lia.
    + destruct (Nat.eqb_spec i (i + S index)); [lia|]. simpl. f_equal.
      replace (i + S index) with (S i + index) by lia. apply IH.
Qed.

(** X16: removing the file at an index shown in the list takes that one
    file away and keeps the others in their order; at any other index
    nothing changes.  The text typed so far is kept. *)
Theorem removeFile_takes_one (index : nat) (st : State) :
  selectedFiles (removeFile index st)
  = take index (selectedFiles st) ++ drop (S index) (selectedFiles st) /\
  (index < List.length (selectedFiles st) ->
   S (List.length (selectedFiles (removeFile index st)))
   = List.length (selectedFiles st)) /\
  (List.length (selectedFiles st) <= index -> removeFile index st = st) /\
  message (removeFile index st) = message st.
Proof.
  assert (selectedFiles (removeFile index st)
          = take index (selectedFiles st) ++ drop (S index) (selectedFiles st))
    as H by apply (filteri_from_shift index 0).
  split; [exact H|]. split; [|split]; [| |done].
  - intros Hi. rewrite H, length_app, length_take, length_drop. lia.
  - intros Hi. destruct st as [m fs]. unfold removeFile in *. simpl in *.
    f_equal. rewrite H, take_ge, drop_ge by lia. apply app_nil_r.
Qed.

(** X17: a key press sends exactly when the key is Enter without Shift,
    the composer is not disabled and the text has a character that is not
    white space; the text goes out as typed, with the selected files
    ([undefined] when there is none), and the composer is emptied.  In
    every other case nothing is sent and text and files stay. *)
Theorem enter_sends (key : str) (shiftKey disabled : bool) (st : State) :
  (key = lit "Enter" /\ shiftKey = false /\ disabled = false /\
   (exists c, c ∈ message st /\ isWhite c = false) /\
   handleKeyDown key shiftKey disabled st
   = (Some (message st,
            match selectedFiles st with
            | [] => None
            | _ :: _ => Some (selectedFiles st)
            end),
      {| message := []; selectedFiles := [] |})) \/
  ((key <> lit "Enter" \/ shiftKey = true \/ disabled = true \/
    Forall (fun c => isWhite c = true) (message st)) /\
   handleKeyDown key shiftKey disabled st = (None, st)).
Proof.
  unfold handleKeyDown, handleSubmit, str_eqb. rewrite trim_blank.
  destruct (decide (key = lit "Enter")) as [Hk | Hk].
  2:{ right. rewrite bool_decide_eq_false_2 by done. simpl. auto. }
  rewrite bool_decide_eq_true_2 by done.
  destruct shiftKey; simpl; [right; auto|].
  destruct (forallb isWhite (message st)) eqn:Hw; simpl.
  { right. split; [|done]. do 3 right.
    apply Forall_forall. intros c Hc. rewrite forallb_forall in Hw.
    apply Hw. by apply list_elem_of_In. }
  destruct disabled; simpl; [right; auto|].
  left. split_and!; try done.
  - clear -Hw. induction (message st) as [|c s IH]; simpl in *; [done|].
    destruct (isWhite c) eqn:E; simpl in *.
    + destruct (IH Hw) as (d & Hd & Hd'). exists d. split; [by right | done].
    + exists c. split; [by left | done].
  - by destruct (selectedFiles st).
Qed.

(** X18: nothing is sent twice: right after a send, no key press sends
    again, whatever the key, until something is typed. *)
Theorem no_double_send (key : str) (shiftKey disabled : bool) (st st' : State)
        (sent : sending) :
  handleKeyDown key shiftKey disabled st = (Some sent, st') ->
  forall key' shiftKey' disabled',
    handleKeyDown key' shiftKey' disabled' st' = (None, st').
Proof.
  unfold handleKeyDown, handleSubmit. intros H key' shiftKey' disabled'.
  repeat case_match; simplify_eq; done.
Qed.

End ComposerFacts.

Lemma clear_chat_while_streaming_witness :
  Page.messages
    (Page.runCallbacks false None false
       (Page.userMessage 5 (lit "hi"))
       [(Stream.OnDelta (VString (lit "lo")), 9%N)] (lit "Hel")
       (PageActions.handleClearChat (lit "Welcome!")
          {| Page.messages := [Page.userMessage 5 (lit "hi")];
             Page.isTyping := true; Page.effects := [];
             Page.speakCalls := [] |}))
  = [ {| Page.id := lit "welcome"; Page.role_ := Page.Assistant;
         Page.content := lit "Hello" |} ].
Proof.
  apply (clear_chat_while_streaming false None false
           (Page.userMessage 5 (lit "hi")) (lit "Welcome!") (lit "Hel")
           [(VString (lit "lo"), 9%N)]).
  discriminate.
Defined.

Lemma completed_send_shows_answer_witness :
  Page.messages
    (PageActions.sendAmong false None false (lit "Welcome!") 5 (lit "hi")
       [PageActions.Callback (Stream.OnDelta (VString (lit "Hel"))) 8%N;
        PageActions.Callback (Stream.OnDelta (VNumber (lit "5"))) 9%N;
        PageActions.Callback Stream.OnDone 9%N]
       {| Page.messages := []; Page.isTyping := false; Page.effects := [];
          Page.speakCalls := [] |})
  = [Page.userMessage 5 (lit "hi");
     {| Page.id := lit "9"; Page.role_ := Page.Assistant;
        Page.content := lit "Hel5" |}].
Proof.
  refine (proj1 (completed_send_shows_answer false None false (lit "Welcome!")
                   5 (lit "hi")
                   [PageActions.Callback (Stream.OnDelta (VString (lit "Hel"))) 8%N;
                    PageActions.Callback (Stream.OnDelta (VNumber (lit "5"))) 9%N;
                    PageActions.Callback Stream.OnDone 9%N]
                   [(VString (lit "Hel"), 8%N); (VNumber (lit "5"), 9%N)]
                   9%N
                   {| Page.messages := []; Page.isTyping := false;
                      Page.effects := []; Page.speakCalls := [] |}
                   eq_refl eq_refl)).
Defined.

Lemma no_double_send_witness :
  Composer.handleKeyDown (lit "Enter") false false
    {| Composer.message := []; Composer.selectedFiles := [] |}
  = (None, {| Composer.message := []; Composer.selectedFiles := [] |}).
Proof.
  apply (no_double_send (lit "Enter") false false
           {| Composer.message := lit "hello"; Composer.selectedFiles := [] |}
           {| Composer.message := []; Composer.selectedFiles := [] |}
           (lit "hello", None)).
  reflexivity.
Defined.

Lemma delta_touches_last_only_witness :
  Page.updateMessages 9 (lit "Hello")
    [Page.userMessage 5 (lit "hi");
     {| Page.id := lit "10"; Page.role_ := Page.Assistant;
        Page.content := lit "Hel" |}]
  = [Page.userMessage 5 (lit "hi");
     {| Page.id := lit "10"; Page.role_ := Page.Assistant;
        Page.content := lit "Hello" |}].
Proof.
  apply (proj1 (delta_touches_last_only 9 (lit "Hello")
                  [Page.userMessage 5 (lit "hi");
                   {| Page.id := lit "10"; Page.role_ := Page.Assistant;
                      Page.content := lit "Hel" |}])
               [Page.userMessage 5 (lit "hi")]
               {| Page.id := lit "10"; Page.role_ := Page.Assistant;
                  Page.content := lit "Hel" |});
    reflexivity.
Defined.

(** ** The upload component and the voice switch *)

Section UploadFacts.

Import Upload.

Context {A : Type}.

(** X19: a file of a type that is not accepted, or larger than
    [maxSizeMB] megabytes, is never read and never sent to the function:
    one toast is shown, for the type when both are wrong, and preview,
    result and uploading flag stay as they were. *)
Theorem invalid_file_not_uploaded (acceptedTypes : list str) (maxSizeMB : N)
        (file : File) (invoke : str -> thrown + A) (st : State A) :
  type file ∉ acceptedTypes \/ (maxSizeMB * 1024 * 1024 < size file)%N ->
  exists title description,
    handleUpload acceptedTypes maxSizeMB file invoke st
    = ([], {| preview := preview st; isUploading := isUploading st;
              uploadedResult := uploadedResult st;
              toasts := toasts st ++ [(title, description)];
              completed := completed st |}) /\
    (title = lit "Invalid file type" <-> type file ∉ acceptedTypes) /\
    (title = lit "File too large" <-> type file ∈ acceptedTypes).
Proof.
  intros H. unfold handleUpload, validateFile.
  assert (includes acceptedTypes (type file) = true
          <-> type file ∈ acceptedTypes) as Hin.
  { unfold includes. rewrite existsb_exists. split.
    - intros (x & Hx & E). apply bool_decide_eq_true in E. subst.
      by apply list_elem_of_In.
    - intros Hx. exists (type file). split; [by apply list_elem_of_In|].
      by apply bool_decide_eq_true. }
  destruct (includes acceptedTypes (type file)) eqn:E; simpl.
  - assert (type file ∈ acceptedTypes) as Hy by by apply Hin.
    destruct H as [H | H]; [done|].
    apply N.ltb_lt in H. rewrite H. simpl. do 2 eexists.
    split; [reflexivity|]. split; [|done]. split; [discriminate | done].
  - assert (type file ∉ acceptedTypes) as Hn.
    { intros Hy. apply Hin in Hy. discriminate. }
    do 2 eexists. split; [reflexivity|]. split; [done|].
    split; [discriminate | done].
Qed.

(** X20: for a file of an accepted type and of at most [maxSizeMB]
    megabytes (the limit included), the upload ends with the uploading
    flag cleared and one more toast, whatever fails; the function is
    called at most once, with the data URL read from the file; a result
    is kept, and handed to [onUploadComplete], exactly when the function
    answered with data, and a failed call leaves the preview without
    result. *)
Theorem valid_file_upload (acceptedTypes : list str) (maxSizeMB : N)
        (file : File) (invoke : str -> thrown + A) (st : State A) :
  type file ∈ acceptedTypes -> (size file <= maxSizeMB * 1024 * 1024)%N ->
  let '(calls, st') := handleUpload acceptedTypes maxSizeMB file invoke st in
  isUploading st' = false /\
  (exists t, toasts st' = toasts st ++ [t]) /\
  match read file with
  | inl _ =>
      calls = [] /\ preview st' = preview st /\
      uploadedResult st' = uploadedResult st /\ completed st' = completed st
  | inr base64 =>
      calls = [base64] /\ preview st' = Some base64 /\
      match invoke base64 with
      | inr data =>
          uploadedResult st' = Some data /\
          completed st' = completed st ++ [data]
      | inl _ => uploadedResult st' = None /\ completed st' = completed st
      end
  end.
Proof.
  intros Hin Hs. unfold handleUpload, validateFile.
  assert (includes acceptedTypes (type file) = true) as ->.
  { unfold includes. rewrite existsb_exists. exists (type file).
    split; [by apply list_elem_of_In | by apply bool_decide_eq_true]. }
  apply N.ltb_ge in Hs. rewrite Hs. simpl.
  destruct (read file) as [e | base64]; simpl; [eauto 10|].
  destruct (invoke base64) as [e | data]; simpl; eauto 10.
Qed.

End UploadFacts.

Section VoiceFacts.

Import Voice.

(** X21: switching voice twice, off and on or on and off, gives back the
    setting and is one [stopSpeaking]: the audio element that was playing
    is paused once and forgotten, and nothing is marked as speaking. *)
Theorem toggle_twice_stops (st : State) :
  toggleVoice (toggleVoice st) = stopSpeaking st /\
  isVoiceEnabled (toggleVoice (toggleVoice st)) = isVoiceEnabled st /\
  isSpeaking (toggleVoice (toggleVoice st)) = false /\
  audioRef (toggleVoice (toggleVoice st)) = None.
Proof.
  assert (toggleVoice (toggleVoice st) = stopSpeaking st) as H.
  { destruct st as [[] s [a|] p]; unfold toggleVoice, stopSpeaking; simpl;
      by rewrite ?app_nil_r. }
  rewrite H. done.
Qed.

End VoiceFacts.

Lemma invalid_file_not_uploaded_witness :
  exists title description,
    Upload.handleUpload [lit "image/png"] 10
      {| Upload.type := lit "image/png"; Upload.size := 10485761;
         Upload.read := inr (lit "data:image/png;base64,QUJD") |}
      (fun _ : str => inr 7%N)
      {| Upload.preview := None; Upload.isUploading := false;
         Upload.uploadedResult := None; Upload.toasts := [];
         Upload.completed := [] |}
    = ([], {| Upload.preview := None; Upload.isUploading := false;
              Upload.uploadedResult := None;
              Upload.toasts := [] ++ [(title, description)];
              Upload.completed := [] |}) /\
    (title = lit "Invalid file type" <-> lit "image/png" ∉ [lit "image/png"]) /\
    (title = lit "File too large" <-> lit "image/png" ∈ [lit "image/png"]).
Proof.
  apply (invalid_file_not_uploaded [lit "image/png"] 10
           {| Upload.type := lit "image/png"; Upload.size := 10485761;
              Upload.read := inr (lit "data:image/png;base64,QUJD") |}
           (fun _ : str => inr 7%N)
           {| Upload.preview := None; Upload.isUploading := false;
              Upload.uploadedResult := None; Upload.toasts := [];
              Upload.completed := [] |}).
  right. simpl. lia.
Defined.

Lemma valid_file_upload_witness :
  Upload.isUploading
    (snd (Upload.handleUpload [lit "image/png"] 10
            {| Upload.type := lit "image/png"; Upload.size := 10485760;
               Upload.read := inr (lit "data:image/png;base64,QUJD") |}
            (fun _ : str => inr 7%N)
            {| Upload.preview := None; Upload.isUploading := false;
               Upload.uploadedResult := None; Upload.toasts := [];
               Upload.completed := [] |})) = false.
Proof.
  pose proof (valid_file_upload [lit "image/png"] 10
           {| Upload.type := lit "image/png"; Upload.size := 10485760;
              Upload.read := inr (lit "data:image/png;base64,QUJD") |}
           (fun _ : str => inr 7%N)
           {| Upload.preview := None; Upload.isUploading := false;
              Upload.uploadedResult := None; Upload.toasts := [];
              Upload.completed := [] |}
           ltac:(by apply list_elem_of_here) ltac:(simpl; lia)) as H.
  destruct (Upload.handleUpload _ _ _ _ _) as [calls st'].
  exact (proj1 H).
Defined.

(** ** The functions: outcomes *)

Section ChatFacts.

Import Edge.

Local Open Scope string_scope.
Local Open Scope list_scope.

Local Ltac refuted :=
  let H := fresh in
  intros H; destruct H as (? & ? & ? & ? & ? & ?); congruence.

(** X22: the chat function streams only what the gateway accepted: to a
    request other than OPTIONS it answers either with status 200 and the
    gateway's body as an event stream, which it does exactly when the key
    is set, the request holds messages and the gateway answered ok, or
    with a JSON object holding one [error] text, under status 429, 402 or
    500. *)
Theorem chat_streams_only_accepted (LOVABLE_API_KEY : option str)
        (gateway : list Files.Sent -> attempt Completion) (req : ChatRequest) :
  chatMethod req <> "OPTIONS" ->
  (exists messages response,
     chatJson req = inr (Some messages) /\ missing LOVABLE_API_KEY = false /\
     gateway messages = inr response /\ completionOk response = true /\
     chat LOVABLE_API_KEY gateway req
     = {| status := 200; headers := withContentType "text/event-stream";
          body := Forwarded (completionBody response) |}) \/
  (exists code message,
     chat LOVABLE_API_KEY gateway req
     = {| status := code; headers := withContentType "application/json";
          body := Json [("error", JStr message)] |} /\
     (code = 429 \/ code = 402 \/ code = 500)%N /\
     ~ (exists messages response,
          chatJson req = inr (Some messages) /\
          missing LOVABLE_API_KEY = false /\
          gateway messages = inr response /\ completionOk response = true)).
Proof.
  intros Hm. apply String.eqb_neq in Hm. unfold chat, caught. rewrite Hm.
  destruct (chatJson req) as [e | [messages|]] eqn:Hj; simpl.
  - right. do 2 eexists. split; [reflexivity|]. split; [auto | refuted].
  - destruct (missing LOVABLE_API_KEY) eqn:Hk; simpl.
    { right. do 2 eexists. split; [reflexivity|]. split; [auto | refuted]. }
    destruct (gateway messages) as [e | response] eqn:Hg; simpl.
    { right. do 2 eexists. split; [reflexivity|]. split; [auto | refuted]. }
    destruct (completionOk response) eqn:Ho; simpl.
    { left. exists messages, response. done. }
    right.
    destruct (completionText response) as [e | t]; simpl.
    { do 2 eexists. split; [reflexivity|]. split; [auto | refuted]. }
    destruct (completionStatus response =? 429)%N.
    { do 2 eexists. split; [reflexivity|]. split; [auto | refuted]. }
    destruct (completionStatus response =? 402)%N.
    { do 2 eexists. split; [reflexivity|]. split; [auto | refuted]. }
    do 2 eexists. split; [reflexivity|]. split; [auto | refuted].
  - right. destruct (missing LOVABLE_API_KEY); simpl;
      (do 2 eexists; split; [reflexivity|]; split; [auto | refuted]).
Qed.

Variable JSON_parse : str -> option Stream.Chunk.


(** X24: the notification function answers 200 with [success: true]
    exactly when the key is set, the request is read, the mail service
    answers ok and its answer reads as JSON; in every other case it
    answers 500 with an [error] text, which starts with
    "Failed to send email: " when the mail service refused.  Without the
    key the answer does not depend on the mail service. *)
Theorem signup_mail_outcome (RESEND_API_KEY : option str)
        (resend : option str * option str -> attempt Mail)
        (req : SignupRequest) :
  signupMethod req <> "OPTIONS" ->
  let r := signupNotification RESEND_API_KEY resend req in
  let sent :=
    exists user mail,
      signupJson req = inr user /\ missing RESEND_API_KEY = false /\
      resend user = inr mail /\ mailOk mail = true /\
      mailJson mail = inr tt in
  (sent /\ r = {| status := 200; headers := withContentType "application/json";
                  body := Json [("success", JBool true)] |}) \/
  (~ sent /\
   exists message,
     r = {| status := 500; headers := withContentType "application/json";
            body := Json [("error", JStr message)] |} /\
     (forall user mail text,
        signupJson req = inr user -> missing RESEND_API_KEY = false ->
        resend user = inr mail -> mailOk mail = false ->
        mailText mail = inr text ->
        message = lit "Failed to send email: " ++ text) /\
     (missing RESEND_API_KEY = true ->
      forall resend', signupNotification RESEND_API_KEY resend' req = r)).
Proof.
  intros Hm. apply String.eqb_neq in Hm. unfold signupNotification, caught.
  rewrite Hm. cbv zeta.
  destruct (signupJson req) as [e | user] eqn:Hj; simpl.
  { right. split; [intros (? & ? & ? & _); done|]. eexists.
    split; [reflexivity|]. split; [intros; congruence | done]. }
  destruct (missing RESEND_API_KEY) eqn:Hk; simpl.
  { right. split; [intros (? & ? & _ & ? & _); done|]. eexists.
    split; [reflexivity|]. split; [intros; congruence | done]. }
  destruct (resend user) as [e | mail] eqn:Hr; simpl.
  { right. split; [intros (? & ? & ? & _ & ? & _); congruence|]. eexists.
    split; [reflexivity|]. split; [intros; congruence | done]. }
  destruct (mailOk mail) eqn:Ho; simpl.
  - destruct (mailJson mail) as [e | []] eqn:Hs; simpl.
    + right. split; [intros (? & ? & ? & _ & ? & _ & ?); congruence|].
      eexists. split; [reflexivity|]. split; [intros; congruence | done].
    + left. split; [|done]. exists user, mail. done.
  - right. split; [intros (? & ? & ? & _ & ? & ? & _); congruence|].
    destruct (mailText mail) as [e | text] eqn:Ht; simpl.
    + eexists. split; [reflexivity|]. split; [intros; congruence | done].
    + eexists. split; [reflexivity|]. split; [|done].
      intros ? ? ? H1 _ H2 _ H3. cbn [app]. congruence.
Qed.

End ChatFacts.

Section CloudinaryFacts.

Import Edge.

Local Open Scope string_scope.
Local Open Scope list_scope.

Variable digestSHA1 : list N -> list N.


(** X25: the image function contacts the image service at most once a
    request, and only for an upload or a delete with the three
    credentials set: the post goes to the upload or to the destroy address
    of the cloud, and its form has the fields [file] or [public_id],
    [api_key], [timestamp] and [signature], in that order and no other,
    the second being the API key.  A transform, an OPTIONS request, another
    action or a missing credential, file or public id contacts nothing.
    Every answer has status 200 or 500. *)
Theorem cloudinary_contacts_service
        (CLOUDINARY_CLOUD_NAME CLOUDINARY_API_KEY CLOUDINARY_API_SECRET
           : option str) (now : N)
        (upload : Post -> attempt UploadAnswer)
        (destroy : Post -> attempt (attempt DeleteJson))
        (req : CloudinaryRequest) :
  let '(posts, r) :=
    cloudinary digestSHA1 CLOUDINARY_CLOUD_NAME CLOUDINARY_API_KEY
      CLOUDINARY_API_SECRET now upload destroy req in
  (status r = 200 \/ status r = 500)%N /\
  (posts = [] \/
   exists post cloudName apiKey apiSecret json,
     posts = [post] /\
     cloudinaryMethod req <> "OPTIONS" /\
     CLOUDINARY_CLOUD_NAME = Some cloudName /\ truthy cloudName = true /\
     CLOUDINARY_API_KEY = Some apiKey /\ truthy apiKey = true /\
     CLOUDINARY_API_SECRET = Some apiSecret /\ truthy apiSecret = true /\
     cloudinaryJson req = inr json /\
     field "api_key" (form post) = Some apiKey /\
     ((action json = Some (lit "upload") /\
       url post = lit "https://api.cloudinary.com/v1_1/" ++ cloudName
                  ++ lit "/image/upload" /\
       map fst (form post) = ["file"; "api_key"; "timestamp"; "signature"] /\
       field "file" (form post) = Some (template_ (file json)) /\
       missing (file json) = false) \/
      (action json = Some (lit "delete") /\
       url post = lit "https://api.cloudinary.com/v1_1/" ++ cloudName
                  ++ lit "/image/destroy" /\
       map fst (form post)
       = ["public_id"; "api_key"; "timestamp"; "signature"] /\
       field "public_id" (form post) = Some (template_ (publicId json)) /\
       missing (publicId json) = false))).
Proof.
  unfold cloudinary.
  destruct (String.eqb (cloudinaryMethod req) "OPTIONS") eqn:Hm;
    [split; auto|].
  apply String.eqb_neq in Hm.
  destruct CLOUDINARY_CLOUD_NAME as [cloudName|]; [|split; auto].
  destruct CLOUDINARY_API_KEY as [apiKey|]; [|split; auto].
  destruct CLOUDINARY_API_SECRET as [apiSecret|]; [|split; auto].
  destruct (truthy cloudName) eqn:Hn; [|split; auto].
  destruct (truthy apiKey) eqn:Hk; [|split; auto].
  destruct (truthy apiSecret) eqn:Hs; [|split; auto].
  cbn [negb orb].
  destruct (cloudinaryJson req) as [e | json] eqn:Hj; [split; auto|].
  destruct (isAction "upload" (action json)) eqn:Hu.
  { destruct (missing (file json)) eqn:Hf; [split; auto|].
    split.
    - destruct (upload _) as [e | answer]; simpl; [auto|].
      destruct (uploadOk answer); simpl.
      + destruct (uploadJson answer); simpl; auto.
      + destruct (uploadText answer); simpl; auto.
    - right. do 5 eexists. split; [reflexivity|].
      split_and!; try done. left. split_and!; try done.
      unfold isAction in Hu. destruct (action json) as [a|]; [|done].
      apply bool_decide_eq_true in Hu. by subst. }
  destruct (isAction "transform" (action json)) eqn:Ht.
  { destruct (missing (publicId json)); split; auto. }
  destruct (isAction "delete" (action json)) eqn:Hd; [|split; auto].
  destruct (missing (publicId json)) eqn:Hp; [split; auto|].
  split.
  - destruct (destroy _) as [e | [e | [typeError | result]]]; simpl; auto.
  - right. do 5 eexists. split; [reflexivity|].
    split_and!; try done. right. split_and!; try done.
    unfold isAction in Hd. destruct (action json) as [a|]; [|done].
    apply bool_decide_eq_true in Hd. by subst.
Qed.

(** X26: a transform builds the address of the picture from the cloud
    name, the transformations and the public id, with
    [w_500,h_500,c_fill] when the request gives no transformations or an
    empty text; a delete is answered with status 200 when the image
    service's answer reads as JSON other than [null], with [success] true
    exactly when its [result] is the text "ok", whatever the status of
    that answer; it is answered with 500 when the service cannot be
    reached, when its answer does not read as JSON, and when it is
    [null], of which [result] cannot be read. *)
Theorem transform_and_delete_answers
        (cloudName apiKey apiSecret : str) (now : N)
        (upload : Post -> attempt UploadAnswer)
        (destroy : Post -> attempt (attempt DeleteJson))
        (req : CloudinaryRequest) (json : CloudinaryJson) (id : str) :
  cloudinaryMethod req <> "OPTIONS" ->
  truthy cloudName = true -> truthy apiKey = true ->
  truthy apiSecret = true ->
  cloudinaryJson req = inr json ->
  publicId json = Some id -> truthy id = true ->
  let r := snd (cloudinary digestSHA1 (Some cloudName) (Some apiKey)
                  (Some apiSecret) now upload destroy req) in
  (action json = Some (lit "transform") ->
   r = {| status := 200; headers := withContentType "application/json";
          body := Json
            [("url",
              JStr (lit "https://res.cloudinary.com/" ++ cloudName
                    ++ lit "/image/upload/"
                    ++ match transformations json with
                       | Some (c :: t) => c :: t
                       | _ => lit "w_500,h_500,c_fill"
                       end
                    ++ lit "/" ++ id))] |}) /\
  (action json = Some (lit "delete") ->
   forall post,
     fst (cloudinary digestSHA1 (Some cloudName) (Some apiKey)
            (Some apiSecret) now upload destroy req) = [post] ->
     match destroy post with
     | inr (inr (DeleteValue result)) =>
         r = {| status := 200; headers := withContentType "application/json";
                body := Json [("success",
                               JBool (bool_decide (result = Some (lit "ok"))))] |}
     | inr (inr (DeleteNull typeError)) => r = caught (ErrorObject typeError)
     | inr (inl e) | inl e => r = caught e
     end).
Proof.
  intros Hm Hn Hk Hs Hj Hp Hi. apply String.eqb_neq in Hm.
  unfold cloudinary. rewrite Hm, Hn, Hk, Hs, Hj. cbn [negb orb].
  split.
  - intros Ha. rewrite Ha, Hp. simpl. rewrite Hi. simpl.
    do 4 f_equal. unfold orElse.
    by destruct (transformations json) as [[|c t]|].
  - intros Ha post. rewrite Ha, Hp. simpl. rewrite Hi. simpl.
    intros [= <-].
    destruct (destroy _) as [e | [e | [typeError | result]]]; simpl;
      try done.
    do 5 f_equal. destruct result as [res|]; [|done].
    unfold str_eqb. apply bool_decide_ext. split; [by intros -> | by intros [= ->]].
Qed.

Lemma unhex_hexBytes (bs : list N) :
  Forall (fun b => (b < 256)%N) bs ->
  Texts.unhex (concat (map hexByte bs)) = Some bs /\
  List.length (concat (map hexByte bs)) = 2 * List.length bs.
Proof.
  induction 1 as [|b bs Hb _ [IH1 IH2]]; [done|].
  pose proof (hexByte_roundtrip b Hb) as Hr.
  cbn [map concat]. destruct (hexByte b) as [|h [|l [|? ?]]] eqn:E;
    try (by vm_compute in Hr).
  cbn [app Texts.unhex List.length]. rewrite Hr, IH1, IH2. split; [done | lia].
Qed.

(** X27: a signature can be read back: when the digest is made of bytes,
    the signature has two characters a byte of the digest (40 for SHA-1's
    20 bytes), and reading its pairs of hexadecimal digits gives the
    digest again, so two digests that differ never sign alike. *)
Theorem signature_reads_back (paramsToSign secret : str) :
  Forall (fun b => (b < 256)%N) (digestSHA1 (encode (paramsToSign ++ secret))) ->
  Texts.unhex (sign digestSHA1 paramsToSign secret)
  = Some (digestSHA1 (encode (paramsToSign ++ secret))) /\
  List.length (sign digestSHA1 paramsToSign secret)
  = 2 * List.length (digestSHA1 (encode (paramsToSign ++ secret))).
Proof. intros H. unfold sign. by apply unhex_hexBytes. Qed.

End CloudinaryFacts.

Section MoreTriggerFacts.

Import Trigger.

Local Open Scope string_scope.
Local Open Scope list_scope.

Variable settings : gmap string str.

(** X28: sign-ups depend on the two settings: an insertion of one row or
    more goes through exactly when [app.settings.supabase_url] and
    [app.settings.service_role_key] are both defined; when one is not,
    the trigger raises and nothing is stored or queued.  A post carries
    the service role key as a bearer token. *)
Theorem signups_need_settings (db : Db) (rows : list Row) :
  (is_Some (insertRows settings db rows) <->
   rows = [] \/
   (is_Some (settings !! "app.settings.supabase_url") /\
    is_Some (settings !! "app.settings.service_role_key"))) /\
  (forall db' post service_role_key,
     insertRows settings db rows = Some db' ->
     post ∈ drop (List.length (queue db)) (queue db') ->
     settings !! "app.settings.service_role_key" = Some service_role_key ->
     headers post !! "Authorization" = Some (lit "Bearer " ++ service_role_key)).
Proof.
  split.
  - revert db. induction rows as [|row rows IH]; intros db; simpl.
    { split; [auto | intros _; eauto]. }
    unfold insertRow, notify_new_signup, current_setting.
    destruct (settings !! "app.settings.supabase_url") as [u|] eqn:Hu.
    2:{ split; [by intros [? ?] | intros [? | [[? ?] _]]; done]. }
    destruct (settings !! "app.settings.service_role_key") as [k|] eqn:Hk.
    2:{ split; [by intros [? ?] | intros [? | [_ [? ?]]]; done]. }
    rewrite IH. split; [intros _; right; eauto|].
    intros _. right. split; eauto.
  - intros db' post k H Hin Hk.
    apply insertRows_Some in H as (_ & posts & Hq & Hall).
    rewrite Hq, drop_app_length in Hin.
    apply list_elem_of_In in Hin.
    clear Hq. induction Hall as [|row p rows posts Hp _ IH]; [done|].
    destruct Hin as [-> | Hin]; [|by apply IH].
    unfold notify_new_signup, current_setting in Hp.
    destruct (settings !! "app.settings.supabase_url"); [|done].
    destruct (settings !! "app.settings.service_role_key"); [|done].
    simplify_eq. simpl. rewrite lookup_insert_ne by done.
    by rewrite lookup_singleton.
Qed.

End MoreTriggerFacts.

Lemma chat_streams_only_accepted_witness :
  Edge.chat None (fun _ => inl OtherValue)
    {| Edge.chatMethod := "POST"; Edge.chatJson := inr (Some []) |}
  = {| Edge.status := 500;
       Edge.headers := Edge.withContentType "application/json";
       Edge.body := Edge.Json [("error"%string,
                                Edge.JStr (lit "LOVABLE_API_KEY is not configured"))] |}.
Proof.
  destruct (chat_streams_only_accepted None (fun _ => inl OtherValue)
              {| Edge.chatMethod := "POST"; Edge.chatJson := inr (Some []) |})
    as [(messages & response & _ & Hk & _) | _].
  - discriminate.
  - discriminate Hk.
  - reflexivity.
Defined.


Lemma signup_mail_outcome_witness :
  Edge.signupNotification (Some (lit "key"))
    (fun _ => inr {| Edge.mailOk := true; Edge.mailText := inr [];
                     Edge.mailJson := inr tt |})
    {| Edge.signupMethod := "POST";
       Edge.signupJson := inr (Some (lit "ada@example.org"), None) |}
  = {| Edge.status := 200;
       Edge.headers := Edge.withContentType "application/json";
       Edge.body := Edge.Json [("success"%string, Edge.JBool true)] |}.
Proof.
  destruct (signup_mail_outcome (Some (lit "key"))
              (fun _ => inr {| Edge.mailOk := true; Edge.mailText := inr [];
                               Edge.mailJson := inr tt |})
              {| Edge.signupMethod := "POST";
                 Edge.signupJson := inr (Some (lit "ada@example.org"), None) |})
    as [[_ H] | [_ (message & H & _)]].
  - discriminate.
  - exact H.
  - reflexivity.
Defined.

Lemma transform_and_delete_answers_witness :
  snd (Edge.cloudinary Edge.sampleDigest
         (Some (lit "demo")) (Some (lit "key")) (Some (lit "secret"))
         1700000000499%N (fun _ => inl OtherValue) (fun _ => inl OtherValue)
         {| Edge.cloudinaryMethod := "POST";
            Edge.cloudinaryJson :=
              inr {| Edge.action := Some (lit "transform");
                     Edge.file := None;
                     Edge.publicId := Some (lit "cat");
                     Edge.transformations := Some [] |} |})
  = {| Edge.status := 200;
       Edge.headers := Edge.withContentType "application/json";
       Edge.body := Edge.Json
         [("url"%string,
           Edge.JStr (lit "https://res.cloudinary.com/demo/image/upload/w_500,h_500,c_fill/cat"))] |}.
Proof.
  refine (proj1 (transform_and_delete_answers Edge.sampleDigest
            (lit "demo") (lit "key") (lit "secret") 1700000000499%N
            (fun _ => inl OtherValue) (fun _ => inl OtherValue)
            {| Edge.cloudinaryMethod := "POST";
               Edge.cloudinaryJson :=
                 inr {| Edge.action := Some (lit "transform");
                        Edge.file := None;
                        Edge.publicId := Some (lit "cat");
                        Edge.transformations := Some [] |} |}
            _ (lit "cat") _ eq_refl eq_refl eq_refl eq_refl eq_refl eq_refl)
          eq_refl).
  discriminate.
Defined.

Lemma signature_reads_back_witness :
  Texts.unhex (Edge.sign Edge.sampleDigest (lit "timestamp=1700000000")
                 (lit "secret"))
  = Some [26; 0; 171; 255]%N.
Proof.
  refine (proj1 (signature_reads_back Edge.sampleDigest
                   (lit "timestamp=1700000000") (lit "secret") _)).
  vm_compute. repeat constructor.
Defined.

Lemma signups_need_settings_witness :
  is_Some
    (Trigger.insertRows
       {[ "app.settings.supabase_url"%string := lit "https://demo.supabase.co";
          "app.settings.service_role_key"%string := lit "service-key" ]}
       {| Trigger.users := []; Trigger.queue := [] |}
       [ {| Trigger.email := None;
            Trigger.created_at := lit "2025-01-01T00:00:00Z";
            Trigger.others := [] |} ]).
Proof.
  apply (proj1 (signups_need_settings
                  {[ "app.settings.supabase_url"%string := lit "https://demo.supabase.co";
                     "app.settings.service_role_key"%string := lit "service-key" ]}
                  {| Trigger.users := []; Trigger.queue := [] |}
                  [ {| Trigger.email := None;
                       Trigger.created_at := lit "2025-01-01T00:00:00Z";
                       Trigger.others := [] |} ])).
  right. split; vm_compute; eauto.
Defined.
